(* ===== verification/_CoqProject ===== *)
-Q . S2P
Prelude.v
JsString.v
Regex.v
RegexComplete.v
ExecLoop.v
JsObject.v
JsNumber.v
JsDouble.v
Types.v
DueDate.v
Category.v
Confidence.v
Detect.v
Process.v
Route.v
Layout.v
Vitest.v
Tests.v
