(* ===== verification/Prelude.v ===== *)
(** * Goal detection and tag statistics of the voice-journal service

    This library verifies [src/template/src/lib/sampleService.ts], which
    exports [processEntries]. The function turns a batch of voice entries
    into a summary string, a tag-frequency object and a list of detected
    goals. Around it are the record types of [src/template/src/lib/types.ts]
    and the HTTP handler [POST] of [src/template/src/app/api/sample/route.ts].

    ** How the program fits together

    [processEntries] loops over the entries. For each entry it increments
    [tagFrequencies[tag]] for every tag in [tags_user]. It then calls
    [detectGoals] on [transcript_raw] and on [transcript_user], concatenates
    the two lists and removes repeats by lower-cased task text, using a
    [Set] that is fresh for each entry.

    [detectGoals] runs four global, case-insensitive regular expressions.
    For each one it loops [pattern.exec] until the result is [null]. It
    trims the first capture, falling back to the second, and keeps a task
    only if its lower-cased text has not been seen in this call. Each
    goal's fields come from three helpers:
    - [extractDueDate]: the first of four non-global regexes that matches;
    - [detectCategory]: the first category of a fixed table that has a
      keyword as a substring;
    - [calculateConfidence]: a rational score clamped with [Math.min].

    ** Files, in dependency order

    - [Prelude] (this file): notation scope [js_scope], the hint database
      [js], shared tactics, lemmas on string append, take and drop, on
      [omap], and the generic [seenTasks] loop [dedup_step] with its
      reference [keep_first].
    - [JsString]: the JS string built-ins the code calls: [toLowerCase],
      [trim], [indexOf], [includes], and number-to-string for the summary.
    - [Regex]: the part of ECMAScript regular expressions the patterns use.
      It contains the pattern syntax, the backtracking matcher with
      continuations (ECMA-262 22.2.2), [RegExpBuiltinExec] with
      [lastIndex] state, the [exec] loop with fuel, a declarative language
      of each pattern, and soundness and termination of the matcher.
    - [RegexComplete]: completeness of the matcher, a decision procedure
      for the pattern languages, [exec] finding a match whenever the
      subject holds a word of the language, the capture groups every match
      defines, and captures being substrings of the subject.
    - [ExecLoop]: the [while (pattern.exec(...))] loop as a transition
      system (a step relation and its reflexive-transitive closure [rtc])
      with its safety invariant.
    - [JsObject]: the plain object [tagFrequencies], with the inherited
      properties of [Object.prototype] and the [__proto__] accessor, and
      the JS [||] and [+ 1] on the values it holds.
    - [JsNumber]: JS numbers as rationals, [+Infinity], [-Infinity] and
      [NaN], with the IEEE rules for the special values.
    - [JsDouble]: JS numbers as IEEE 754 binary64 doubles, through Corelib's
      executable [SpecFloat]: conversion of integers, the four operators
      rounded to nearest even, and [Math.min], with lemmas on the rounding
      step [binary_round_aux] (signs, 53-bit mantissas, bounds by powers of
      two).
    - [Types]: [VoiceEntry], [DetectedGoal] and [ProcessedResult], and the
      [GoalDetector] interface between [detectGoals] and [processEntries].
    - [DueDate], [Category], [Confidence]: [extractDueDate],
      [detectCategory] and [calculateConfidence], with
      [calculateConfidence_f64], the score in doubles, and [confidence_at],
      a reference of the score's formula at an explicit position (not a
      translation of code; the position theorem of [Detect] uses it).
    - [Detect]: [detectGoals] as a fold over the matches of each pattern,
      with its invariant; it implements [GoalDetector].
    - [Process]: [processEntries] as state passing over the entries,
      against that interface, with the abstract specification it refines.
    - [Route]: [POST] of [route.ts] with a small exception monad [throws].
      The request body is a JSON value (null, boolean, number, string, array
      or object), and property reads follow the prototypes: a bare array
      has the method [Array.prototype.entries]. The handler answers 400,
      200 with [processEntries], or 500 with one [console.error] line.
    - [Layout]: the metadata and the element tree of [layout.tsx].
    - [Vitest]: the [expect] matchers of the test suite, an [it] block as a
      list of expectations that stops at the first failing one.
    - [Tests]: the four [it] blocks of [src/template/tests/sample.test.ts],
      their entry batches and their expectations, run against the model as
      [Example]s. They record what the code gives on the fixtures.

    ** Modelling choices

    - JS strings are sequences of UTF-16 code units. They are modelled as
      [string], whose 8-bit characters are the code units 0 to 255
      (Latin-1). Case mapping, case folding and trimming are written out
      for that whole range, including [µ], [ÿ], [ß] and the non-breaking
      space. Strings with code units above 255 are not modelled.
    - JS numbers are doubles. Counts are modelled in [Z]: [Process] proves
      that every count lies between 1 and the number of tags, so it is
      exact for any batch with fewer than 2^53 tags. Confidence is
      modelled twice: in [Q], where each operation is exact, which the
      goal records carry; and in binary64 ([calculateConfidence_f64]),
      where each operation rounds as in a JS engine. JS strings are
      shorter than 2^53 by the language's definition, which is the
      hypothesis of the double-precision bound.
    - Every loop that terminates structurally is a [Fixpoint] or a
      [fold_left]. The one loop that does not, [while (pattern.exec(...))],
      is a fuel-indexed function. Fuel [S (length transcript)] is enough
      because every goal pattern has a positive minimum width, so
      [lastIndex] strictly increases. [Regex] proves this, and [Detect]
      proves that the fuel given is enough for every loop.

    ** What the theorems show

    - [Process]: [detectedGoals] refines the abstract specification (per
      entry, the first goal of each key). Each tag count is exact on keys
      that [Object.prototype] does not define, lies between 1 and the
      number of tags, and the counts sum to the number of tags. Every goal
      satisfies the interface. Deduplication only removes goals. Every
      task text is the trim of a substring of a transcript of the goal's
      own entry. The summary parses back. The tag ["__proto__"] is never
      counted, and a tag ["toString"] gets a string.
    - [Detect]: the [exec] loops terminate with the fuel given.
      [detectGoals] equals the [keep_first] reference and has no repeated
      key. Every goal satisfies [GoalDetector]: it belongs to the entry,
      is pending, has a non-empty task text that [trim] leaves unchanged,
      and has a confidence in [[0, 1]]. A transcript holding a word of a
      pattern's language gives that loop a match (completeness), and
      [detectGoals] is empty exactly when every match has an empty task
      text. The score of a match is taken at the first occurrence of its
      text, which is at or before the match and equal to it exactly when
      the text does not occur earlier.
    - [ExecLoop]: every reachable state of the loop satisfies the safety
      invariant: sound, ordered matches and a [lastIndex] at the last
      match's end.
    - [DueDate]: a returned due date is a date keyword, [this]/[next], an
      ordinal or a [D/D/YYYY] date. The result is [null] exactly when no
      word of any date pattern occurs in the transcript. [Category]: the
      result is one of the five names of the table, [null] exactly when no
      keyword occurs, and a health keyword always wins.
    - [Confidence]: the score is [NaN] exactly when the match and the
      transcript are both empty, and in [[0, 1]] otherwise; it is at least
      the bonuses it earns (0.2 for a due date, 0.1 for a category). In
      binary64, the score of a non-empty match found in the transcript
      is a finite double in [[0, 1]].
    - [Regex] and [RegexComplete]: [exec] is sound for the pattern's
      language and returns the leftmost match, and the matcher run to the
      end of the input accepts exactly the pattern's language.
    - [Route]: the status is 400 exactly when the body is JSON other than
      [null] and its [entries] is not an array, and 500 exactly when the
      code throws: a body that is not JSON, a [null] body, or an element of
      [entries] whose [tags_user] is not iterable. Otherwise the handler
      answers 200 with [processEntries]. A line is logged exactly when the
      status is 500.
    - [Tests] (examples, not theorems): the code gives 11 goals on test 1
      and 6 on test 4, where the tests expect 9 and 10. No goal of test 1
      has a due date, and [health] is counted 3 times. Run against the
      code, tests 1 and 4 fail at their first [expect] and tests 2 and 3
      pass.

    ** Not modelled

    The stylesheet import of [layout.tsx] has no behaviour. [request.json()]
    is modelled by its result: a JSON value or a [SyntaxError]. An array
    element whose [tags_user] is an array or a string but whose other
    fields are not those of a [VoiceEntry] is left out: there JS would
    apply [ToString] and [ToPropertyKey] to arbitrary values. Of vitest, only the matchers the tests use are
    modelled; the runner and its reporting are I/O. Code units above 255
    are not modelled: [toLowerCase] and [trim] over all of Unicode are
    tables much larger than the code's own logic, and the tests use ASCII.
    The goal records carry the rational score; the rounded score is
    modelled beside it, not threaded through [processEntries].
*)

From stdpp Require Export base list strings gmap.
From Stdlib Require Export Ascii.

Declare Scope js_scope.
Delimit Scope js_scope with js.
Open Scope stdpp_scope.

Create HintDb js.
Create Rewrite HintDb js_rw.

(** ** Tactics shared by the development *)

(** Invert a hypothesis and clean up the equations it produces. *)
Ltac invc H := inversion H; clear H; subst.

(** Destruct the innermost [match] or [if] of the goal, keeping its
    equation. *)
Ltac destruct_goal_match :=
  match goal with
  | |- context [match ?x with _ => _ end] =>
      let E := fresh "E" in destruct x eqn:E
  end.

(** Destruct the innermost [match] of a hypothesis, keeping its equation. *)
Ltac destruct_hyp_match H :=
  match type of H with
  | context [match ?x with _ => _ end] =>
      let E := fresh "E" in destruct x eqn:E
  end.

(** ** String append and suffixes *)

Lemma string_app_nil_l (s : string) : "" +:+ s = s.
Proof. reflexivity. Qed.

Lemma string_app_cons (a : ascii) (s1 s2 : string) :
  String a s1 +:+ s2 = String a (s1 +:+ s2).
Proof. reflexivity. Qed.

Lemma string_app_nil_r (s : string) : s +:+ "" = s.
Proof. induction s as [|a s IH]; [done|]. rewrite string_app_cons, IH. done. Qed.

Lemma string_app_assoc (s1 s2 s3 : string) :
  s1 +:+ (s2 +:+ s3) = (s1 +:+ s2) +:+ s3.
Proof.
  induction s1 as [|a s1 IH]; [done|]. rewrite !string_app_cons, IH. done.
Qed.

Lemma string_length_app (s1 s2 : string) :
  String.length (s1 +:+ s2) = String.length s1 + String.length s2.
Proof. induction s1 as [|a s1 IH]; [done|]. rewrite string_app_cons. simpl. lia. Qed.

Lemma string_app_inv_l (p s1 s2 : string) : p +:+ s1 = p +:+ s2 -> s1 = s2.
Proof.
  induction p as [|a p IH]; [done|]. rewrite !string_app_cons. intros H.
  invc H. auto.
Qed.

#[export] Hint Rewrite string_app_nil_l string_app_cons string_app_nil_r
  string_length_app : js_rw.

(** [suffix_of s' s]: [s'] is what remains of [s] after a prefix. *)
Definition suffix_of (s' s : string) : Prop := exists p, s = p +:+ s'.

Lemma suffix_of_refl s : suffix_of s s.
Proof. exists "". done. Qed.

Lemma suffix_of_cons a s' s : suffix_of s' s -> suffix_of s' (String a s).
Proof. intros [p ->]. exists (String a p). done. Qed.

Lemma suffix_of_trans s1 s2 s3 :
  suffix_of s1 s2 -> suffix_of s2 s3 -> suffix_of s1 s3.
Proof.
  intros [p ->] [q ->]. exists (q +:+ p). apply string_app_assoc.
Qed.

Lemma suffix_of_length s' s : suffix_of s' s -> String.length s' <= String.length s.
Proof. intros [p ->]. rewrite string_length_app. lia. Qed.

#[export] Hint Resolve suffix_of_refl suffix_of_cons suffix_of_trans : js.

(** [infix_of w s]: [w] occurs in [s]. *)
Definition infix_of (w s : string) : Prop := exists a b, s = a +:+ w +:+ b.

Lemma infix_of_suffix w s t : infix_of w s -> suffix_of s t -> infix_of w t.
Proof.
  intros (a & b & ->) (q & ->). exists (q +:+ a), b. by rewrite !string_app_assoc.
Qed.

(** [f] holds of every character of [w]. *)
Fixpoint chars_all (f : ascii -> bool) (w : string) : bool :=
  match w with
  | EmptyString => true
  | String a w' => f a && chars_all f w'
  end.

Lemma chars_all_app f w1 w2 :
  chars_all f (w1 +:+ w2) = chars_all f w1 && chars_all f w2.
Proof. induction w1 as [|a w1 IH]; [done|]. simpl. rewrite IH. apply andb_assoc. Qed.

(** ** Prefixes: the first [n] characters of a string *)

Fixpoint str_take (n : nat) (s : string) : string :=
  match n, s with
  | 0, _ => ""
  | S n', String a s' => String a (str_take n' s')
  | S _, EmptyString => ""
  end.

Fixpoint str_drop (n : nat) (s : string) : string :=
  match n, s with
  | 0, _ => s
  | S n', String _ s' => str_drop n' s'
  | S _, EmptyString => ""
  end.

Lemma str_take_app (p s : string) : str_take (String.length p) (p +:+ s) = p.
Proof. induction p as [|a p IH]; [done|]. simpl. rewrite IH. done. Qed.

Lemma str_drop_app (p s : string) : str_drop (String.length p) (p +:+ s) = s.
Proof. induction p as [|a p IH]; [done|]. simpl. exact IH. Qed.

Lemma str_drop_app_le (n : nat) (p s : string) :
  n <= String.length p -> str_drop n (p +:+ s) = str_drop n p +:+ s.
Proof.
  revert p. induction n as [|n IH]; intros [|a p] Hn; simpl in *; [done|done|lia|].
  apply IH. lia.
Qed.

Lemma str_take_drop (n : nat) (s : string) : str_take n s +:+ str_drop n s = s.
Proof.
  revert s. induction n as [|n IH]; intros [|a s]; try done.
  simpl. rewrite string_app_cons, IH. done.
Qed.

Lemma str_length_take (n : nat) (s : string) :
  n <= String.length s -> String.length (str_take n s) = n.
Proof. revert s. induction n as [|n IH]; intros [|a s]; simpl; intros; auto; lia || (f_equal; apply IH; lia). Qed.

Lemma str_length_drop (n : nat) (s : string) :
  String.length (str_drop n s) = String.length s - n.
Proof. revert s. induction n as [|n IH]; intros [|a s]; simpl; auto; lia. Qed.

(** The text consumed between two states of a scan: [s] before and its
    suffix [s'] after. *)
Definition consumed (s s' : string) : string :=
  str_take (String.length s - String.length s') s.

Lemma consumed_app (p s' : string) : consumed (p +:+ s') s' = p.
Proof.
  unfold consumed. rewrite string_length_app, Nat.add_sub. apply str_take_app.
Qed.

#[export] Hint Rewrite str_take_app str_drop_app consumed_app : js_rw.

(** ** Removing repeats by key *)

(** The loop shape [if (!seen.has(key(x))) { seen.add(key(x));
    out.push(x) }], which both [detectGoals] and [processEntries] use. It
    is paired with a reference definition that keeps the first element of
    each key, and the two are proved equal. *)
(** [omap] drops every element exactly when [f] maps each to [None]. *)
Lemma omap_nil {A B} (f : A -> option B) (l : list A) :
  omap f l = [] <-> forall x, x ∈ l -> f x = None.
Proof.
  induction l as [|x l IH]; [set_solver|].
  change (omap f (x :: l)) with (match f x with Some y => y :: omap f l | None => omap f l end).
  destruct (f x) eqn:E.
  - split; [done|]. intros H. specialize (H x (list_elem_of_here _ _)). congruence.
  - rewrite IH. split.
    + intros H y Hy. apply elem_of_cons in Hy as [->|Hy]; auto.
    + intros H y Hy. apply H. by right.
Qed.

Section Dedup.
Context {A : Type} (key : A -> string).

(** One iteration of the loop, on the output list and the [Set]. *)
Definition dedup_step (st : list A * gset string) (x : A) : list A * gset string :=
  if decide (key x ∈ st.2) then st else (st.1 ++ [x], {[key x]} ∪ st.2).

(** The reference: drop every element whose key is in [seen] or
    occurred earlier. *)
Fixpoint keep_first (seen : list string) (l : list A) : list A :=
  match l with
  | [] => []
  | x :: l' =>
      if decide (key x ∈ seen) then keep_first seen l'
      else x :: keep_first (key x :: seen) l'
  end.

Lemma dedup_fold_keep_first l acc (seen : list string) :
  (fold_left dedup_step l (acc, list_to_set seen)).1 = acc ++ keep_first seen l.
Proof.
  revert acc seen. induction l as [|x l IH]; intros acc seen; simpl.
  - by rewrite app_nil_r.
  - unfold dedup_step at 2. simpl.
    destruct (decide (key x ∈ (list_to_set seen : gset string))) as [Hin|Hin];
      rewrite elem_of_list_to_set in Hin.
    + rewrite decide_True by done. apply IH.
    + rewrite decide_False by done.
      change ({[key x]} ∪ list_to_set seen : gset string)
        with (list_to_set (key x :: seen) : gset string).
      rewrite IH, <- app_assoc. done.
Qed.

(** Nothing is removed from an empty start: the result is empty only
    for the empty list. *)
Lemma keep_first_nil l : keep_first [] l = [] <-> l = [].
Proof. destruct l as [|x l]; [done|]. cbn [keep_first]. destruct (decide (key x ∈ [])); [set_solver|done]. Qed.

Lemma keep_first_sublist seen l : keep_first seen l `sublist_of` l.
Proof.
  revert seen. induction l as [|x l IH]; intros seen; simpl; [done|].
  case_decide; [by apply sublist_cons|by apply sublist_skip].
Qed.

(** The result has no two elements with the same key, and no key of
    [seen]. *)
Lemma keep_first_nodup seen l :
  NoDup (map key (keep_first seen l)) /\
  Forall (fun x => key x ∉ seen) (keep_first seen l).
Proof.
  revert seen. induction l as [|x l IH]; intros seen; simpl; [split; constructor|].
  case_decide as Hx; [apply IH|].
  destruct (IH (key x :: seen)) as [Hnd Hall]. simpl. split.
  - constructor; [|done]. intros Hin. apply list_elem_of_fmap in Hin as (y & Hy & Hiny).
    rewrite Forall_forall in Hall. apply (Hall y Hiny). rewrite <- Hy. set_solver.
  - constructor; [done|]. eapply Forall_impl; [exact Hall|]. simpl. set_solver.
Qed.

(** Nothing is lost but repeats: every key of [l] is in [seen] or is
    the key of a kept element. *)
Lemma keep_first_keys seen l x :
  x ∈ l -> key x ∈ seen \/ key x ∈ map key (keep_first seen l).
Proof.
  revert seen. induction l as [|y l IH]; intros seen Hx; [set_solver|]. simpl.
  apply elem_of_cons in Hx as [->|Hx].
  - case_decide; [by left|right; set_solver].
  - case_decide; [by apply IH|].
    destruct (IH (key y :: seen) Hx) as [Hs|Hs]; [|right; set_solver].
    apply elem_of_cons in Hs as [Hs|Hs]; [right; rewrite Hs; set_solver|by left].
Qed.
End Dedup.
