(* ===== verification/JsString.v ===== *)
(** * JavaScript string built-ins used by the service

    This file models the [String.prototype] methods that
    [sampleService.ts] calls: [toLowerCase], [trim], [indexOf] and
    [includes]. It also models the case folding [Canonicalize] of
    case-insensitive regular expressions and the number-to-string
    conversion of the template literal in [processEntries]. A code unit is
    an [ascii], which covers 0 to 255 (Latin-1), and every mapping is
    written out for that whole range. *)

From S2P Require Import Prelude.
From Stdlib Require Import ZArith DecimalString DecimalNat.

Module JsString.

(** ** Code units *)

Definition code (c : ascii) : N := Ascii.N_of_ascii c.

(** Latin-1 upper-case letters: [A-Z], [À-Ö], [Ø-Þ]. *)
Definition is_upper (c : ascii) : bool :=
  let n := code c in
  (((65 <=? n) && (n <=? 90)) || ((192 <=? n) && (n <=? 222) && negb (n =? 215)))%N.

(** Latin-1 lower-case letters that have a single upper-case code unit:
    [a-z], [à-ö], [ø-þ]. *)
Definition is_lower (c : ascii) : bool :=
  let n := code c in
  (((97 <=? n) && (n <=? 122)) || ((224 <=? n) && (n <=? 254) && negb (n =? 247)))%N.

(** [String.prototype.toLowerCase] on one code unit. No Latin-1 code unit
    lowers to a code unit outside Latin-1. *)
Definition to_lower_char (c : ascii) : ascii :=
  if is_upper c then Ascii.ascii_of_N (code c + 32) else c.

Fixpoint toLowerCase (s : string) : string :=
  match s with
  | EmptyString => EmptyString
  | String c s' => String (to_lower_char c) (toLowerCase s')
  end.

(** [toUppercase] of one code unit, as a code point. [µ] (181) becomes
    U+039C and [ÿ] (255) becomes U+0178. [ß] (223) upper-cases to the two
    units "SS", so [Canonicalize] keeps it unchanged. *)
Definition to_upper_code (c : ascii) : N :=
  let n := code c in
  if is_lower c then (n - 32)%N
  else if (n =? 181)%N then 924%N
  else if (n =? 255)%N then 376%N
  else n.

(** ECMA-262 22.2.2.7.3 [Canonicalize] without the [u] flag. With
    [ignoreCase] a code unit becomes its upper-case form, except that a
    non-ASCII unit never folds to an ASCII one. *)
Definition canonicalize (ignore_case : bool) (c : ascii) : N :=
  if ignore_case then
    let u := to_upper_code c in
    if ((128 <=? code c) && (u <? 128))%N then code c else u
  else code c.

(** The decimal digits [0-9]. *)
Definition is_digit (c : ascii) : bool := ((48 <=? code c) && (code c <=? 57))%N.

(** ** [trim] *)

(** The JS [WhiteSpace] and [LineTerminator] code units below 256: tab,
    line feed, vertical tab, form feed, carriage return, space and
    no-break space. *)
Definition is_js_space (c : ascii) : bool :=
  match code c with
  | 9 | 10 | 11 | 12 | 13 | 32 | 160 => true
  | _ => false
  end%N.

Fixpoint trim_start (s : string) : string :=
  match s with
  | EmptyString => EmptyString
  | String c s' => if is_js_space c then trim_start s' else s
  end.

Fixpoint trim_end (s : string) : string :=
  match s with
  | EmptyString => EmptyString
  | String c s' =>
      match trim_end s' with
      | EmptyString => if is_js_space c then EmptyString else String c EmptyString
      | r => String c r
      end
  end.

(** [String.prototype.trim] (TrimString with [start+end]). *)
Definition trim (s : string) : string := trim_end (trim_start s).

(** A string with no white space at either end: what [trim] returns. *)
Definition starts_clean (s : string) : bool :=
  match s with
  | EmptyString => true
  | String c _ => negb (is_js_space c)
  end.

Fixpoint ends_clean (s : string) : bool :=
  match s with
  | EmptyString => true
  | String c EmptyString => negb (is_js_space c)
  | String _ s' => ends_clean s'
  end.

(** ** [indexOf] and [includes] *)

(** The first position at which [needle] occurs in [hay]. *)
Fixpoint index_of (needle hay : string) : option nat :=
  if String.prefix needle hay then Some 0
  else match hay with
       | EmptyString => None
       | String _ hay' => S <$> index_of needle hay'
       end.

(** [hay.indexOf(needle)] as the JS number it returns: -1 when absent. *)
Definition indexOf (hay needle : string) : Z :=
  match index_of needle hay with
  | Some n => Z.of_nat n
  | None => (-1)%Z
  end.

(** [hay.includes(needle)]. *)
Definition includes (hay needle : string) : bool :=
  match index_of needle hay with Some _ => true | None => false end.

(** ** Number to string *)

(** [String(n)] for a non-negative integer below 10^21: its decimal
    digits with no leading zero. *)
Definition number_to_string (n : nat) : string :=
  NilEmpty.string_of_uint (Nat.to_uint n).

(** The inverse, for the round trip: parse decimal digits. *)
Definition string_to_number (s : string) : option nat :=
  Nat.of_uint <$> NilEmpty.uint_of_string s.

(** ** Lemmas *)

Lemma toLowerCase_length s : String.length (toLowerCase s) = String.length s.
Proof. induction s as [|c s IH]; simpl; auto. Qed.

Lemma toLowerCase_app s1 s2 :
  toLowerCase (s1 +:+ s2) = toLowerCase s1 +:+ toLowerCase s2.
Proof. induction s1 as [|c s1 IH]; [done|]. simpl. rewrite IH. done. Qed.

Lemma to_lower_char_idem c : to_lower_char (to_lower_char c) = to_lower_char c.
Proof. destruct c as [[][][][][][][][]]; reflexivity. Qed.

Lemma toLowerCase_idem s : toLowerCase (toLowerCase s) = toLowerCase s.
Proof. induction s as [|c s IH]; simpl; [done|]. rewrite to_lower_char_idem, IH. done. Qed.

Lemma prefix_app (p s : string) : String.prefix p (p +:+ s) = true.
Proof.
  induction p as [|a p IH]; [by destruct s|]. simpl.
  destruct (ascii_dec a a); [exact IH | done].
Qed.

Lemma prefix_spec (p s : string) :
  String.prefix p s = true <-> exists r, s = p +:+ r.
Proof.
  split.
  - revert s. induction p as [|a p IH]; intros s H; [by exists s|].
    destruct s as [|b s]; [done|]. simpl in H.
    destruct (ascii_dec a b) as [->|]; [|done].
    destruct (IH s H) as [r ->]. by exists r.
  - intros [r ->]. apply prefix_app.
Qed.

Lemma index_of_unfold needle hay :
  index_of needle hay =
  if String.prefix needle hay then Some 0
  else match hay with
       | EmptyString => None
       | String _ hay' => S <$> index_of needle hay'
       end.
Proof. by destruct hay. Qed.

(** [index_of] finds an occurrence: the needle sits at that position. *)
Lemma index_of_sound needle hay k :
  index_of needle hay = Some k ->
  exists pre post, hay = pre +:+ needle +:+ post /\ String.length pre = k.
Proof.
  revert k. induction hay as [|c hay IH]; intros k H; rewrite index_of_unfold in H;
    destruct (String.prefix needle _) eqn:P.
  - invc H. apply prefix_spec in P as [r Hr]. by exists "", r.
  - done.
  - invc H. apply prefix_spec in P as [r Hr]. by exists "", r.
  - destruct (index_of needle hay) as [k'|] eqn:E; [|done]. invc H.
    destruct (IH k' eq_refl) as (pre & post & -> & <-).
    exists (String c pre), post. done.
Qed.

(** [index_of] finds the first occurrence, so any occurrence lies at or
    after the position it returns. *)
Lemma index_of_complete needle pre post :
  exists k, index_of needle (pre +:+ needle +:+ post) = Some k /\
            k <= String.length pre.
Proof.
  induction pre as [|c pre IH].
  - exists 0. rewrite index_of_unfold, string_app_nil_l, prefix_app. split; [done|lia].
  - destruct IH as (k & Hk & Hle). rewrite index_of_unfold, string_app_cons.
    destruct (String.prefix needle _).
    + exists 0. split; [done|lia].
    + rewrite Hk. exists (S k). split; [done|simpl; lia].
Qed.

Lemma includes_spec hay needle :
  includes hay needle = true <-> exists pre post, hay = pre +:+ needle +:+ post.
Proof.
  unfold includes. split.
  - destruct (index_of needle hay) eqn:E; [|done]. intros _.
    destruct (index_of_sound _ _ _ E) as (pre & post & -> & _). eauto.
  - intros (pre & post & ->). destruct (index_of_complete needle pre post) as (k & -> & _).
    done.
Qed.

(** The first occurrence fits inside the string. *)
Lemma index_of_fits needle hay k :
  index_of needle hay = Some k ->
  k + String.length needle <= String.length hay.
Proof.
  intros H. destruct (index_of_sound _ _ _ H) as (pre & post & -> & <-).
  rewrite !string_length_app. lia.
Qed.

(** [trim] leaves no white space at either end, and changes nothing in a
    string that has none. *)
Lemma trim_start_clean s : starts_clean (trim_start s) = true.
Proof. induction s as [|c s IH]; [done|]. simpl. destruct (is_js_space c) eqn:E; simpl; by rewrite ?E. Qed.

Lemma trim_start_id s : starts_clean s = true -> trim_start s = s.
Proof. destruct s as [|c s]; [done|]. simpl. by destruct (is_js_space c). Qed.

Lemma trim_end_clean s : ends_clean (trim_end s) = true.
Proof.
  induction s as [|c s IH]; [done|]. simpl.
  destruct (trim_end s) as [|c' s'] eqn:E; [by destruct (is_js_space c) eqn:Ec; simpl; rewrite ?Ec|].
  exact IH.
Qed.

Lemma trim_end_starts_clean s : starts_clean s = true -> starts_clean (trim_end s) = true.
Proof.
  destruct s as [|c s]; [done|]. simpl. intros Hc.
  destruct (trim_end s); simpl; [|exact Hc].
  destruct (is_js_space c) eqn:E; simpl; [done|by rewrite E].
Qed.

Lemma trim_end_id s : ends_clean s = true -> trim_end s = s.
Proof.
  induction s as [|c s IH]; [done|]. intros Hs. simpl.
  destruct s as [|c' s'].
  - simpl in Hs. by destruct (is_js_space c).
  - rewrite IH by exact Hs. done.
Qed.

Lemma trim_idem s : trim (trim s) = trim s.
Proof.
  unfold trim. rewrite (trim_start_id (trim_end (trim_start s))).
  - apply trim_end_id, trim_end_clean.
  - apply trim_end_starts_clean, trim_start_clean.
Qed.

(** ** Facts checked over all 256 code units *)

Definition all_code_units : list ascii := map Ascii.ascii_of_nat (seq 0 256).

Definition forall_code_units (f : ascii -> bool) : bool := forallb f all_code_units.

Lemma forall_code_units_spec f : forall_code_units f = true -> forall c, f c = true.
Proof.
  unfold forall_code_units. rewrite forallb_forall. intros H c. apply H.
  rewrite <- (Ascii.ascii_nat_embedding c). apply in_map, in_seq.
  pose proof (Ascii.nat_ascii_bounded c). lia.
Qed.

(** Case-insensitive regex equality implies equality after
    [toLowerCase], on every pair of code units. *)
Lemma canonicalize_to_lower a b :
  canonicalize true a = canonicalize true b -> to_lower_char a = to_lower_char b.
Proof.
  pose (fold_ok := fun a => forall_code_units (fun b =>
    implb (N.eqb (canonicalize true a) (canonicalize true b))
          (Ascii.eqb (to_lower_char a) (to_lower_char b)))).
  assert (Hall : forall_code_units fold_ok = true) by (vm_compute; reflexivity).
  intros Hab. pose proof (forall_code_units_spec _ (forall_code_units_spec _ Hall a) b) as H.
  unfold fold_ok in H. cbv beta in H. rewrite Hab, N.eqb_refl in H.
  by apply Ascii.eqb_eq.
Qed.

Lemma number_to_string_digits n : chars_all is_digit (number_to_string n) = true.
Proof.
  unfold number_to_string. generalize (Nat.to_uint n) as u.
  induction u; simpl; rewrite ?IHu; reflexivity.
Qed.

(** Round trip of the number conversion in the summary string. *)
Lemma number_to_string_roundtrip n :
  string_to_number (number_to_string n) = Some n.
Proof.
  unfold string_to_number, number_to_string. rewrite NilEmpty.usu. simpl.
  by rewrite Unsigned.of_to.
Qed.

End JsString.
