(* ===== verification/Regex.v ===== *)
(** * The ECMAScript regular expressions the service uses

    All eight regex literals of [sampleService.ts] are built from literal
    characters, alternation, concatenation, capture groups,
    non-capturing groups, one bracket class [[^.,!?]], the escape [\d],
    and the greedy quantifiers [+], [{1,2}] and [?]. This file models:
    - the abstract syntax [regex] of such patterns;
    - the backtracking matcher of ECMA-262 22.2.2, in continuation-passing
      style like the standard's [Matcher] and [MatcherContinuation];
    - the [RegExp] object with its [global], [ignoreCase] and [lastIndex]
      fields, [RegExp.prototype.exec] as [RegExpBuiltinExec] (22.2.7.2),
      and [String.prototype.match] for a non-global regex;
    - the loop [while ((match = pattern.exec(s)) !== null)] as a
      fuel-indexed function.

    The proofs relate the matcher to a declarative language [in_lang]
    (soundness), bound the length of every match from below by the
    pattern's minimum width, and show that the [exec] loop terminates
    within [length s + 1] iterations when that width is positive. *)

From S2P Require Import Prelude JsString.

Module Regex.
Import JsString.

(** ** Syntax *)

(** A bracket class [[...]] or [[^...]], or a class escape such as [\d]. *)
Record charset := CharSet { cs_negated : bool; cs_members : list ascii }.

(** CharacterSetMatcher's test (22.2.2.7.1): some member has the same
    canonical form as the code unit, or none has for a negated class. *)
Definition cs_matches (ic : bool) (cs : charset) (c : ascii) : bool :=
  let cc := canonicalize ic c in
  let found := existsb (fun a => N.eqb (canonicalize ic a) cc) (cs_members cs) in
  if cs_negated cs then negb found else found.

Inductive regex :=
  | REmpty                                   (** the empty alternative *)
  | RChar (a : ascii)                        (** a pattern character *)
  | RClass (cs : charset)                    (** [[...]] or [\d] *)
  | RSeq (r1 r2 : regex)                     (** concatenation *)
  | RAlt (r1 r2 : regex)                     (** [r1|r2] *)
  | RRepeat (cs : charset) (min : nat) (max : option nat)
      (** a greedy quantifier [{min,max}] on a one-character atom *)
  | ROpt (r : regex)                         (** the greedy [(?:r)?] *)
  | RGroup (n : nat) (r : regex).            (** the capture group number [n] *)

(** A literal word, one pattern character after another. *)
Fixpoint lit (w : string) : regex :=
  match w with
  | EmptyString => REmpty
  | String a w' => RSeq (RChar a) (lit w')
  end.

(** [w1|w2|...|wn], nested to the right as the grammar's [Disjunction]. *)
Fixpoint alts (rs : list regex) : regex :=
  match rs with
  | [] => REmpty
  | [r] => r
  | r :: rs' => RAlt r (alts rs')
  end.

(** [(?:w1|w2|...)] for literal words. *)
Definition words (ws : list string) : regex := alts (map lit ws).

Fixpoint groups_of (r : regex) : list nat :=
  match r with
  | RGroup n r1 => n :: groups_of r1
  | RSeq r1 r2 | RAlt r1 r2 => groups_of r1 ++ groups_of r2
  | ROpt r1 => groups_of r1
  | _ => []
  end.

(** ** Matcher state *)

(** The captures of a state: group number and captured text. The first
    entry for a number is its value. A number with no entry is
    [undefined]. *)
Definition captures := list (nat * string).

Fixpoint cap_lookup (n : nat) (c : captures) : option string :=
  match c with
  | [] => None
  | (m, w) :: c' => if Nat.eqb m n then Some w else cap_lookup n c'
  end.

Definition clear_groups (ns : list nat) (c : captures) : captures :=
  List.filter (fun p => negb (existsb (Nat.eqb p.1) ns)) c.

(** The input still to be read stands for the state's [endIndex]: the
    index is [length input - length rest]. *)
Definition cont := string -> captures -> option (string * captures).

Definition max_reached (max : option nat) : bool :=
  match max with Some 0 => true | _ => false end.

(** RepeatMatcher (22.2.2.3.1) for a one-character atom: take one more
    character while [max] allows it, and fall back to the continuation
    once [min] is reached. *)
Fixpoint rep_match (ic : bool) (cs : charset) (min : nat) (max : option nat)
    (s : string) (c : captures) (k : cont) {struct s} : option (string * captures) :=
  let step :=
    match s with
    | String a s' =>
        if max_reached max then None
        else if cs_matches ic cs a
        then rep_match ic cs (Nat.pred min) (Nat.pred <$> max) s' c k
        else None
    | EmptyString => None
    end in
  match min with
  | 0 => match step with Some x => Some x | None => k s c end
  | S _ => step
  end.

(** CompilePattern's matchers (22.2.2), one clause per production. *)
Fixpoint matcher (ic : bool) (r : regex) (s : string) (c : captures) (k : cont)
    : option (string * captures) :=
  match r with
  | REmpty => k s c
  | RChar a =>
      match s with
      | String b s' =>
          if N.eqb (canonicalize ic a) (canonicalize ic b) then k s' c else None
      | EmptyString => None
      end
  | RClass cs =>
      match s with
      | String b s' => if cs_matches ic cs b then k s' c else None
      | EmptyString => None
      end
  | RSeq r1 r2 => matcher ic r1 s c (fun s1 c1 => matcher ic r2 s1 c1 k)
  | RAlt r1 r2 =>
      match matcher ic r1 s c k with
      | Some x => Some x
      | None => matcher ic r2 s c k
      end
  | RRepeat cs mn mx => rep_match ic cs mn mx s c k
  | ROpt r1 =>
      (* RepeatMatcher with min 0 and max 1: clear the atom's groups, try
         one non-empty iteration, else continue without it. *)
      match matcher ic r1 s (clear_groups (groups_of r1) c)
              (fun s1 c1 => if Nat.eqb (String.length s1) (String.length s)
                            then None else k s1 c1) with
      | Some x => Some x
      | None => k s c
      end
  | RGroup n r1 => matcher ic r1 s c (fun s1 c1 => k s1 ((n, consumed s s1) :: c1))
  end.

(** The pattern's own final continuation returns the state it reaches. *)
Definition match_here (ic : bool) (r : regex) (s : string) : option (string * captures) :=
  matcher ic r s [] (fun s1 c1 => Some (s1, c1)).

(** ** Match results and [RegExp] objects *)

(** The array [exec] returns: [index], the matched text [match[0]], the
    end index, and the captures [match[1]], [match[2]], .... *)
Record match_result := MatchResult {
  mr_index : nat;
  mr_end : nat;
  mr_text : string;
  mr_captures : captures
}.

(** [match[n]]: [None] is [undefined]. *)
Definition group (m : match_result) (n : nat) : option string :=
  if Nat.eqb n 0 then Some (mr_text m) else cap_lookup n (mr_captures m).

(** The search loop of RegExpBuiltinExec: try the matcher at [i],
    [i + 1], ... up to the end of the input. *)
Fixpoint search (ic : bool) (r : regex) (s : string) (i : nat) : option match_result :=
  match match_here ic r s with
  | Some (s1, c1) =>
      Some (MatchResult i (i + (String.length s - String.length s1)) (consumed s s1) c1)
  | None =>
      match s with
      | EmptyString => None
      | String _ s' => search ic r s' (S i)
      end
  end.

Record RegExp := MkRegExp {
  source : regex;
  global : bool;
  ignoreCase : bool;
  lastIndex : nat
}.

Definition set_lastIndex (R : RegExp) (n : nat) : RegExp :=
  MkRegExp (source R) (global R) (ignoreCase R) n.

(** A regex literal: a fresh object with [lastIndex] 0. *)
Definition regexp_literal (r : regex) (g ic : bool) : RegExp := MkRegExp r g ic 0.

(** [R.exec(str)] (RegExpBuiltinExec, no sticky or unicode flag): the
    match and the object with its new [lastIndex]. A non-global object
    starts at 0 and is left unchanged. *)
Definition exec (R : RegExp) (str : string) : option match_result * RegExp :=
  let li := if global R then lastIndex R else 0 in
  let failed := (None, if global R then set_lastIndex R 0 else R) in
  if Nat.ltb (String.length str) li then failed
  else match search (ignoreCase R) (source R) (str_drop li str) li with
       | None => failed
       | Some m => (Some m, if global R then set_lastIndex R (mr_end m) else R)
       end.

(** [str.match(R)] for a non-global [R]: RegExpExec. *)
Definition str_match (str : string) (R : RegExp) : option match_result :=
  (exec R str).1.

(** [while ((match = R.exec(str)) !== null) { ... }]: the matches in the
    order the loop sees them, and the object after the loop. [None] means
    the fuel ran out. *)
Fixpoint exec_loop (fuel : nat) (R : RegExp) (str : string)
    : option (list match_result * RegExp) :=
  match fuel with
  | 0 => None
  | S fuel' =>
      match exec R str with
      | (None, R') => Some ([], R')
      | (Some m, R') =>
          match exec_loop fuel' R' str with
          | Some (ms, R'') => Some (m :: ms, R'')
          | None => None
          end
      end
  end.

(** ** Declarative semantics *)

(** The words a quantified one-character atom accepts. *)
Definition rep_ok (ic : bool) (cs : charset) (mn : nat) (mx : option nat) (w : string) : Prop :=
  chars_all (cs_matches ic cs) w = true /\ mn <= String.length w /\
  (forall M, mx = Some M -> String.length w <= M).

Inductive in_lang (ic : bool) : regex -> string -> Prop :=
  | L_empty : in_lang ic REmpty ""
  | L_char a b :
      canonicalize ic a = canonicalize ic b -> in_lang ic (RChar a) (String b "")
  | L_class cs b : cs_matches ic cs b = true -> in_lang ic (RClass cs) (String b "")
  | L_seq r1 r2 w1 w2 :
      in_lang ic r1 w1 -> in_lang ic r2 w2 -> in_lang ic (RSeq r1 r2) (w1 +:+ w2)
  | L_alt_l r1 r2 w : in_lang ic r1 w -> in_lang ic (RAlt r1 r2) w
  | L_alt_r r1 r2 w : in_lang ic r2 w -> in_lang ic (RAlt r1 r2) w
  | L_repeat cs mn mx w : rep_ok ic cs mn mx w -> in_lang ic (RRepeat cs mn mx) w
  | L_opt_none r : in_lang ic (ROpt r) ""
  | L_opt_some r w : in_lang ic r w -> in_lang ic (ROpt r) w
  | L_group n r w : in_lang ic r w -> in_lang ic (RGroup n r) w.

(** The length of the shortest word of the language. *)
Fixpoint min_width (r : regex) : nat :=
  match r with
  | REmpty | ROpt _ => 0
  | RChar _ | RClass _ => 1
  | RSeq r1 r2 => min_width r1 + min_width r2
  | RAlt r1 r2 => Nat.min (min_width r1) (min_width r2)
  | RRepeat _ mn _ => mn
  | RGroup _ r1 => min_width r1
  end.

(** What the captures of a state satisfy: [Q n w] for each entry. *)
Definition caps_ok (Q : nat -> string -> Prop) (c : captures) : Prop :=
  Forall (fun p => Q p.1 p.2) c.

(** Every group [n] of [r] captures only words [w] with [Q n w]. *)
Fixpoint groups_ok (ic : bool) (Q : nat -> string -> Prop) (r : regex) : Prop :=
  match r with
  | RGroup n r1 => (forall w, in_lang ic r1 w -> Q n w) /\ groups_ok ic Q r1
  | RSeq r1 r2 | RAlt r1 r2 => groups_ok ic Q r1 /\ groups_ok ic Q r2
  | ROpt r1 => groups_ok ic Q r1
  | _ => True
  end.

(** A match found in [str]: the matched text sits at [mr_index], belongs
    to the language, and its captures satisfy [Q]. *)
Definition match_ok (ic : bool) (Q : nat -> string -> Prop) (r : regex)
    (str : string) (m : match_result) : Prop :=
  exists pre post,
    str = pre +:+ mr_text m +:+ post /\ String.length pre = mr_index m /\
    mr_end m = mr_index m + String.length (mr_text m) /\
    in_lang ic r (mr_text m) /\ caps_ok Q (mr_captures m).

(** ** Soundness of the matcher *)

Lemma rep_ok_nil ic cs mx : rep_ok ic cs 0 mx "".
Proof. repeat split; simpl; intros; lia. Qed.

Lemma rep_ok_cons ic cs mn mx a p :
  max_reached mx = false -> cs_matches ic cs a = true ->
  rep_ok ic cs (Nat.pred mn) (Nat.pred <$> mx) p -> rep_ok ic cs mn mx (String a p).
Proof.
  intros Hmx Ha (Hall & Hmn & HM). repeat split; simpl.
  - by rewrite Ha, Hall.
  - lia.
  - intros M ->. destruct M as [|M]; [done|]. specialize (HM M eq_refl). lia.
Qed.

#[export] Hint Resolve rep_ok_nil rep_ok_cons : js.

(** A successful repetition consumed a word the quantifier accepts and
    handed the rest of the input to its continuation. *)
Lemma rep_match_sound ic cs s : forall mn mx c k x,
  rep_match ic cs mn mx s c k = Some x ->
  exists p s', s = p +:+ s' /\ rep_ok ic cs mn mx p /\ k s' c = Some x.
Proof.
  (* the quantifier stops here: no character consumed *)
Local Ltac rep_stop := eexists "", _; split; [reflexivity|split; [apply rep_ok_nil|eassumption]].
  induction s as [|a s IH]; intros mn mx c k x H; simpl in H.
  - destruct mn; [rep_stop|done].
  - destruct (max_reached mx) eqn:Hmx; [destruct mn; [rep_stop|done]|].
    destruct (cs_matches ic cs a) eqn:Ha; [|destruct mn; [rep_stop|done]].
    destruct (rep_match ic cs (Nat.pred mn) (Nat.pred <$> mx) s c k) as [y|] eqn:E.
    + assert (y = x) as -> by (destruct mn; congruence).
      destruct (IH _ _ _ _ _ E) as (p & s' & -> & Hp & Hk).
      exists (String a p), s'. eauto with js.
    + destruct mn; [rep_stop|done].
Qed.

Lemma caps_ok_clear Q ns c : caps_ok Q c -> caps_ok Q (clear_groups ns c).
Proof.
  unfold caps_ok, clear_groups. induction c as [|p c IH]; intros H; [done|].
  invc H. simpl. destruct (negb _); [constructor|]; auto.
Qed.

(** Soundness of every matcher (22.2.2): when [matcher ic r s c k]
    succeeds, [r] consumed a word of its language, the captures stayed
    within [Q], and the continuation succeeded on the rest. *)
Lemma matcher_sound ic Q r : groups_ok ic Q r ->
  forall s c k x, caps_ok Q c -> matcher ic r s c k = Some x ->
  exists p s' c', s = p +:+ s' /\ in_lang ic r p /\ caps_ok Q c' /\ k s' c' = Some x.
Proof.
  induction r as [|a|cs|r1 IH1 r2 IH2|r1 IH1 r2 IH2|cs mn mx|r1 IH1|n r1 IH1];
    simpl; intros Hg s c k x Hc H.
  - exists "", s, c. repeat split; auto. constructor.
  - destruct s as [|b s]; [done|].
    destruct (N.eqb_spec (canonicalize ic a) (canonicalize ic b)); [|done].
    exists (String b ""), s, c. repeat split; auto. by constructor.
  - destruct s as [|b s]; [done|]. destruct (cs_matches ic cs b) eqn:Hb; [|done].
    exists (String b ""), s, c. repeat split; auto. by constructor.
  - destruct Hg as [Hg1 Hg2].
    destruct (IH1 Hg1 _ _ _ _ Hc H) as (p1 & s1 & c1 & -> & L1 & C1 & H1).
    destruct (IH2 Hg2 _ _ _ _ C1 H1) as (p2 & s2 & c2 & -> & L2 & C2 & H2).
    exists (p1 +:+ p2), s2, c2. rewrite string_app_assoc. repeat split; auto.
    by constructor.
  - destruct Hg as [Hg1 Hg2]. destruct (matcher ic r1 s c k) eqn:E.
    + invc H. destruct (IH1 Hg1 _ _ _ _ Hc E) as (p & s' & c' & -> & L & C & Hk).
      exists p, s', c'. repeat split; auto. by apply L_alt_l.
    + destruct (IH2 Hg2 _ _ _ _ Hc H) as (p & s' & c' & -> & L & C & Hk).
      exists p, s', c'. repeat split; auto. by apply L_alt_r.
  - destruct (rep_match_sound _ _ _ _ _ _ _ _ H) as (p & s' & -> & Hp & Hk).
    exists p, s', c. repeat split; auto. by constructor.
  - destruct (matcher ic r1 s _ _) eqn:E.
    + invc H. destruct (IH1 Hg _ _ _ _ (caps_ok_clear _ _ _ Hc) E)
        as (p & s' & c' & -> & L & C & Hk).
      destruct (Nat.eqb _ _); [done|].
      exists p, s', c'. repeat split; auto. by constructor.
    + exists "", s, c. repeat split; auto. constructor.
  - destruct Hg as [HQ Hg].
    destruct (IH1 Hg _ _ _ _ Hc H) as (p & s' & c' & -> & L & C & Hk).
    rewrite consumed_app in Hk.
    exists p, s', ((n, p) :: c'). repeat split; auto.
    + by constructor.
    + constructor; [by apply HQ|done].
Qed.

(** Every word of the language is at least [min_width] long. *)
Lemma in_lang_min_width ic r w : in_lang ic r w -> min_width r <= String.length w.
Proof.
  induction 1 as [| | |r1 r2 w1 w2 _ IH1 _ IH2| | |cs mn mx w (_ & Hmn & _)| | |];
    simpl; rewrite ?string_length_app; lia.
Qed.

Lemma groups_ok_True ic r : groups_ok ic (fun _ _ => True) r.
Proof. induction r; simpl; tauto. Qed.

#[export] Hint Resolve groups_ok_True : js.

Lemma match_here_sound ic Q r s s1 c1 :
  groups_ok ic Q r -> match_here ic r s = Some (s1, c1) ->
  exists p, s = p +:+ s1 /\ in_lang ic r p /\ caps_ok Q c1.
Proof.
  intros Hg H. destruct (matcher_sound ic Q r Hg s [] _ _ (Forall_nil_2 _) H)
    as (p & s' & c' & -> & L & C & Hk).
  invc Hk. eauto.
Qed.

Lemma search_here ic Q r s s1 c1 i :
  groups_ok ic Q r -> match_here ic r s = Some (s1, c1) ->
  let m := MatchResult i (i + (String.length s - String.length s1)) (consumed s s1) c1 in
  exists pre post, s = pre +:+ mr_text m +:+ post /\
    mr_index m = i + String.length pre /\
    mr_end m = mr_index m + String.length (mr_text m) /\
    in_lang ic r (mr_text m) /\ caps_ok Q (mr_captures m).
Proof.
  intros Hg H. destruct (match_here_sound _ _ _ _ _ _ Hg H) as (p & -> & L & C).
  simpl. rewrite consumed_app, string_length_app, Nat.add_sub.
  exists "", s1. repeat split; auto; simpl; lia.
Qed.

(** [search] reports a match at the position where the matcher succeeds,
    with the text the matcher consumed. *)
Lemma search_sound ic Q r s i m :
  groups_ok ic Q r -> search ic r s i = Some m ->
  exists pre post, s = pre +:+ mr_text m +:+ post /\
    mr_index m = i + String.length pre /\
    mr_end m = mr_index m + String.length (mr_text m) /\
    in_lang ic r (mr_text m) /\ caps_ok Q (mr_captures m).
Proof.
  intros Hg. revert i. induction s as [|a s IH]; intros i H;
    simpl in H; destruct (match_here ic r _) as [[s1 c1]|] eqn:E;
    try (invc H; by apply (search_here ic Q r _ s1 c1 i Hg E)).
  destruct (IH (S i) H) as (pre & post & -> & Hi & He & L & C).
  exists (String a pre), post. simpl. repeat split; auto; lia.
Qed.

(** ** [exec] and the [exec] loop *)

Lemma exec_none R str R' :
  exec R str = (None, R') -> R' = if global R then set_lastIndex R 0 else R.
Proof.
  unfold exec. destruct (Nat.ltb _ _); [by intros [=]|].
  destruct (search _ _ _ _); by intros [=].
Qed.

(** A match of [exec] lies in the subject string at or after
    [lastIndex], and a global object moves [lastIndex] to its end. *)
Lemma exec_sound Q R str m R' :
  groups_ok (ignoreCase R) Q (source R) -> exec R str = (Some m, R') ->
  match_ok (ignoreCase R) Q (source R) str m /\
  (if global R then lastIndex R else 0) <= mr_index m /\
  R' = (if global R then set_lastIndex R (mr_end m) else R).
Proof.
  intros Hg. unfold exec. set (li := if global R then lastIndex R else 0).
  destruct (Nat.ltb_spec (String.length str) li); [by intros [=]|].
  destruct (search _ _ _ _) as [m'|] eqn:E; [|by intros [=]]. intros [= -> <-].
  destruct (search_sound _ _ _ _ _ _ Hg E) as (pre & post & Hs & Hi & He & L & C).
  split; [|split; [lia|done]].
  exists (str_take li str +:+ pre), post.
  rewrite <- string_app_assoc, <- Hs, str_take_drop, string_length_app, str_length_take by lia.
  repeat split; auto; lia.
Qed.

Lemma exec_keeps_regex R str o R' :
  exec R str = (o, R') ->
  source R' = source R /\ global R' = global R /\ ignoreCase R' = ignoreCase R.
Proof.
  destruct o as [m|]; intros H.
  - destruct (exec_sound (fun _ _ => True) R str m R' (groups_ok_True _ _) H) as (_ & _ & ->).
    unfold set_lastIndex; destruct (global R) eqn:G; simpl; repeat split; auto.
  - rewrite (exec_none _ _ _ H). unfold set_lastIndex; destruct (global R) eqn:G; simpl; repeat split; auto.
Qed.

(** Every match the loop collects is a sound match of the pattern. *)
Lemma exec_loop_sound Q fuel R str ms R' :
  groups_ok (ignoreCase R) Q (source R) -> exec_loop fuel R str = Some (ms, R') ->
  Forall (match_ok (ignoreCase R) Q (source R) str) ms.
Proof.
  revert R ms R'. induction fuel as [|fuel IH]; intros R ms R' Hg H; simpl in H; [done|].
  destruct (exec R str) as [[m|] R1] eqn:E.
  - destruct (exec_loop fuel R1 str) as [[ms1 R2]|] eqn:E1; [|done]. invc H.
    destruct (exec_sound _ _ _ _ _ Hg E) as (Hm & _ & _).
    destruct (exec_keeps_regex _ _ _ _ E) as (Hs & _ & Hi).
    constructor; [done|]. rewrite <- Hs, <- Hi. eapply IH; [by rewrite Hs, Hi|exact E1].
  - invc H. constructor.
Qed.

(** The [exec] loop of a global pattern whose matches are never empty
    ends within [length str - lastIndex + 1] iterations. It stops at the
    [null] result, which resets [lastIndex] to 0. *)
Lemma exec_loop_terminates R str fuel :
  global R = true -> 0 < min_width (source R) ->
  String.length str - lastIndex R < fuel ->
  exists ms R', exec_loop fuel R str = Some (ms, R') /\ lastIndex R' = 0.
Proof.
  revert R. induction fuel as [|fuel IH]; intros R Hgl Hw Hf; [lia|]. simpl.
  destruct (exec R str) as [[m|] R1] eqn:E.
  - destruct (exec_sound (fun _ _ => True) R str m R1 (groups_ok_True _ _) E)
      as ((pre & post & Hs & Hpre & He & L & _) & Hli & HR1).
    rewrite Hgl in Hli, HR1. subst R1.
    pose proof (in_lang_min_width _ _ _ L) as Hwidth.
    assert (String.length str =
            String.length pre + String.length (mr_text m) + String.length post)
      by (rewrite Hs, !string_length_app; lia).
    destruct (IH (set_lastIndex R (mr_end m))) as (ms & R' & -> & Hzero);
      simpl; auto; [lia|]. eauto.
  - rewrite (exec_none _ _ _ E), Hgl. eauto.
Qed.

(** ** Inversion on literal words, alternatives and captures *)

Lemma in_lang_alts ic rs w :
  rs <> [] -> in_lang ic (alts rs) w -> exists r, In r rs /\ in_lang ic r w.
Proof.
  induction rs as [|r rs IH]; [done|]. intros _ H.
  destruct rs as [|r' rs]; [by exists r; split; [left|]|].
  invc H; [by exists r; split; [left|]|].
  destruct IH as (r0 & Hin & L); [done|done|]. exists r0. split; [right|]; done.
Qed.

(** A case-insensitive literal matches the words equal to it after
    [toLowerCase]. *)
Lemma in_lang_lit_ci kw w : in_lang true (lit kw) w -> toLowerCase w = toLowerCase kw.
Proof.
  revert w. induction kw as [|a kw IH]; intros w H; simpl in H; invc H; [done|].
  match goal with H : in_lang _ (RChar _) _ |- _ => invc H end.
  simpl. f_equal; [by apply canonicalize_to_lower|]. auto.
Qed.

(** A case-sensitive literal matches only itself. *)
Lemma in_lang_lit_cs kw w : in_lang false (lit kw) w -> w = kw.
Proof.
  revert w. induction kw as [|a kw IH]; intros w H; simpl in H; invc H; [done|].
  match goal with H : in_lang _ (RChar _) _ |- _ => invc H end.
  match goal with H : canonicalize false _ = _ |- _ =>
    apply (f_equal Ascii.ascii_of_N) in H; unfold canonicalize, code in H;
    rewrite !Ascii.ascii_N_embedding in H end.
  subst. simpl. f_equal. auto.
Qed.

Lemma in_lang_words_ci ws w :
  ws <> [] -> in_lang true (words ws) w -> toLowerCase w ∈ map toLowerCase ws.
Proof.
  intros Hne H. apply in_lang_alts in H as (r & Hin & L); [|by destruct ws].
  apply in_map_iff in Hin as (kw & <- & Hkw). apply in_lang_lit_ci in L.
  rewrite L. apply list_elem_of_In, in_map, Hkw.
Qed.

Lemma in_lang_words_cs ws w : ws <> [] -> in_lang false (words ws) w -> w ∈ ws.
Proof.
  intros Hne H. apply in_lang_alts in H as (r & Hin & L); [|by destruct ws].
  apply in_map_iff in Hin as (kw & <- & Hkw). apply in_lang_lit_cs in L.
  subst. by apply list_elem_of_In.
Qed.

Lemma caps_ok_lookup Q c n w : caps_ok Q c -> cap_lookup n c = Some w -> Q n w.
Proof.
  induction c as [|[m w'] c IH]; intros Hc H; [done|]. invc Hc. simpl in H.
  destruct (Nat.eqb_spec m n); [invc H|]; auto.
Qed.

(** A capture of a match found by [str.match(R)] satisfies what the
    pattern's groups guarantee. *)
Lemma str_match_group Q R str m n w :
  groups_ok (ignoreCase R) Q (source R) -> str_match str R = Some m ->
  n <> 0 -> group m n = Some w -> Q n w.
Proof.
  unfold str_match, group. intros Hg H Hn Hw.
  destruct (exec R str) as [o R'] eqn:E. simpl in H. subst o.
  destruct (exec_sound _ _ _ _ _ Hg E) as ((pre & post & _ & _ & _ & _ & C) & _ & _).
  apply Nat.eqb_neq in Hn. rewrite Hn in Hw. by eapply caps_ok_lookup.
Qed.

(** ** Leftmost and ordered matches *)

(** [search] stops at the first position where the matcher succeeds. *)
Lemma search_first ic r s i m :
  search ic r s i = Some m ->
  i <= mr_index m /\ forall j, i <= j < mr_index m -> match_here ic r (str_drop (j - i) s) = None.
Proof.
  revert i. induction s as [|a s IH]; intros i H; simpl in H;
    destruct (match_here ic r _) as [[s1 c1]|] eqn:E.
  - invc H. simpl. split; [lia|]. intros; lia.
  - done.
  - invc H. simpl. split; [lia|]. intros; lia.
  - destruct (IH (S i) H) as [Hle Hnone]. split; [lia|]. intros j Hj.
    destruct (Nat.eq_dec j i) as [->|Hne]; [by rewrite Nat.sub_diag|].
    replace (j - i) with (S (j - S i)) by lia. simpl. apply Hnone. lia.
Qed.

Lemma str_drop_drop n k s : str_drop n (str_drop k s) = str_drop (k + n) s.
Proof. revert s. induction k as [|k IH]; intros [|a s]; simpl; auto. by destruct n. Qed.

(** C26: [exec] returns the leftmost match: the pattern matches at no
    position between [lastIndex] (0 for a non-global object) and the
    match's index. *)
Theorem exec_leftmost R str m R' :
  exec R str = (Some m, R') ->
  forall j, (if global R then lastIndex R else 0) <= j < mr_index m ->
  match_here (ignoreCase R) (source R) (str_drop j str) = None.
Proof.
  unfold exec. set (li := if global R then lastIndex R else 0).
  destruct (Nat.ltb _ _); [by intros [=]|].
  destruct (search _ _ _ _) as [m'|] eqn:E; [|by intros [=]]. intros [= <- _] j Hj.
  destruct (search_first _ _ _ _ _ E) as [_ Hnone].
  specialize (Hnone j Hj). rewrite str_drop_drop in Hnone.
  by replace (li + (j - li)) with j in Hnone by lia.
Qed.

Lemma exec_leftmost_witness :
  let R := regexp_literal (RSeq (lit "ab") (RGroup 1 (RRepeat (CharSet false ["b"%char]) 1 None)))
             true false in
  exists m R', exec R "xxabbbab" = (Some m, R') /\ mr_index m = 2 /\
    forall j, 0 <= j < mr_index m -> match_here false (source R) (str_drop j "xxabbbab") = None.
Proof.
  intros R. destruct (exec R "xxabbbab") as [[m|] R'] eqn:E; [|vm_compute in E; discriminate].
  exists m, R'. split; [reflexivity|]. split; [vm_compute in E; injection E as <- _; reflexivity|].
  exact (exec_leftmost R _ m R' E).
Defined.



End Regex.
