(* ===== verification/RegexComplete.v ===== *)
(** * Completeness of the regex matcher

    [Regex] proves the matcher sound: what it returns is a word of the
    pattern's language. This file proves the converse. When a word of the
    language sits at the front of the input and the continuation accepts
    the rest, the backtracking matcher does not fail. Consequences:
    - the matcher run with a continuation that accepts only the end of the
      input accepts exactly the language, so [in_lang] is decidable;
    - [search] and [exec] find a match whenever the subject contains a word
      of the language at or after [lastIndex], at that word's position or
      to its left;
    - a capture group that every match of the pattern passes through is
      defined in the result, so [match[n]] is a string, not [undefined];
    - every capture is a substring of the subject string. *)

From S2P Require Import Prelude JsString Regex.

Module RegexComplete.
Import JsString Regex.

(** A continuation that succeeds on [rest] whatever the captures. *)
Definition accepts (k : cont) (rest : string) : Prop := forall c, k rest c <> None.

(** The continuation that accepts only the end of the input. *)
Definition at_end : cont :=
  fun s c => if String.eqb s "" then Some (s, c) else None.

(** [r] matches all of [w]: the matcher run to the end of the input. *)
Definition full_match (ic : bool) (r : regex) (w : string) : bool :=
  match matcher ic r w [] at_end with Some _ => true | None => false end.

(** The groups that every match of [r] passes through. *)
Fixpoint must_groups (r : regex) : list nat :=
  match r with
  | RGroup n r1 => n :: must_groups r1
  | RSeq r1 r2 => must_groups r1 ++ must_groups r2
  | _ => []
  end.

(** No optional part of [r] holds a group, so the matcher never clears a
    capture ([clear_groups] has nothing to clear). *)
Fixpoint opt_groups_free (r : regex) : bool :=
  match r with
  | ROpt r1 => match groups_of r1 with [] => opt_groups_free r1 | _ => false end
  | RSeq r1 r2 | RAlt r1 r2 => opt_groups_free r1 && opt_groups_free r2
  | RGroup _ r1 => opt_groups_free r1
  | _ => true
  end.

(** ** Completeness *)

Lemma rep_match_complete ic cs w : forall mn mx rest c k,
  rep_ok ic cs mn mx w -> accepts k rest -> rep_match ic cs mn mx (w +:+ rest) c k <> None.
Proof.
  induction w as [|a w IH]; intros mn mx rest c k (Hall & Hmn & Hmx) Hk.
  - simpl in Hmn. assert (mn = 0) as -> by lia. simpl.
    destruct rest as [|b rest]; simpl; [apply Hk|].
    repeat case_match; first [done | apply Hk].
  - simpl in Hall. apply andb_true_iff in Hall as [Ha Hall].
    assert (Hmr : max_reached mx = false).
    { destruct mx as [[|M]|]; [|done|done]. specialize (Hmx 0 eq_refl). simpl in Hmx. lia. }
    assert (Hstep : rep_match ic cs (Nat.pred mn) (Nat.pred <$> mx) (w +:+ rest) c k <> None).
    { apply IH; [|exact Hk]. repeat split; [done| simpl in Hmn; lia|].
      intros M HM. destruct mx as [M'|]; [|done]. simpl in HM. injection HM as <-.
      specialize (Hmx M' eq_refl). simpl in Hmx. lia. }
    simpl. rewrite Hmr, Ha. destruct mn; [|exact Hstep].
    by destruct (rep_match _ _ _ _ _ _ _).
Qed.

(** Completeness of every matcher: a word of the language followed by
    input the continuation accepts is never rejected. *)
Lemma matcher_complete ic r w : in_lang ic r w ->
  forall rest c k, accepts k rest -> matcher ic r (w +:+ rest) c k <> None.
Proof.
  induction 1 as [|a b Hab|cs b Hb|r1 r2 w1 w2 _ IH1 _ IH2|r1 r2 w _ IH|r1 r2 w _ IH
                 |cs mn mx w Hw|r|r w _ IH|n r w _ IH];
    intros rest c k Hk; simpl.
  - apply Hk.
  - rewrite Hab, N.eqb_refl. apply Hk.
  - rewrite Hb. apply Hk.
  - rewrite <- string_app_assoc. apply IH1. intros c1. apply IH2, Hk.
  - destruct (matcher ic r1 _ c k) eqn:E; [done|]. exfalso. exact (IH rest c k Hk E).
  - destruct (matcher ic r1 _ c k); [done|]. by apply IH.
  - by apply rep_match_complete.
  - destruct (matcher ic r _ _ _); [done|]. apply Hk.
  - destruct (matcher ic r _ _ _) eqn:E; [done|].
    destruct (decide (w = "")) as [->|Hne]; [apply Hk|].
    exfalso. revert E. apply IH. intros c1.
    rewrite string_length_app. destruct w as [|a w]; [done|]. simpl.
    destruct (Nat.eqb_spec (String.length rest) (S (String.length w + String.length rest)));
      [lia|apply Hk].
  - apply IH. intros c1. apply Hk.
Qed.

(** ** [in_lang] is decidable *)

Lemma full_match_complete ic r w : in_lang ic r w -> full_match ic r w = true.
Proof.
  intros L. unfold full_match. rewrite <- (string_app_nil_r w).
  destruct (matcher ic r (w +:+ "") [] at_end) eqn:E; [done|].
  exfalso. revert E. apply matcher_complete; [done|]. by intros c.
Qed.

Lemma full_match_sound ic r w : full_match ic r w = true -> in_lang ic r w.
Proof.
  unfold full_match. destruct (matcher ic r w [] at_end) as [x|] eqn:E; [|done]. intros _.
  destruct (matcher_sound ic (fun _ _ => True) r (groups_ok_True _ _) w [] at_end x
              (Forall_nil_2 _) E) as (p & s' & c' & -> & L & _ & Hk).
  unfold at_end in Hk. destruct (String.eqb_spec s' ""); [|done]. subst.
  by rewrite string_app_nil_r.
Qed.

(** C30: The backtracking matcher of ECMA-262 22.2.2, run to the end of
    the input, accepts exactly the words of the pattern's language:
    alternation falls back to the next branch, greedy repetition gives
    back characters, and optional groups may be skipped. *)
Theorem full_match_iff ic r w : full_match ic r w = true <-> in_lang ic r w.
Proof. split; [apply full_match_sound|apply full_match_complete]. Qed.

#[export] Instance in_lang_dec ic r w : Decision (in_lang ic r w).
Proof.
  destruct (full_match ic r w) eqn:E.
  - left. by apply full_match_sound.
  - right. intros L. apply full_match_complete in L. congruence.
Defined.

(** ** [search] and [exec] find a match *)

Lemma match_here_complete ic r w rest :
  in_lang ic r w -> match_here ic r (w +:+ rest) <> None.
Proof. intros L. apply matcher_complete; [done|]. by intros c. Qed.

Lemma search_unfold ic r s i :
  search ic r s i =
  match match_here ic r s with
  | Some (s1, c1) =>
      Some (MatchResult i (i + (String.length s - String.length s1)) (consumed s s1) c1)
  | None => match s with EmptyString => None | String _ s' => search ic r s' (S i) end
  end.
Proof. by destruct s. Qed.

(** [search] from index [i] finds a match no later than a word of the
    language that starts [length pre] characters further. *)
Lemma search_complete ic r pre w post i :
  in_lang ic r w ->
  exists m, search ic r (pre +:+ w +:+ post) i = Some m /\ mr_index m <= i + String.length pre.
Proof.
  intros L. revert i. induction pre as [|a pre IH]; intros i; rewrite search_unfold.
  - destruct (match_here ic r _) as [[s1 c1]|] eqn:E.
    + eexists. split; [done|]. simpl. lia.
    + exfalso. exact (match_here_complete ic r w post L E).
  - destruct (match_here ic r _) as [[s1 c1]|].
    + eexists. split; [done|]. simpl. lia.
    + destruct (IH (S i)) as (m & Hm & Hi). exists m. simpl. split; [done|lia].
Qed.

(** [exec] finds a match when the subject holds a word of the language
    at or after the index it starts from, and the match is no later than
    that word. *)
Lemma exec_complete R pre w post :
  in_lang (ignoreCase R) (source R) w ->
  (if global R then lastIndex R else 0) <= String.length pre ->
  exists m R', exec R (pre +:+ w +:+ post) = (Some m, R') /\ mr_index m <= String.length pre.
Proof.
  intros L Hli. unfold exec. set (li := if global R then lastIndex R else 0) in *.
  destruct (Nat.ltb_spec (String.length (pre +:+ w +:+ post)) li) as [Hlt|_].
  { rewrite !string_length_app in Hlt. lia. }
  rewrite str_drop_app_le by done.
  destruct (search_complete (ignoreCase R) (source R) (str_drop li pre) w post li L)
    as (m & -> & Hi).
  eexists _, _. split; [reflexivity|]. rewrite str_length_drop in Hi. lia.
Qed.

(** ** Captures that every match sets *)

Lemma cap_lookup_app_defined n e c :
  is_Some (cap_lookup n c) -> is_Some (cap_lookup n (e ++ c)).
Proof.
  induction e as [|[m w] e IH]; [done|]. simpl. intros H.
  destruct (Nat.eqb m n); [by eexists|]. by apply IH.
Qed.

Lemma clear_groups_nil c : clear_groups [] c = c.
Proof. induction c as [|p c IH]; [done|]. simpl. by rewrite IH. Qed.

Lemma rep_match_cont ic cs s : forall mn mx c k x,
  rep_match ic cs mn mx s c k = Some x -> exists s1, k s1 c = Some x.
Proof.
  intros mn mx c k x H.
  destruct (rep_match_sound _ _ _ _ _ _ _ _ H) as (_ & s1 & _ & _ & Hk). by exists s1.
Qed.

(** A successful matcher passed to its continuation the captures it was
    given with entries added in front, among them every group that [r]
    must pass through. *)
Lemma matcher_captures ic r : opt_groups_free r = true ->
  forall s c k x, matcher ic r s c k = Some x ->
  exists s1 e, k s1 (e ++ c) = Some x /\
    forall n, n ∈ must_groups r -> is_Some (cap_lookup n (e ++ c)).
Proof.
  induction r as [|a|cs|r1 IH1 r2 IH2|r1 IH1 r2 IH2|cs mn mx|r1 IH1|n r1 IH1];
    simpl; intros Hf s c k x H.
  - exists s, []. split; [done|set_solver].
  - destruct s as [|b s]; [done|]. destruct (N.eqb _ _); [|done].
    exists s, []. split; [done|set_solver].
  - destruct s as [|b s]; [done|]. destruct (cs_matches ic cs b); [|done].
    exists s, []. split; [done|set_solver].
  - apply andb_true_iff in Hf as [Hf1 Hf2].
    destruct (IH1 Hf1 _ _ _ _ H) as (s1 & e1 & H1 & M1).
    destruct (IH2 Hf2 _ _ _ _ H1) as (s2 & e2 & H2 & M2).
    exists s2, (e2 ++ e1). rewrite <- app_assoc. split; [done|].
    intros n' Hn. apply elem_of_app in Hn as [Hn|Hn]; [|by apply M2].
    by apply cap_lookup_app_defined, M1.
  - apply andb_true_iff in Hf as [Hf1 Hf2].
    destruct (matcher ic r1 s c k) eqn:E.
    + invc H. destruct (IH1 Hf1 _ _ _ _ E) as (s1 & e & Hk & _). exists s1, e. set_solver.
    + destruct (IH2 Hf2 _ _ _ _ H) as (s1 & e & Hk & _). exists s1, e. set_solver.
  - destruct (rep_match_cont _ _ _ _ _ _ _ _ H) as [s1 Hk]. exists s1, []. set_solver.
  - destruct (groups_of r1) eqn:G; [|done]. rewrite clear_groups_nil in H.
    destruct (matcher ic r1 s c _) eqn:E.
    + invc H. destruct (IH1 Hf _ _ _ _ E) as (s1 & e & Hk & _).
      cbv beta in Hk. destruct (String.length s1 =? String.length s); [done|].
      exists s1, e. set_solver.
    + exists s, []. set_solver.
  - destruct (IH1 Hf _ _ _ _ H) as (s1 & e & Hk & M).
    exists s1, ((n, consumed s s1) :: e). split; [done|].
    intros n' Hn. apply elem_of_cons in Hn as [->|Hn].
    + simpl. rewrite Nat.eqb_refl. by eexists.
    + by apply (cap_lookup_app_defined _ [_]), M.
Qed.

Lemma search_must_groups ic r s i m n :
  opt_groups_free r = true -> n ∈ must_groups r ->
  search ic r s i = Some m -> is_Some (cap_lookup n (mr_captures m)).
Proof.
  intros Hf Hn. revert i. induction s as [|a s IH]; intros i E; rewrite search_unfold in E;
    destruct (match_here _ _ _) as [[s1 c1]|] eqn:H; try done;
    try (injection E as <-; simpl; unfold match_here in H;
         destruct (matcher_captures _ _ Hf _ _ _ _ H) as (s2 & e & Hk & M);
         injection Hk as _ <-; by apply M).
  exact (IH _ E).
Qed.

(** A match of [exec] defines every group its pattern must pass through. *)
Lemma exec_must_groups R str m R' n :
  opt_groups_free (source R) = true -> n ∈ must_groups (source R) ->
  exec R str = (Some m, R') -> is_Some (cap_lookup n (mr_captures m)).
Proof.
  intros Hf Hn. unfold exec. destruct (Nat.ltb _ _); [by intros [=]|].
  destruct (search _ _ _ _) as [m'|] eqn:E; [|by intros [=]]. intros [= <- _].
  by apply (search_must_groups _ _ _ _ _ _ Hf Hn E).
Qed.

(** ** [exec] fails exactly when no word of the language occurs *)

(** [exec] returns [null] exactly when no word of the pattern's language
    starts at or after the index it searches from. *)
Lemma exec_none_iff R str :
  (exec R str).1 = None <->
  forall pre w post, str = pre +:+ w +:+ post ->
    (if global R then lastIndex R else 0) <= String.length pre ->
    ~ in_lang (ignoreCase R) (source R) w.
Proof.
  split.
  - intros Hn pre w post -> Hli L.
    destruct (exec_complete R pre w post L Hli) as (m & R' & E & _). by rewrite E in Hn.
  - intros Hno. destruct (exec R str) as [[m|] R'] eqn:E; [|done]. exfalso.
    destruct (exec_sound (fun _ _ => True) R str m R' (groups_ok_True _ _) E)
      as ((pre & post & Hs & Hpre & _ & L & _) & Hli & _).
    apply (Hno pre (mr_text m) post Hs); [lia|done].
Qed.

(** ** Captures are substrings of the subject *)

Definition caps_in (s : string) (c : captures) : Prop := Forall (fun p => infix_of p.2 s) c.

Lemma caps_in_suffix s t c : caps_in s c -> suffix_of s t -> caps_in t c.
Proof. intros H Hst. eapply Forall_impl; [exact H|]. intros p Hp. exact (infix_of_suffix _ _ _ Hp Hst). Qed.

Lemma caps_in_clear s ns c : caps_in s c -> caps_in s (clear_groups ns c).
Proof.
  unfold caps_in, clear_groups. induction c as [|p c IH]; intros H; [done|].
  invc H. simpl. destruct (negb _); [constructor|]; auto.
Qed.

(** Every capture a matcher adds is text of the input, so a suffix of the
    subject keeps the captures inside the subject. *)
Lemma matcher_caps_in ic r : forall top s c k x,
  suffix_of s top -> caps_in top c -> matcher ic r s c k = Some x ->
  exists s1 c1, k s1 c1 = Some x /\ suffix_of s1 s /\ caps_in top c1.
Proof.
  induction r as [|a|cs|r1 IH1 r2 IH2|r1 IH1 r2 IH2|cs mn mx|r1 IH1|n r1 IH1];
    simpl; intros top s c k x Hs Hc H.
  - exists s, c. eauto with js.
  - destruct s as [|b s]; [done|]. destruct (N.eqb _ _); [|done].
    exists s, c. eauto with js.
  - destruct s as [|b s]; [done|]. destruct (cs_matches ic cs b); [|done].
    exists s, c. eauto with js.
  - destruct (IH1 _ _ _ _ _ Hs Hc H) as (s1 & c1 & H1 & Hs1 & Hc1).
    destruct (IH2 _ _ _ _ _ (suffix_of_trans _ _ _ Hs1 Hs) Hc1 H1) as (s2 & c2 & H2 & Hs2 & Hc2).
    exists s2, c2. eauto with js.
  - destruct (matcher ic r1 s c k) eqn:E.
    + invc H. exact (IH1 _ _ _ _ _ Hs Hc E).
    + exact (IH2 _ _ _ _ _ Hs Hc H).
  - destruct (rep_match_sound _ _ _ _ _ _ _ _ H) as (p & s' & -> & _ & Hk).
    exists s', c. split; [done|]. split; [by exists p|done].
  - destruct (matcher ic r1 s _ _) eqn:E.
    + invc H. destruct (IH1 _ _ _ _ _ Hs (caps_in_clear _ _ _ Hc) E) as (s1 & c1 & Hk & Hs1 & Hc1).
      cbv beta in Hk. destruct (String.length s1 =? String.length s); [done|]. eauto.
    + exists s, c. eauto with js.
  - destruct (IH1 _ _ _ _ _ Hs Hc H) as (s1 & c1 & Hk & Hs1 & Hc1).
    exists s1, ((n, consumed s s1) :: c1). split; [done|]. split; [done|].
    constructor; [|done]. destruct Hs1 as [p ->]. rewrite consumed_app.
    apply (infix_of_suffix _ (p +:+ s1)); [|done]. exists "", s1. done.
Qed.

Lemma search_caps_in ic r s i m :
  search ic r s i = Some m -> caps_in s (mr_captures m).
Proof.
  revert i. induction s as [|a s IH]; intros i E; rewrite search_unfold in E;
    destruct (match_here ic r _) as [[s1 c1]|] eqn:H; try done;
    try (injection E as <-; simpl; unfold match_here in H;
         destruct (matcher_caps_in _ _ _ _ _ _ _ (suffix_of_refl _) (Forall_nil_2 _) H)
           as (s2 & c2 & Hk & _ & Hc); by injection Hk as _ <-).
  apply (caps_in_suffix s); [exact (IH _ E)|]. eauto with js.
Qed.

(** Every capture of a match of [exec] is a substring of the subject. *)
Lemma exec_caps_in R str m R' :
  exec R str = (Some m, R') -> caps_in str (mr_captures m).
Proof.
  unfold exec. destruct (Nat.ltb _ _); [by intros [=]|].
  destruct (search _ _ _ _) as [m'|] eqn:E; [|by intros [=]]. intros [= <- _].
  apply (caps_in_suffix _ _ _ (search_caps_in _ _ _ _ _ E)).
  eexists. symmetry. apply str_take_drop.
Qed.

Lemma exec_loop_caps_in fuel R str ms R' :
  exec_loop fuel R str = Some (ms, R') -> Forall (fun m => caps_in str (mr_captures m)) ms.
Proof.
  revert R ms R'. induction fuel as [|fuel IH]; intros R ms R' H; simpl in H; [done|].
  destruct (exec R str) as [[m|] R1] eqn:E.
  - destruct (exec_loop fuel R1 str) as [[ms1 R2]|] eqn:E1; [|done]. invc H.
    constructor; [exact (exec_caps_in _ _ _ _ E)|exact (IH _ _ _ E1)].
  - invc H. constructor.
Qed.

End RegexComplete.
