(* ===== verification/ExecLoop.v ===== *)
(** * The [exec] loop as a transition system

    [while ((match = pattern.exec(transcript)) !== null) { ... }]
    (sampleService.ts, line 25) is a small state machine. Its state is the
    regex object with its [lastIndex], the matches seen so far, and
    whether the loop has stopped. One transition is one call of [exec]:
    - a match is recorded and the loop goes on;
    - [null] stops the loop.

    [Regex.exec_loop] runs the same loop with fuel. This file proves the
    safety invariant of the machine by rule induction: every reachable
    state keeps the object's pattern and flags, its matches are sound,
    ordered and non-overlapping, [lastIndex] sits at the end of the last
    match while the loop runs, and it is 0 once the loop has stopped. *)

From S2P Require Import Prelude JsString Regex.

Module ExecLoop.
Import JsString Regex.

Record loop_state := LoopState {
  ls_regex : RegExp;
  ls_matches : list match_result;
  ls_done : bool
}.

(** One evaluation of the loop condition. *)
Inductive loop_step (str : string) : loop_state -> loop_state -> Prop :=
  | step_match R ms m R' :
      exec R str = (Some m, R') ->
      loop_step str (LoopState R ms false) (LoopState R' (ms ++ [m]) false)
  | step_null R ms R' :
      exec R str = (None, R') ->
      loop_step str (LoopState R ms false) (LoopState R' ms true).

Definition loop_init (R : RegExp) : loop_state := LoopState R [] false.

(** The matches start at [i], each at or after the end of the one
    before. *)
Fixpoint ordered_from (i : nat) (ms : list match_result) : Prop :=
  match ms with
  | [] => True
  | m :: ms' => i <= mr_index m /\ ordered_from (mr_end m) ms'
  end.

(** The end of the last match, or [i] when there is none. *)
Definition last_end (i : nat) (ms : list match_result) : nat :=
  fold_left (fun _ m => mr_end m) ms i.

(** The invariant of the loop of a global object [R0] on [str]. *)
Definition loop_inv (str : string) (R0 : RegExp) (s : loop_state) : Prop :=
  source (ls_regex s) = source R0 /\ global (ls_regex s) = global R0 /\
  ignoreCase (ls_regex s) = ignoreCase R0 /\
  Forall (match_ok (ignoreCase R0) (fun _ _ => True) (source R0) str) (ls_matches s) /\
  ordered_from (lastIndex R0) (ls_matches s) /\
  lastIndex (ls_regex s) = (if ls_done s then 0 else last_end (lastIndex R0) (ls_matches s)).

(** ** Lemmas *)

Lemma ordered_from_app i ms m :
  ordered_from i ms -> last_end i ms <= mr_index m -> ordered_from i (ms ++ [m]).
Proof.
  unfold last_end. revert i. induction ms as [|m' ms IH]; intros i H Hle; simpl in *.
  - done.
  - destruct H as [Hi H]. split; [done|]. by apply IH.
Qed.

Lemma last_end_app i ms m : last_end i (ms ++ [m]) = mr_end m.
Proof. unfold last_end. by rewrite fold_left_app. Qed.

(** One transition keeps the invariant. *)
Lemma loop_inv_step str R0 s s' :
  global R0 = true -> loop_inv str R0 s -> loop_step str s s' -> loop_inv str R0 s'.
Proof.
  intros Hg (Hs & Hgl & Hic & Hok & Hord & Hli) Hstep.
  destruct Hstep as [R ms m R' E|R ms R' E]; simpl in *.
  - destruct (exec_sound (fun _ _ => True) R str m R' (groups_ok_True _ _) E)
      as (Hm & Hidx & HR'). rewrite Hgl, Hg in Hidx, HR'. subst R'. simpl.
    repeat split; try done.
    + apply Forall_app. split; [done|]. constructor; [|done]. by rewrite <- Hs, <- Hic.
    + apply ordered_from_app; [done|lia].
    + cbn -[last_end]. by rewrite last_end_app.
  - rewrite (exec_none _ _ _ E), Hgl, Hg. simpl. by repeat split.
Qed.

Lemma loop_inv_init str R : loop_inv str R (loop_init R).
Proof. unfold loop_init. repeat split; simpl; first [done | constructor]. Qed.

Lemma loop_inv_rtc str R0 s s' :
  global R0 = true -> rtc (loop_step str) s s' -> loop_inv str R0 s -> loop_inv str R0 s'.
Proof.
  intros Hg H. induction H as [|x y z Hxy _ IH]; [done|]. intros Hx.
  apply IH. exact (loop_inv_step _ _ _ _ Hg Hx Hxy).
Qed.

(** ** Theorems *)

(** C17: Safety: every state the loop of a global pattern reaches keeps
    the pattern and flags, holds sound matches in order without
    overlap, and has [lastIndex] at the end of the last match while the
    loop runs and 0 once it has stopped. *)
Theorem loop_safety str R s :
  global R = true -> rtc (loop_step str) (loop_init R) s -> loop_inv str R s.
Proof.
  intros Hg Hr. apply (loop_inv_rtc _ _ _ _ Hg Hr), loop_inv_init.
Qed.

Lemma loop_safety_witness :
  let R := regexp_literal (lit "ab") true false in
  let s := LoopState (set_lastIndex R 2) [MatchResult 0 2 "ab" []] false in
  global R = true /\ rtc (loop_step "abab") (loop_init R) s /\ loop_inv "abab" R s.
Proof.
  intros R s. assert (Hg : global R = true) by reflexivity.
  assert (Hr : rtc (loop_step "abab") (loop_init R) s).
  { eapply rtc_l; [|apply rtc_refl]. unfold loop_init, s.
    change [MatchResult 0 2 "ab" []] with ([] ++ [MatchResult 0 2 "ab" []]).
    apply step_match. vm_compute. reflexivity. }
  split; [exact Hg|]. split; [exact Hr|]. exact (loop_safety _ _ _ Hg Hr).
Defined.

End ExecLoop.
