(* ===== verification/JsObject.v ===== *)
(** * The plain object [tagFrequencies]

    [processEntries] counts tags in [const tagFrequencies: Record<string,
    number> = {}], an ordinary object whose prototype is
    [Object.prototype]. Reading [tagFrequencies[tag]] therefore finds the
    inherited members of [Object.prototype] for a tag such as
    ["toString"] or ["constructor"]. Writing [tagFrequencies["__proto__"]]
    calls the inherited [__proto__] setter instead of creating a property.
    This file models the object's own properties as a [gmap], its
    [[[Get]]] and [[[Set]]] with that prototype, and the JS operators [||]
    and [+ 1] on the values involved. *)

From S2P Require Import Prelude JsString.
From Stdlib Require Import ZArith.

Module JsObject.
Import JsString.

(** The JS values that can reach [tagFrequencies[tag] || 0] and [+ 1]. *)
Inductive js_value :=
  | JSUndefined
  | JSNaN
  | JSNumber (n : Z)
  | JSString (s : string)
  | JSFunction (name : string)     (** a built-in function, by its [name] *)
  | JSObjectPrototype.             (** the object [Object.prototype] *)

#[export] Instance js_value_eq_dec : EqDecision js_value.
Proof. solve_decision. Defined.

(** ToBoolean. *)
Definition truthy (v : js_value) : bool :=
  match v with
  | JSUndefined | JSNaN => false
  | JSNumber n => negb (Z.eqb n 0)
  | JSString s => negb (String.eqb s "")
  | JSFunction _ | JSObjectPrototype => true
  end.

(** [a || b]. *)
Definition js_or (a b : js_value) : js_value := if truthy a then a else b.

(** ToString of ToPrimitive for the values that are not primitives. A
    built-in function prints as V8's [NativeFunction] text, and
    [Object.prototype] prints through [Object.prototype.toString]. *)
Definition object_to_string (v : js_value) : string :=
  match v with
  | JSFunction name => "function " +:+ name +:+ "() { [native code] }"
  | _ => "[object Object]"
  end.

(** [v + 1] (ApplyStringOrNumericBinaryOperator): string concatenation
    as soon as the primitive of [v] is a string, numeric addition
    otherwise. *)
Definition add_one (v : js_value) : js_value :=
  match v with
  | JSUndefined | JSNaN => JSNaN
  | JSNumber n => JSNumber (n + 1)
  | JSString s => JSString (s +:+ "1")
  | JSFunction _ | JSObjectPrototype => JSString (object_to_string v +:+ "1")
  end.

(** The data properties of [Object.prototype], all writable methods. *)
Definition object_prototype_methods : list string :=
  ["constructor"; "__defineGetter__"; "__defineSetter__"; "hasOwnProperty";
   "__lookupGetter__"; "__lookupSetter__"; "isPrototypeOf";
   "propertyIsEnumerable"; "toString"; "valueOf"; "toLocaleString"].

(** The inherited value of a key. [constructor] is the function [Object].
    The accessor [__proto__] returns the object's prototype, which is
    [Object.prototype]. *)
Definition proto_get (key : string) : js_value :=
  if decide (key = "__proto__") then JSObjectPrototype
  else if decide (key = "constructor") then JSFunction "Object"
  else if decide (key ∈ object_prototype_methods) then JSFunction key
  else JSUndefined.

(** [o[key]] ([[Get]]): an own property, else the prototype's. *)
Definition get (o : gmap string js_value) (key : string) : js_value :=
  match o !! key with
  | Some v => v
  | None => proto_get key
  end.

(** [o[key] = v] ([[Set]], OrdinarySet). An own property is overwritten.
    An inherited data property is writable, so an own property is created
    on [o]. The inherited accessor [__proto__] runs its setter, which
    ignores a value that is not an object. The only object value here is
    [Object.prototype], already the prototype of [o], so [o] is unchanged. *)
Definition set (o : gmap string js_value) (key : string) (v : js_value)
    : gmap string js_value :=
  match o !! key with
  | Some _ => <[key := v]> o
  | None => if decide (key = "__proto__") then o else <[key := v]> o
  end.

(** A key that [Object.prototype] does not define: the object behaves as
    a dictionary on it. *)
Definition plain_key (key : string) : Prop :=
  key <> "__proto__" /\ key ∉ object_prototype_methods.

#[export] Instance plain_key_dec key : Decision (plain_key key).
Proof. unfold plain_key. apply _. Defined.

(** ** Lemmas *)

Lemma proto_get_plain key : plain_key key -> proto_get key = JSUndefined.
Proof.
  intros [H1 H2]. unfold proto_get.
  assert (key <> "constructor")
    by (intros ->; apply H2; unfold object_prototype_methods; set_solver).
  by rewrite !decide_False.
Qed.

Lemma get_plain o key : plain_key key -> get o key = default JSUndefined (o !! key).
Proof. intros H. unfold get. destruct (o !! key); [done|]. by apply proto_get_plain. Qed.

Lemma get_own o key v : o !! key = Some v -> get o key = v.
Proof. intros H. unfold get. by rewrite H. Qed.

Lemma get_absent o key : plain_key key -> o !! key = None -> get o key = JSUndefined.
Proof. intros Hk H. unfold get. rewrite H. by apply proto_get_plain. Qed.

Lemma lookup_set_plain o key v : plain_key key -> set o key v !! key = Some v.
Proof.
  intros [H1 _]. unfold set. destruct (o !! key); [|case_decide; [done|]];
    apply lookup_insert_eq.
Qed.

Lemma lookup_set_ne o key key' v : key <> key' -> set o key v !! key' = o !! key'.
Proof.
  intros Hne. unfold set.
  destruct (o !! key); [|case_decide; [done|]]; by apply lookup_insert_ne.
Qed.

(** Writing [__proto__] when it is not an own property changes nothing. *)
Lemma set_proto o v : o !! "__proto__" = None -> set o "__proto__" v = o.
Proof. intros H. unfold set. rewrite H. by case_decide. Qed.

End JsObject.
