(* ===== verification/JsNumber.v ===== *)
(** * JavaScript numbers for the confidence score

    [calculateConfidence] computes with JS numbers: it divides by the
    transcript length, subtracts, multiplies, adds and takes [Math.min].
    A division by zero gives [NaN] or an infinity, so a number here is a
    rational, [+Infinity], [-Infinity] or [NaN]. The operations follow
    IEEE 754 on these values, without rounding: a finite result is the
    exact rational. Zeros are unsigned and taken as [+0]. The score never
    divides by a negative zero. *)

From S2P Require Import Prelude.
From Stdlib Require Import ZArith QArith Qminmax.

Module JsNumber.

Inductive number :=
  | Num (q : Q)
  | PosInf
  | NegInf
  | NaN.

Definition of_nat (n : nat) : number := Num (inject_Z (Z.of_nat n)).
Definition of_Z (z : Z) : number := Num (inject_Z z).

Definition neg (x : number) : number :=
  match x with
  | Num a => Num (- a)
  | PosInf => NegInf
  | NegInf => PosInf
  | NaN => NaN
  end.

Definition add (x y : number) : number :=
  match x, y with
  | NaN, _ | _, NaN => NaN
  | PosInf, NegInf | NegInf, PosInf => NaN
  | PosInf, _ | _, PosInf => PosInf
  | NegInf, _ | _, NegInf => NegInf
  | Num a, Num b => Num (a + b)
  end.

Definition sub (x y : number) : number := add x (neg y).

(** An infinity with the sign of [a], or [NaN] for a zero [a]. *)
Definition scale_inf (a : Q) (inf : number) : number :=
  match Qcompare a 0 with
  | Eq => NaN
  | Gt => inf
  | Lt => neg inf
  end.

Definition mul (x y : number) : number :=
  match x, y with
  | NaN, _ | _, NaN => NaN
  | Num a, Num b => Num (a * b)
  | Num a, i | i, Num a => scale_inf a i
  | PosInf, PosInf | NegInf, NegInf => PosInf
  | _, _ => NegInf
  end.

Definition div (x y : number) : number :=
  match x, y with
  | NaN, _ | _, NaN => NaN
  | Num a, Num b =>
      if Qeq_bool b 0 then scale_inf a PosInf else Num (a / b)
  | Num _, _ => Num 0
  | i, Num b => scale_inf (if Qeq_bool b 0 then 1 else b) i
  | _, _ => NaN
  end.

(** [Math.min(x, y)]. *)
Definition min (x y : number) : number :=
  match x, y with
  | NaN, _ | _, NaN => NaN
  | NegInf, _ | _, NegInf => NegInf
  | PosInf, v | v, PosInf => v
  | Num a, Num b => Num (Qmin a b)
  end.

(** A finite number in the closed interval [[0, 1]]. *)
Definition in_unit (x : number) : Prop :=
  match x with
  | Num q => (0 <= q /\ q <= 1)%Q
  | _ => False
  end.

(** ** Lemmas *)

Lemma min_one_le (x : number) :
  match x with NaN => False | NegInf => False | _ => True end ->
  exists q, min (Num 1) x = Num q /\ (q <= 1)%Q.
Proof.
  destruct x as [a| | |]; simpl; try tauto; intros _.
  - exists (Qmin 1 a). split; [done|]. apply Q.le_min_l.
  - exists 1%Q. split; [done|]. apply Qle_refl.
Qed.

Lemma min_one_range (q : Q) : (0 <= q)%Q -> in_unit (min (Num 1) (Num q)).
Proof.
  intros H. simpl. split.
  - apply Q.min_glb; [discriminate|done].
  - apply Q.le_min_l.
Qed.

End JsNumber.
