(* ===== verification/JsDouble.v ===== *)
(** * JavaScript numbers as IEEE 754 doubles

    [JsNumber] computes the confidence score in exact rationals. A JS
    number is an IEEE 754 binary64 double, and every [/], [-], [*] and
    [+] of [calculateConfidence] rounds to the nearest double, ties to
    even. This file models these operations with [SpecFloat], the
    executable specification of IEEE 754 in Rocq's core library, at
    precision 53 and maximal exponent 1024. No axiom is involved.

    - [d_of_Z] is the conversion of a JS integer ([length], [indexOf])
      to a double; [d_div], [d_sub], [d_mul] and [d_add] are the four
      operators; [math_min] is [Math.min], with its [NaN] and signed-zero
      rules; [d_val] is the value of a finite double as a rational.
    - The lemmas describe [binary_round_aux], the rounding step shared by
      all four operators. [round_aux_shape] states what it computes: a
      shift to the exponent chosen by [fexp], a rounding that adds at most
      one unit, and a second shift when that carries into a new digit.
      From it: rounding a non-negative mantissa gives [+0], [+Infinity]
      or a positive double with at most 53 bits ([round_aux_nonneg]), and
      rounding a value below [2^k] gives a finite double of at most [2^k]
      ([round_aux_le]); rounding up never passes the next power of two.
    - A JS integer below [2^53] converts exactly ([d_of_Z_exact]); the
      quotient of two such integers [i < 2^k * j] is at most [2^k]
      ([d_div_int_bounded]); [1 - x] for [x] in [[0, 1]] is in [[0, 2]];
      [Math.min(1, x)] of a non-negative [x] is in [[0, 1]]. *)

From S2P Require Import Prelude.
From Stdlib Require Import ZArith QArith Lia Floats.SpecFloat.

Module JsDouble.
Local Open Scope Z_scope.

Definition prec : Z := 53.
Definition emax : Z := 1024.
Local Abbreviation fexp := (SpecFloat.fexp prec emax).

(** A JS integer as a double: [Number(z)], rounded to nearest. *)
Definition d_of_Z (z : Z) : spec_float := binary_normalize prec emax z 0 false.
Definition d_of_nat (n : nat) : spec_float := d_of_Z (Z.of_nat n).

(** The operators [/], [-], [*] and [+] on doubles. *)
Definition d_div (x y : spec_float) : spec_float := SFdiv prec emax x y.
Definition d_sub (x y : spec_float) : spec_float := SFsub prec emax x y.
Definition d_mul (x y : spec_float) : spec_float := SFmul prec emax x y.
Definition d_add (x y : spec_float) : spec_float := SFadd prec emax x y.

(** The literal [1]. *)
Definition d_one : spec_float := d_of_Z 1.

(** [Math.min(x, y)]: [NaN] if either is [NaN], [-0] below [+0], else
    the smaller. *)
Definition math_min (x y : spec_float) : spec_float :=
  match x, y with
  | S754_nan, _ | _, S754_nan => S754_nan
  | S754_zero sx, S754_zero sy => S754_zero (sx || sy)
  | _, _ => if SFltb y x then y else x
  end.

(** The value of a finite double, [(-1)^s * m * 2^e]. *)
Definition d_val (x : spec_float) : option Q :=
  match x with
  | S754_zero _ => Some 0%Q
  | S754_finite s p e =>
      let q := if Z.leb 0 e then inject_Z (Z.pos p * 2 ^ e) else (Z.pos p # Z.to_pos (2 ^ (- e)))%Q in
      Some (if s then Qopp q else q)
  | _ => None
  end.

(** A finite double in [[0, 1]]. *)
Definition d_in_unit (x : spec_float) : Prop :=
  exists q, d_val x = Some q /\ (0 <= q <= 1)%Q.

(** A non-negative JS number: [+0], [+Infinity] or a positive finite
    double, whose mantissa has at most 53 bits. *)
Definition d_nonneg (x : spec_float) : Prop :=
  match x with
  | S754_zero false | S754_infinity false => True
  | S754_finite false p _ => Z.pos p < 2 ^ 53
  | _ => False
  end.

(** [+0], or a positive finite double of value at most [2^k]. *)
Definition d_bounded (k : Z) (x : spec_float) : Prop :=
  match x with
  | S754_zero false => True
  | S754_finite false p e => e <= k /\ Z.pos p <= 2 ^ (k - e) /\ Z.pos p < 2 ^ 53
  | _ => False
  end.

(** The result of rounding a mantissa [m] with sign [false]. *)
Definition round_result (m e : Z) : spec_float :=
  match m with
  | Z0 => S754_zero false
  | Zpos p => if Z.leb e (emax - prec) then S754_finite false p e else S754_infinity false
  | Zneg _ => S754_nan
  end.

(** ** Lemmas *)

(** [SpecFloat] computes with Corelib's integer operations; this folds
    them back to Stdlib's, which the rewriting lemmas mention. *)
Ltac fold_intdef :=
  change IntDef.Z.add with Z.add in *; change IntDef.Z.sub with Z.sub in *;
  change IntDef.Z.mul with Z.mul in *; change IntDef.Z.leb with Z.leb in *.

Lemma digits2_pos_size p : digits2_pos p = Pos.size p.
Proof. induction p; simpl; congruence. Qed.

Lemma pow_step n (p : Z) (Hn0 : 0 < n) (IH : 2 ^ (n - 1) <= p < 2 ^ n) :
  2 ^ (Z.succ n - 1) <= 2 * p < 2 ^ Z.succ n /\ 2 ^ (Z.succ n - 1) <= 2 * p + 1 < 2 ^ Z.succ n.
Proof.
  rewrite Z.pow_succ_r by lia. replace (Z.succ n - 1) with n by lia.
  assert (2 ^ n = 2 * 2 ^ (n - 1)) by (rewrite <- Z.pow_succ_r by lia; f_equal; lia).
  lia.
Qed.
Lemma size_bounds p : 2 ^ (Z.pos (Pos.size p) - 1) <= Z.pos p < 2 ^ Z.pos (Pos.size p).
Proof.
  induction p as [p IH|p IH|]; [| |simpl; lia]; cbn [Pos.size];
    rewrite Pos2Z.inj_succ; [rewrite Pos2Z.inj_xI|rewrite Pos2Z.inj_xO];
    apply (pow_step _ _ (Pos2Z.is_pos _) IH).
Qed.

Lemma Zdigits2_bounds m : 0 < m -> 2 ^ (Zdigits2 m - 1) <= m < 2 ^ Zdigits2 m.
Proof. destruct m as [|p|p]; try lia. intros _. simpl. rewrite digits2_pos_size. apply size_bounds. Qed.

Lemma Zdigits2_nonneg m : 0 <= Zdigits2 m.
Proof. destruct m; simpl; lia. Qed.

(** [m < 2^k] bounds the number of digits by [k]. *)
Lemma Zdigits2_le m k : 0 <= m < 2 ^ k -> Zdigits2 m <= k.
Proof.
  intros [H0 H1]. destruct (Z.eq_dec m 0) as [->|Hm]; [simpl; destruct (Z.le_gt_cases 0 k); [lia|rewrite Z.pow_neg_r in H1 by lia; lia]|].
  destruct (Zdigits2_bounds m) as [Hl _]; [lia|].
  destruct (Z.le_gt_cases (Zdigits2 m) k) as [|Hk]; [assumption|].
  assert (2 ^ k <= 2 ^ (Zdigits2 m - 1)) by (apply Z.pow_le_mono_r; lia). lia.
Qed.

Lemma iter_pos_iter {A} (f : A -> A) p x : iter_pos f p x = Pos.iter f x p.
Proof.
  revert x. induction p as [p IH|p IH|]; intros x; simpl; [|by rewrite !IH|done].
  rewrite !IH, !Pos.iter_swap. done.
Qed.

Lemma shr_1_m mrs : 0 <= shr_m mrs -> shr_m (shr_1 mrs) = Z.div2 (shr_m mrs).
Proof. destruct mrs as [[|[p|p|]|p] r s]; simpl; lia. Qed.

Lemma iter_shr_1_m mrs p :
  0 <= shr_m mrs -> shr_m (Pos.iter shr_1 mrs p) = shr_m mrs / 2 ^ Z.pos p.
Proof.
  intros H. induction p as [|p IH] using Pos.peano_ind.
  - simpl. rewrite shr_1_m, Z.div2_div; done.
  - assert (0 < 2 ^ Z.pos p) by (apply Z.pow_pos_nonneg; lia).
    rewrite Pos.iter_succ, shr_1_m by (rewrite IH; apply Z.div_pos; lia).
    rewrite IH, Z.div2_div, Z.div_div, Pos2Z.inj_succ, Z.pow_succ_r by lia.
    f_equal. lia.
Qed.

Lemma shr_spec mrs e n :
  0 <= shr_m mrs ->
  shr_m (fst (shr mrs e n)) = shr_m mrs / 2 ^ Z.max 0 n /\ snd (shr mrs e n) = e + Z.max 0 n.
Proof.
  intros H. destruct n as [|p|p]; simpl.
  - rewrite Z.div_1_r. lia.
  - rewrite iter_pos_iter, iter_shr_1_m by done. done.
  - rewrite Z.div_1_r. lia.
Qed.

Lemma shr_record_of_loc_m m l : shr_m (shr_record_of_loc m l) = m.
Proof. by destruct l as [|[]]. Qed.

(** [shr_fexp] drops the digits below the exponent [fexp] chooses. *)
Lemma shr_fexp_spec m e l :
  0 <= m ->
  let e' := Z.max e (fexp (Zdigits2 m + e)) in
  shr_m (fst (shr_fexp prec emax m e l)) = m / 2 ^ (e' - e) /\ snd (shr_fexp prec emax m e l) = e'.
Proof.
  intros H e'. unfold shr_fexp.
  destruct (shr_spec (shr_record_of_loc m l) e (fexp (Zdigits2 m + e) - e)) as [H1 H2];
    [by rewrite shr_record_of_loc_m|].
  rewrite H1, H2, shr_record_of_loc_m. unfold e'. split; [do 2 f_equal|]; lia.
Qed.

Lemma round_nearest_even_bounds m l : m <= round_nearest_even m l <= m + 1.
Proof. destruct l as [|[]]; simpl; try lia. destruct (Z.even m); lia. Qed.

(** What [binary_round_aux] computes: a first shift to the exponent [e1],
    rounding to nearest, which adds at most one, and a second shift
    when the rounding carried into a new digit. *)
Lemma round_aux_shape mx ex lx :
  0 <= mx ->
  let e1 := Z.max ex (fexp (Zdigits2 mx + ex)) in
  exists r, mx / 2 ^ (e1 - ex) <= r <= mx / 2 ^ (e1 - ex) + 1 /\
    let e2 := Z.max e1 (fexp (Zdigits2 r + e1)) in
    binary_round_aux prec emax false mx ex lx = round_result (r / 2 ^ (e2 - e1)) e2.
Proof.
  intros H e1. assert (He1 : Z.max ex (fexp (Zdigits2 mx + ex)) = e1) by done. clearbody e1.
  unfold binary_round_aux.
  destruct (shr_fexp_spec mx ex lx H) as [H1 H2]. rewrite He1 in H1, H2.
  destruct (shr_fexp prec emax mx ex lx) as [mrs' e'] eqn:E. simpl in H1, H2. subst e'.
  set (r := round_nearest_even (shr_m mrs') (loc_of_shr_record mrs')).
  pose proof (round_nearest_even_bounds (shr_m mrs') (loc_of_shr_record mrs')) as Hr.
  fold r in Hr. rewrite H1 in Hr. exists r. split; [done|].
  assert (0 <= e1 - ex) by lia.
  assert (0 <= mx / 2 ^ (e1 - ex)) by (apply Z.div_pos; [done|apply Z.pow_pos_nonneg; lia]).
  assert (0 <= r) by lia.
  destruct (shr_fexp_spec r e1 loc_Exact) as [H5 H6]; [done|].
  destruct (shr_fexp prec emax r e1 loc_Exact) as [mrs'' e''] eqn:E2. simpl in H5, H6. subst e''.
  rewrite H5. done.
Qed.

Lemma fexp_eq x : fexp x = Z.max (x - 53) (-1074).
Proof. reflexivity. Qed.

Lemma pow2_pos k : 0 <= k -> 0 < 2 ^ k.
Proof. intros. apply Z.pow_pos_nonneg; lia. Qed.

(** [r < 2^(k + n)] bounds [r / 2^n] by [2^k]. *)
Lemma div_pow2_lt r n k : 0 <= n -> 0 <= k -> r < 2 ^ (k + n) -> r / 2 ^ n < 2 ^ k.
Proof.
  intros Hn Hk H. apply Z.div_lt_upper_bound; [by apply pow2_pos|].
  rewrite <- Z.pow_add_r by lia. by replace (n + k) with (k + n) by lia.
Qed.

(** After the shift [shr_fexp] chooses, a mantissa has at most 53 digits. *)
Lemma shift_lt_prec r e :
  0 <= r -> r / 2 ^ (Z.max e (fexp (Zdigits2 r + e)) - e) < 2 ^ 53.
Proof.
  intros Hr. rewrite fexp_eq.
  destruct (Z.eq_dec r 0) as [->|Hr0]; [rewrite Z.div_0_l; [lia|apply Z.pow_nonzero; lia]|].
  destruct (Zdigits2_bounds r) as [_ Hd]; [lia|].
  apply div_pow2_lt; [lia|lia|]. eapply Z.lt_le_trans; [exact Hd|].
  apply Z.pow_le_mono_r; lia.
Qed.

Lemma round_result_nonneg m e : 0 <= m < 2 ^ 53 -> d_nonneg (round_result m e).
Proof. intros H. unfold round_result. destruct m as [|p|p]; [done| |lia]. destruct (_ <=? _); simpl; lia. Qed.

(** Rounding a non-negative mantissa gives a non-negative number. *)
Lemma round_aux_nonneg mx ex lx : 0 <= mx -> d_nonneg (binary_round_aux prec emax false mx ex lx).
Proof.
  intros H. destruct (round_aux_shape mx ex lx H) as (r & Hr & ->).
  assert (0 <= mx / 2 ^ (Z.max ex (fexp (Zdigits2 mx + ex)) - ex))
    by (apply Z.div_pos; [done|apply pow2_pos; lia]).
  apply round_result_nonneg. split; [|apply shift_lt_prec; lia].
  apply Z.div_pos; [lia|apply pow2_pos; lia].
Qed.

(** Rounding a value below [2^k] gives a finite value of at most [2^k]:
    rounding up never passes the next power of two. *)
Lemma round_aux_le mx ex lx k :
  0 <= mx -> ex <= k -> -1074 <= k <= 971 -> mx < 2 ^ (k - ex) ->
  binary_round_aux prec emax false mx ex lx = S754_zero false \/
  exists p e, binary_round_aux prec emax false mx ex lx = S754_finite false p e /\
    e <= k /\ Z.pos p <= 2 ^ (k - e).
Proof.
  intros H Hek Hk Hm. destruct (round_aux_shape mx ex lx H) as (r & Hr & ->).
  set (e1 := Z.max ex (fexp (Zdigits2 mx + ex))) in *.
  assert (Hd : Zdigits2 mx <= k - ex) by (apply Zdigits2_le; lia).
  assert (He1 : ex <= e1 <= k) by (unfold e1; rewrite fexp_eq; lia).
  clearbody e1.
  assert (Hm1 : mx / 2 ^ (e1 - ex) < 2 ^ (k - e1)).
  { apply div_pow2_lt; [lia|lia|]. by replace (k - e1 + (e1 - ex)) with (k - ex) by lia. }
  assert (0 <= mx / 2 ^ (e1 - ex)) by (apply Z.div_pos; [done|apply pow2_pos; lia]).
  assert (Hr2 : 0 <= r <= 2 ^ (k - e1)) by lia.
  set (e2 := Z.max e1 (fexp (Zdigits2 r + e1))).
  assert (Hdr : Zdigits2 r <= k - e1 + 1).
  { apply Zdigits2_le. rewrite Z.pow_add_r, Z.pow_1_r by lia. lia. }
  assert (He2 : e1 <= e2 <= k) by (unfold e2; rewrite fexp_eq; lia).
  clearbody e2.
  assert (Hm2 : r / 2 ^ (e2 - e1) <= 2 ^ (k - e2)).
  { replace (2 ^ (k - e2)) with (2 ^ (k - e1) / 2 ^ (e2 - e1)).
    - apply Z.div_le_mono; [apply pow2_pos; lia|lia].
    - replace (k - e1) with ((k - e2) + (e2 - e1)) by lia.
      rewrite Z.pow_add_r by lia. apply Z.div_mul. apply Z.pow_nonzero; lia. }
  assert (0 <= r / 2 ^ (e2 - e1)) by (apply Z.div_pos; [lia|apply pow2_pos; lia]).
  unfold round_result. destruct (r / 2 ^ (e2 - e1)) as [|p|p] eqn:E; [by left| |lia].
  right. rewrite (proj2 (Z.leb_le e2 (emax - prec))) by (unfold emax, prec; lia).
  exists p, e2. split; [done|lia].
Qed.

Lemma iter_xO p d : Z.pos (Pos.iter xO p d) = Z.pos p * 2 ^ Z.pos d.
Proof.
  induction d as [|d IH] using Pos.peano_ind; [simpl; lia|].
  rewrite Pos.iter_succ, Pos2Z.inj_xO, IH, Pos2Z.inj_succ, Z.pow_succ_r by lia. lia.
Qed.

(** [shl_align] moves a mantissa down to the smaller of two exponents. *)
Lemma shl_align_spec mx ex ex' :
  Z.pos (fst (shl_align mx ex ex')) = Z.pos mx * 2 ^ (ex - Z.min ex ex') /\
  snd (shl_align mx ex ex') = Z.min ex ex'.
Proof.
  unfold shl_align. destruct (ex' - ex) as [|d|d] eqn:E; simpl.
  - replace (ex - Z.min ex ex') with 0 by lia. split; lia.
  - replace (ex - Z.min ex ex') with 0 by lia. split; lia.
  - rewrite iter_xO. replace (ex - Z.min ex ex') with (Z.pos d) by lia. split; lia.
Qed.

(** Multiplying by [2^c] moves both power-of-two bounds by [c]. *)
Lemma scale_pow2 n a b c :
  0 <= a -> 0 <= b -> 0 <= c -> 2 ^ a <= n < 2 ^ b -> 2 ^ (a + c) <= n * 2 ^ c < 2 ^ (b + c).
Proof.
  intros Ha Hb Hc H. rewrite !Z.pow_add_r by lia. pose proof (pow2_pos c). nia.
Qed.

(** A JS integer shifted to 53 bits has exactly 53 digits. *)
Lemma shift_to_53 n s : 2 ^ (s - 1) <= n < 2 ^ s -> 1 <= s <= 53 -> 2 ^ 52 <= n * 2 ^ (53 - s) < 2 ^ 53.
Proof.
  intros H Hs. pose proof (scale_pow2 n (s - 1) s (53 - s)) as P.
  replace (s - 1 + (53 - s)) with 52 in P by lia. replace (s + (53 - s)) with 53 in P by lia.
  apply P; lia.
Qed.

Lemma Zdigits2_exact m k : 2 ^ (k - 1) <= m < 2 ^ k -> 0 < k -> Zdigits2 m = k.
Proof.
  intros [Hl Hu] Hk. assert (0 < m) by (pose proof (pow2_pos (k - 1)); lia).
  destruct (Zdigits2_bounds m) as [Hl' Hu']; [done|].
  pose proof (Zdigits2_le m k). destruct (Z.le_gt_cases k (Zdigits2 m)); [lia|].
  assert (2 ^ Zdigits2 m <= 2 ^ (k - 1)) by (apply Z.pow_le_mono_r; lia). lia.
Qed.

(** Rounding a mantissa that already has the exponent [fexp] asks for
    changes nothing. *)
Lemma round_aux_exact m e :
  fexp (Zdigits2 (Z.pos m) + e) = e -> e <= emax - prec ->
  binary_round_aux prec emax false (Z.pos m) e loc_Exact = S754_finite false m e.
Proof.
  intros Hf He. unfold binary_round_aux, shr_fexp. fold_intdef. rewrite Hf, Z.sub_diag.
  cbn [shr shr_record_of_loc loc_of_shr_record round_nearest_even shr_m]. fold_intdef.
  rewrite Hf, Z.sub_diag. cbn [shr shr_record_of_loc shr_m]. by rewrite (proj2 (Z.leb_le _ _) He).
Qed.

(** A JS integer below [2^53] is a double exactly: its mantissa is the
    integer shifted to 53 bits. *)
Lemma d_of_Z_exact n :
  0 < n < 2 ^ 53 ->
  exists p, d_of_Z n = S754_finite false p (Zdigits2 n - 53) /\ Z.pos p = n * 2 ^ (53 - Zdigits2 n).
Proof.
  intros Hn. destruct n as [|n|n]; try lia.
  destruct (Zdigits2_bounds (Z.pos n)) as [Hl Hu]; [lia|].
  assert (Hd : Zdigits2 (Z.pos n) <= 53) by (apply Zdigits2_le; lia).
  assert (Hd1 : 1 <= Zdigits2 (Z.pos n)) by (destruct (Z.le_gt_cases 1 (Zdigits2 (Z.pos n))); [done|]; rewrite Z.pow_neg_r in Hu; lia || (simpl in *; lia)).
  unfold d_of_Z, binary_normalize, binary_round.
  destruct (shl_align_spec n 0 (fexp (Z.pos (digits2_pos n) + 0))) as [H1 H2].
  change (Z.pos (digits2_pos n)) with (Zdigits2 (Z.pos n)) in *.
  rewrite fexp_eq in H1, H2. replace (Z.min 0 (Z.max (Zdigits2 (Z.pos n) + 0 - 53) (-1074))) with (Zdigits2 (Z.pos n) - 53) in H1, H2 by lia.
  destruct (shl_align n 0 _) as [mz ez]. simpl in H1, H2. subst ez.
  change (Z.pos (digits2_pos n)) with (Zdigits2 (Z.pos n)) in *.
  replace (0 - (Zdigits2 (Z.pos n) - 53)) with (53 - Zdigits2 (Z.pos n)) in H1 by lia.
  exists mz. split; [|done]. apply round_aux_exact; [|unfold emax, prec; lia].
  rewrite fexp_eq, (Zdigits2_exact _ 53); [lia| |lia]. rewrite H1.
  apply shift_to_53; lia.
Qed.

Lemma d_bounded_nonneg k x : d_bounded k x -> d_nonneg x.
Proof. destruct x as [[]|[]| |[] p e]; simpl; tauto. Qed.

Lemma round_aux_bounded mx ex lx k :
  0 <= mx -> ex <= k -> -1074 <= k <= 971 -> mx < 2 ^ (k - ex) ->
  d_bounded k (binary_round_aux prec emax false mx ex lx).
Proof.
  intros H Hek Hk Hm. pose proof (round_aux_nonneg mx ex lx H) as Hn.
  destruct (round_aux_le mx ex lx k H Hek Hk Hm) as [->|(p & e & E & He & Hp)]; [done|].
  rewrite E in Hn |- *. simpl in *. lia.
Qed.

(** Dividing two JS integers below [2^53], [i < 2^k * j], gives at most
    [2^k]. *)
Lemma d_div_int_bounded i j k :
  0 <= i < 2 ^ 53 -> 0 < j < 2 ^ 53 -> 0 <= k <= 971 -> i < 2 ^ k * j ->
  d_bounded k (d_div (d_of_Z i) (d_of_Z j)).
Proof.
  intros Hi Hj Hk Hij.
  destruct (d_of_Z_exact j Hj) as (mj & Ej & Hmj).
  destruct (Z.eq_dec i 0) as [->|Hi0]; [by rewrite Ej|].
  destruct (d_of_Z_exact i) as (mi & Ei & Hmi); [lia|].
  rewrite Ei, Ej. unfold d_div, SFdiv, SFdiv_core_binary. fold_intdef.
  destruct (Zdigits2_bounds i) as [Bi Bi']; [lia|]. destruct (Zdigits2_bounds j) as [Bj Bj']; [lia|].
  assert (Di : Zdigits2 i <= 53) by (apply Zdigits2_le; lia).
  assert (Dj : Zdigits2 j <= 53) by (apply Zdigits2_le; lia).
  assert (Di1 : 1 <= Zdigits2 i) by (destruct i; simpl in *; lia).
  assert (Dj1 : 1 <= Zdigits2 j) by (destruct j; simpl in *; lia).
  set (si := Zdigits2 i) in *. set (sj := Zdigits2 j) in *.
  assert (Hdi : Zdigits2 (Z.pos mi) = 53).
  { apply Zdigits2_exact; [|lia]. rewrite Hmi. apply shift_to_53; lia. }
  assert (Hdj : Zdigits2 (Z.pos mj) = 53).
  { apply Zdigits2_exact; [|lia]. rewrite Hmj. apply shift_to_53; lia. }
  rewrite Hdi, Hdj, fexp_eq.
  replace (Z.min (Z.max (53 + (si - 53) - (53 + (sj - 53)) - 53) (-1074)) (si - 53 - (sj - 53)))
    with (si - sj - 53) by lia.
  replace (si - 53 - (sj - 53) - (si - sj - 53)) with 53 by lia.
  change IntDef.Z.div_eucl with Z.div_eucl. cbv iota beta.
  rewrite Z.shiftl_mul_pow2 by lia.
  destruct (Z.div_eucl (Z.pos mi * 2 ^ 53) (Z.pos mj)) as [q r] eqn:Ed.
  assert (Hq : q = Z.pos mi * 2 ^ 53 / Z.pos mj) by (unfold Z.div; by rewrite Ed).
  subst q. apply round_aux_bounded; [apply Z.div_pos; lia|lia|lia|].
  apply Z.div_lt_upper_bound; [lia|]. rewrite Hmi, Hmj, <- !Z.mul_assoc, <- !Z.pow_add_r by lia.
  replace (53 - sj + (k - (si - sj - 53))) with (k + (106 - si)) by lia.
  replace (53 - si + 53) with (106 - si) by lia.
  rewrite Z.pow_add_r by lia. pose proof (pow2_pos (106 - si)). nia.
Qed.

Lemma normalize_nonneg z e : 0 <= z -> d_nonneg (binary_normalize prec emax z e false).
Proof.
  intros H. destruct z as [|p|p]; [done| |lia]. unfold binary_normalize, binary_round.
  destruct (shl_align _ _ _) as [mz ez]. by apply round_aux_nonneg.
Qed.

Lemma normalize_bounded z e k :
  0 <= z -> z < 2 ^ (k - e) -> e <= k -> -1074 <= k <= 971 ->
  d_bounded k (binary_normalize prec emax z e false).
Proof.
  intros H Hz He Hk. destruct z as [|p|p]; [done| |lia]. unfold binary_normalize, binary_round.
  destruct (shl_align_spec p e (fexp (Z.pos (digits2_pos p) + e))) as [H1 H2].
  destruct (shl_align _ _ _) as [mz ez]. simpl in H1, H2.
  set (ez' := Z.min e (fexp (Z.pos (digits2_pos p) + e))) in *.
  assert (ez' <= e) by (unfold ez'; lia). clearbody ez'. subst ez.
  apply round_aux_bounded; [lia|lia|lia|]. rewrite H1.
  replace (k - ez') with ((k - e) + (e - ez')) by lia. rewrite Z.pow_add_r by lia.
  pose proof (pow2_pos (e - ez')). nia.
Qed.

Lemma d_one_eq : d_one = S754_finite false (2 ^ 52) (-52).
Proof. reflexivity. Qed.

Lemma d_one_bounded k : 0 <= k <= 971 -> d_bounded k d_one.
Proof.
  intros Hk. rewrite d_one_eq. simpl. split; [lia|]. split; [|reflexivity].
  change (Z.pos (2 ^ 52)) with (2 ^ 52). apply Z.pow_le_mono_r; lia.
Qed.

(** [1 - position] for a position in [[0, 1]] lies in [[0, 2]]. *)
Lemma sub_one_bounded x : d_bounded 0 x -> d_bounded 1 (d_sub d_one x).
Proof.
  rewrite d_one_eq. destruct x as [[]|[]| |[] p e]; simpl; try tauto.
  - intros _. apply (d_one_bounded 1). lia.
  - intros (He & Hp & _). unfold d_sub, SFsub. fold_intdef. simpl. fold_intdef.
    set (ez := Z.min (-52) e).
    assert (Hez : ez <= -52 /\ ez <= e) by (unfold ez; lia). clearbody ez.
    destruct (shl_align_spec (2 ^ 52) (-52) ez) as [A1 _].
    destruct (shl_align_spec p e ez) as [B1 _].
    rewrite Z.min_r in A1, B1 by lia.
    change (Z.pos (2 ^ 52)) with (2 ^ 52) in A1.
    assert (Ha : Z.pos (fst (shl_align (2 ^ 52) (-52) ez)) = 2 ^ (- ez)).
    { rewrite A1, <- Z.pow_add_r by lia. f_equal. lia. }
    assert (Hb : Z.pos (fst (shl_align p e ez)) <= 2 ^ (- ez)).
    { rewrite B1. replace (- ez) with ((0 - e) + (e - ez)) by lia. rewrite Z.pow_add_r by lia.
      pose proof (pow2_pos (e - ez)). nia. }
    apply normalize_bounded; [lia| |lia|lia].
    replace (1 - ez) with (1 + - ez) by lia. rewrite Z.pow_add_r by lia. lia.
Qed.

Lemma mul_nonneg x y kx ky : d_bounded kx x -> d_bounded ky y -> d_nonneg (d_mul x y).
Proof.
  destruct x as [[]|[]| |[] px ex], y as [[]|[]| |[] py ey]; simpl; try tauto.
  intros _ _. apply round_aux_nonneg. lia.
Qed.

Lemma add_nonneg x p e : d_nonneg x -> Z.pos p < 2 ^ 53 -> d_nonneg (d_add x (S754_finite false p e)).
Proof.
  intros Hx Hp. unfold d_add.
  destruct x as [[]|[]| |[] px ex]; simpl in Hx; try tauto; cbn [SFadd cond_Zopp]; try done.
  apply normalize_nonneg. lia.
Qed.

(** [Math.min(1, x)] of a non-negative number is in [[0, 1]]. *)
Lemma min_one_bounded x : d_nonneg x -> d_bounded 0 (math_min d_one x).
Proof.
  pose proof (d_one_bounded 0 ltac:(lia)) as H1. rewrite d_one_eq in *.
  destruct x as [[]|[]| |[] p e]; intros Hp; [destruct Hp|exact I|destruct Hp|exact H1|destruct Hp|destruct Hp|].
  unfold math_min, SFltb, SFcompare. simpl in Hp.
  destruct (Z.compare_spec e (-52)) as [->|Hlt|Hgt].
  - destruct (Pos.compare_cont Eq p (2 ^ 52)) eqn:Ec; [exact H1| |exact H1].
    apply Pos.compare_lt_iff, Pos2Z.pos_lt_pos in Ec. rewrite Pos2Z.inj_pow in Ec.
    simpl. split; [lia|]. split; [|done]. simpl in *. lia.
  - simpl. split; [lia|]. split; [|done].
    transitivity (2 ^ 53); [lia|]. apply Z.pow_le_mono_r; lia.
  - exact H1.
Qed.

Lemma bounded_in_unit x : d_bounded 0 x -> d_in_unit x.
Proof.
  destruct x as [[]|[]| |[] p e]; simpl; try tauto.
  - intros _. exists 0%Q. split; [done|]. split; discriminate.
  - intros (He & Hp & _). eexists. split; [reflexivity|].
    destruct (Z.leb_spec 0 e) as [He0|He0].
    + assert (e = 0) as -> by lia. simpl in Hp. rewrite Z.mul_1_r.
      split; [change 0%Q with (inject_Z 0)|change 1%Q with (inject_Z 1)]; rewrite <- Zle_Qle; lia.
    + assert (0 < 2 ^ (- e)) by (apply pow2_pos; lia).
      unfold Qle. simpl. rewrite Z2Pos.id by done. replace (0 - e) with (- e) in Hp by lia. lia.
Qed.

End JsDouble.
