(* ===== verification/Types.v ===== *)
(** * The records of [src/template/src/lib/types.ts]

    [VoiceEntry] is the input record, [DetectedGoal] one detected goal,
    and [ProcessedResult] the value [processEntries] returns. The file
    also states the interface [GoalDetector] between the goal detector
    ([Detect]) and the batch processor ([Process]). It lists what the
    processor relies on about each goal the detector returns. *)

From S2P Require Import Prelude JsString JsObject JsNumber.
From Stdlib Require Import QArith.

Module Types.
Import JsString JsObject JsNumber.

(** [VoiceEntry]: [string | null] fields are [option string], number
    fields are [number]. Its [category] projection clashes with
    [DetectedGoal]'s, so the record lives in a module of its own. *)
Module Entry.
Record VoiceEntry := mkVoiceEntry {
  id : string;
  user_id : string;
  audio_url : option string;
  transcript_raw : string;
  transcript_user : string;
  language_detected : string;
  language_rendered : string;
  tags_model : list string;
  tags_user : list string;
  category : option string;
  created_at : string;
  updated_at : string;
  emotion_score_score : option number;
  embedding : option (list number)
}.
End Entry.

(** [status: 'pending' | 'in_progress' | 'completed']. *)
Inductive GoalStatus := pending | in_progress | completed.

#[export] Instance GoalStatus_eq_dec : EqDecision GoalStatus.
Proof. solve_decision. Defined.

Record DetectedGoal := mkDetectedGoal {
  task_text : string;
  due_date : option string;
  status : GoalStatus;
  category : option string;
  confidence : number;
  source_entry_id : string
}.

(** [tagFrequencies: Record<string, number>] is the object's own
    properties; see [JsObject]. *)
Record ProcessedResult := mkProcessedResult {
  summary : string;
  tagFrequencies : gmap string js_value;
  detectedGoals : list DetectedGoal
}.

(** ** The interface between the detector and the processor *)

(** What [processEntries] relies on about [detect transcript entryId]:
    every goal it returns belongs to the entry, is pending, has a
    non-empty trimmed task text, taken from a piece of the transcript,
    and a confidence in [[0, 1]]. *)
Class GoalDetector (detect : string -> string -> list DetectedGoal) : Prop := {
  detect_source : forall t i g, g ∈ detect t i -> source_entry_id g = i;
  detect_pending : forall t i g, g ∈ detect t i -> status g = pending;
  detect_task_nonempty : forall t i g, g ∈ detect t i -> task_text g <> "";
  detect_task_trimmed : forall t i g, g ∈ detect t i -> trim (task_text g) = task_text g;
  detect_task_infix : forall t i g, g ∈ detect t i ->
    exists pre w post, t = pre +:+ w +:+ post /\ task_text g = trim w;
  detect_confidence : forall t i g, g ∈ detect t i -> in_unit (confidence g)
}.

End Types.
