(* ===== verification/DueDate.v ===== *)
(** * [extractDueDate] (sampleService.ts, lines 79-94)

    The function tries four non-global regexes in order. The first three
    are case-insensitive; the fourth has no [i] flag. It returns capture
    group 1 of the first one that matches, or [null]. The main theorem,
    [extractDueDate_value], says what such a capture can be: one of the
    listed date words (in any letter case), [this] or [next], an ordinal
    word in lower case, or a [D/D/YYYY] date. [extractDueDate_none] is
    the other direction: the result is [null] exactly when no word of any
    of the four patterns occurs in the transcript. *)

From S2P Require Import Prelude JsString Regex RegexComplete.

Module DueDate.
Import JsString Regex RegexComplete.

(** ** The patterns of lines 80-85 *)

(** [\d]. *)
Definition digit : charset :=
  CharSet false ["0"; "1"; "2"; "3"; "4"; "5"; "6"; "7"; "8"; "9"]%char.

(** [\d{1,2}\/\d{1,2}\/\d{4}]. *)
Definition slash_date_rx : regex :=
  RSeq (RRepeat digit 1 (Some 2))
    (RSeq (RChar "/")
       (RSeq (RRepeat digit 1 (Some 2))
          (RSeq (RChar "/") (RRepeat digit 4 (Some 4))))).

(** [tomorrow|next week|this weekend|today|tonight|\d{1,2}\/\d{1,2}\/\d{4}]. *)
Definition date_word_rx : regex :=
  alts (map lit ["tomorrow"; "next week"; "this weekend"; "today"; "tonight"]
        ++ [slash_date_rx]).

(** [/(?:by|before|until|on) (tomorrow|...|\d{1,2}\/\d{1,2}\/\d{4})/i] *)
Definition date_pattern_1 : regex :=
  RSeq (words ["by"; "before"; "until"; "on"])
    (RSeq (lit " ") (RGroup 1 date_word_rx)).

(** [/(?:due|deadline) (?:is|on) (tomorrow|...|\d{1,2}\/\d{1,2}\/\d{4})/i] *)
Definition date_pattern_2 : regex :=
  RSeq (words ["due"; "deadline"])
    (RSeq (lit " ")
       (RSeq (words ["is"; "on"]) (RSeq (lit " ") (RGroup 1 date_word_rx)))).

(** [/(?:by|before|until) (?:the end of )?(this|next) (week|month|year)/i] *)
Definition date_pattern_3 : regex :=
  RSeq (words ["by"; "before"; "until"])
    (RSeq (lit " ")
       (RSeq (ROpt (lit "the end of "))
          (RSeq (RGroup 1 (words ["this"; "next"]))
             (RSeq (lit " ") (RGroup 2 (words ["week"; "month"; "year"])))))).

(** [/(?:by|before|until) (?:the )?(first|second|third|fourth|last) (week|month)/] *)
Definition date_pattern_4 : regex :=
  RSeq (words ["by"; "before"; "until"])
    (RSeq (lit " ")
       (RSeq (ROpt (lit "the "))
          (RSeq (RGroup 1 (words ["first"; "second"; "third"; "fourth"; "last"]))
             (RSeq (lit " ") (RGroup 2 (words ["week"; "month"])))))).

(** [const datePatterns = [...]]: non-global literals; only the fourth
    lacks the [i] flag. *)
Definition datePatterns : list RegExp :=
  [regexp_literal date_pattern_1 false true;
   regexp_literal date_pattern_2 false true;
   regexp_literal date_pattern_3 false true;
   regexp_literal date_pattern_4 false false].

(** ** The function *)

(** [for (const pattern of datePatterns) { const match =
    transcript.match(pattern); if (match) return match[1] }; return null]. *)
Fixpoint first_date (pats : list RegExp) (transcript : string) : option string :=
  match pats with
  | [] => None
  | R :: pats' =>
      match str_match transcript R with
      | Some m => group m 1
      | None => first_date pats' transcript
      end
  end.

Definition extractDueDate (transcript : string) : option string :=
  first_date datePatterns transcript.

(** ** What a due date can be *)

(** A [D/D/YYYY] date: one or two digits, a slash, one or two digits, a
    slash, four digits. *)
Definition slash_date (w : string) : Prop :=
  exists d m y, w = d +:+ "/" +:+ m +:+ "/" +:+ y /\
    chars_all is_digit (d +:+ m +:+ y) = true /\
    1 <= String.length d <= 2 /\ 1 <= String.length m <= 2 /\ String.length y = 4.

(** The values [extractDueDate] can return. *)
Definition due_date_value (w : string) : Prop :=
  toLowerCase w ∈ ["tomorrow"; "next week"; "this weekend"; "today"; "tonight";
                   "this"; "next"] \/
  w ∈ ["first"; "second"; "third"; "fourth"; "last"] \/
  slash_date w.

(** What the group-1 captures of the date patterns satisfy. *)
Definition due_capture (n : nat) (w : string) : Prop := n = 1 -> due_date_value w.

(** ** Lemmas *)

Lemma digit_is_digit c : cs_matches true digit c = true -> is_digit c = true.
Proof.
  pose proof (forall_code_units_spec
    (fun c => implb (cs_matches true digit c) (is_digit c))
    ltac:(vm_compute; reflexivity) c) as H.
  intros Hc. cbv beta in H. rewrite Hc in H. exact H.
Qed.

Lemma slash_canonical b : canonicalize true "/" = canonicalize true b -> b = "/"%char.
Proof.
  pose proof (forall_code_units_spec
    (fun b => implb (N.eqb (canonicalize true "/") (canonicalize true b))
                    (Ascii.eqb b "/")) ltac:(vm_compute; reflexivity) b) as H.
  intros E. cbv beta in H. rewrite E, N.eqb_refl in H. by apply Ascii.eqb_eq.
Qed.

Lemma rep_digits mn mx w :
  rep_ok true digit mn mx w -> chars_all is_digit w = true.
Proof.
  intros [Hall _]. induction w as [|a w IH]; [done|]. simpl in *.
  apply andb_true_iff in Hall as [Ha Hw]. rewrite digit_is_digit by done. auto.
Qed.

(** Inversion of a language membership on the pattern constructors that
    carry no choice. *)
Ltac invert_lang :=
  repeat match goal with
  | H : in_lang _ (RSeq _ _) _ |- _ => invc H
  | H : in_lang _ (RChar _) _ |- _ => invc H
  | H : in_lang _ (RRepeat _ _ _) _ |- _ => invc H
  end.

Lemma slash_date_rx_value w : in_lang true slash_date_rx w -> slash_date w.
Proof.
  intros H. unfold slash_date_rx in H. invert_lang.
  repeat match goal with H : canonicalize true "/" = _ |- _ => apply slash_canonical in H end.
  subst.
  match goal with
  | H1 : rep_ok _ _ _ _ ?d, H2 : rep_ok _ _ _ _ ?m, H3 : rep_ok _ _ _ _ ?y |- _ =>
      exists d, m, y; split; [reflexivity|];
      rewrite !chars_all_app, (rep_digits _ _ _ H1), (rep_digits _ _ _ H2), (rep_digits _ _ _ H3);
      destruct H1 as (_ & ? & H1'), H2 as (_ & ? & H2'), H3 as (_ & ? & H3');
      specialize (H1' _ eq_refl); specialize (H2' _ eq_refl); specialize (H3' _ eq_refl);
      repeat split; lia
  end.
Qed.

Lemma date_word_rx_value w : in_lang true date_word_rx w -> due_date_value w.
Proof.
  intros H. apply in_lang_alts in H as (r & Hin & L); [|done].
  apply in_app_or in Hin as [Hin|[<-|[]]].
  - apply in_map_iff in Hin as (kw & <- & Hkw). apply in_lang_lit_ci in L.
    left. rewrite L. simpl in Hkw. apply list_elem_of_In.
    repeat destruct Hkw as [<-|Hkw]; [..|done]; vm_compute; auto 10.
  - right; right. by apply slash_date_rx_value.
Qed.

Lemma date_patterns_groups :
  Forall (fun R => groups_ok (ignoreCase R) due_capture (source R)) datePatterns.
Proof.
  unfold datePatterns.
  constructor; [|constructor; [|constructor; [|constructor; [|constructor]]]];
    simpl; repeat split; intros w H Hn; try discriminate.
  - by apply date_word_rx_value.
  - by apply date_word_rx_value.
  - left. apply in_lang_words_ci in H; [|done]. simpl in H. set_solver.
  - right; left. by apply in_lang_words_cs in H.
Qed.

(** ** Theorems *)

(** Every date pattern is non-global, and capture group 1 is on every
    path through it, outside any optional part. *)
Definition date_pattern_ok (R : RegExp) : Prop :=
  global R = false /\ opt_groups_free (source R) = true /\ 1 ∈ must_groups (source R).

Lemma datePatterns_ok : Forall date_pattern_ok datePatterns.
Proof. repeat constructor; set_solver. Qed.

(** [first_date] returns [null] exactly when none of the patterns
    matches: a match always has its group 1. *)
Lemma first_date_none pats t :
  Forall date_pattern_ok pats ->
  first_date pats t = None <-> Forall (fun R => str_match t R = None) pats.
Proof.
  induction pats as [|R pats IH]; intros Hok; [split; constructor|].
  invc Hok. destruct H1 as (Hg & Hf & H1). simpl.
  destruct (str_match t R) as [m|] eqn:E.
  - split; [|intros H; invc H; congruence].
    unfold str_match in E. destruct (exec R t) as [o R'] eqn:Ex. simpl in E. subst o.
    destruct (exec_must_groups R t m R' 1 Hf H1 Ex) as [w Hw].
    unfold group. simpl. by rewrite Hw.
  - rewrite IH by done. split; [by constructor|]. by intros H; invc H.
Qed.

(** C7: [extractDueDate] returns the group-1 capture of the first matching
    pattern, and every such capture is a listed date word (any case),
    [this]/[next], a lower-case ordinal, or a [D/D/YYYY] date. *)
Theorem extractDueDate_value t d : extractDueDate t = Some d -> due_date_value d.
Proof.
  unfold extractDueDate. pose proof date_patterns_groups as Hg. revert Hg.
  generalize datePatterns as pats. induction pats as [|R pats IH]; intros Hg H; [done|].
  invc Hg. simpl in H. destruct (str_match t R) as [m|] eqn:E; [|auto].
  by apply (str_match_group due_capture R t m 1 d).
Qed.

Lemma extractDueDate_value_witness :
  extractDueDate "I will call mom by Tomorrow" = Some "Tomorrow" /\ due_date_value "Tomorrow".
Proof.
  assert (H : extractDueDate "I will call mom by Tomorrow" = Some "Tomorrow")
    by (vm_compute; reflexivity).
  split; [exact H|]. exact (extractDueDate_value _ _ H).
Defined.


(** C8: [extractDueDate] returns [null] exactly when no word of any of the
    four date patterns occurs anywhere in the transcript. With
    [extractDueDate_value], this characterises the function. *)
Theorem extractDueDate_none t :
  extractDueDate t = None <->
  forall R, R ∈ datePatterns -> forall pre w post, t = pre +:+ w +:+ post ->
    ~ in_lang (ignoreCase R) (source R) w.
Proof.
  unfold extractDueDate. rewrite first_date_none by apply datePatterns_ok.
  rewrite Forall_forall. pose proof datePatterns_ok as Hok. rewrite Forall_forall in Hok.
  split.
  - intros H R HR pre w post Ht. destruct (Hok R HR) as (Hg & _).
    apply (proj1 (exec_none_iff R t) (H R HR) pre w post Ht). rewrite Hg. lia.
  - intros H R HR. apply exec_none_iff. intros pre w post Ht _. by apply (H R HR pre w post).
Qed.

End DueDate.
