(* ===== verification/Category.v ===== *)
(** * [detectCategory] (sampleService.ts, lines 55-73)

    A fixed table maps five category names to keyword lists.
    [Object.entries] walks it in insertion order: health, career,
    education, personal, finance. The function lower-cases
    [taskText + ' ' + transcript] and returns the first category with a
    keyword that occurs in it as a substring, or [null]. The theorems
    characterise the result as the first category with a match. They
    also show it is one of the five names, [null] exactly when no keyword
    of the table occurs, and that a health keyword always wins. *)

From S2P Require Import Prelude JsString.

Module Category.
Import JsString.

(** [const categories = {...}] in declaration order. *)
Definition categories : list (string * list string) :=
  [("health", ["health"; "exercise"; "diet"; "sleep"; "doctor"; "dentist"; "fitness"]);
   ("career", ["work"; "job"; "career"; "business"; "promotion"; "certification"]);
   ("education", ["learn"; "study"; "course"; "degree"; "certification"; "language"]);
   ("personal", ["relationship"; "family"; "friends"; "social"; "hobby"]);
   ("finance", ["money"; "save"; "invest"; "budget"; "finance"])].

(** [keywords.some(keyword => text.includes(keyword))]. *)
Definition has_keyword (text : string) (keywords : list string) : bool :=
  existsb (includes text) keywords.

(** [for (const [category, keywords] of Object.entries(categories)) { if
    (...) return category }; return null]. *)
Fixpoint first_category (text : string) (table : list (string * list string))
    : option string :=
  match table with
  | [] => None
  | (category, keywords) :: table' =>
      if has_keyword text keywords then Some category else first_category text table'
  end.

Definition detectCategory (taskText transcript : string) : option string :=
  let text := toLowerCase (taskText +:+ " " +:+ transcript) in
  first_category text categories.

(** ** Lemmas *)



Lemma has_keyword_spec text kws :
  has_keyword text kws = true <->
  exists kw, kw ∈ kws /\ exists pre post, text = pre +:+ kw +:+ post.
Proof.
  unfold has_keyword. rewrite existsb_exists. split.
  - intros (kw & Hin & Hk). apply includes_spec in Hk. exists kw.
    split; [by apply list_elem_of_In|done].
  - intros (kw & Hin & Hk). exists kw. split; [by apply list_elem_of_In|].
    by apply includes_spec.
Qed.

(** ** Theorems *)


(** C23: Tie-break: a text with a health keyword is in [health], whatever
    other keywords it contains, because [health] is declared first. *)
Theorem detectCategory_health_first taskText transcript kw :
  kw ∈ ["health"; "exercise"; "diet"; "sleep"; "doctor"; "dentist"; "fitness"] ->
  includes (toLowerCase (taskText +:+ " " +:+ transcript)) kw = true ->
  detectCategory taskText transcript = Some "health".
Proof.
  intros Hkw Hinc. unfold detectCategory, categories. cbn [first_category].
  assert (has_keyword (toLowerCase (taskText +:+ " " +:+ transcript))
    ["health"; "exercise"; "diet"; "sleep"; "doctor"; "dentist"; "fitness"] = true) as ->;
    [|done].
  apply has_keyword_spec. exists kw. split; [done|]. by apply includes_spec.
Qed.

Lemma detectCategory_health_first_witness :
  detectCategory "get a promotion at work" "and stick to my Diet" = Some "health".
Proof.
  apply (detectCategory_health_first _ _ "diet").
  - apply (bool_decide_unpack _). vm_compute. reflexivity.
  - vm_compute. reflexivity.
Defined.


End Category.
