(* ===== verification/Confidence.v ===== *)
(** * [calculateConfidence] (sampleService.ts, lines 103-122)

    The score starts from the match's length and its position, found
    again with [transcript.indexOf(match)]. It adds 0.2 when the
    transcript has a due date and 0.1 when the match and transcript have
    a category, and clamps the result with [Math.min(1, ...)]. Arithmetic
    is on [JsNumber.number]. The main theorem is the bound: the score is
    a finite number in [[0, 1]] as soon as the match or the transcript is
    non-empty, and it is at least the bonuses the match earns. When both
    are empty the score is [NaN], from [0 / 0], and only then.
    [confidence_at] is a reference of the formula at an explicit
    position, used to state where the score is taken.

    [calculateConfidence_f64] is the same function on IEEE doubles
    ([JsDouble]), with the literals [0.2] and [0.1] as their nearest
    doubles. Its bound is proved from the rounding lemmas: the position
    is at most 1, [1 - position] is at least 0, the product is
    non-negative and not [NaN], and [Math.min(1, ...)] clamps. *)

From S2P Require Import Prelude JsString JsNumber JsDouble DueDate Category.
From Stdlib Require Import ZArith QArith Qminmax Lqa Floats.SpecFloat.

Module Confidence.
Import JsString JsNumber JsDouble DueDate Category.

(** [if (s)] on a [string | null]: [null] and [""] are falsy. *)
Definition str_truthy (o : option string) : bool :=
  match o with
  | Some s => negb (String.eqb s "")
  | None => false
  end.

Definition calculateConfidence (match_ transcript : string) : number :=
  let matchLength := of_nat (String.length match_) in
  let transcriptLength := of_nat (String.length transcript) in
  let position := div (of_Z (indexOf transcript match_)) transcriptLength in
  let confidence := min (Num 1) (mul (div matchLength (Num 20)) (sub (Num 1) position)) in
  let confidence :=
    if str_truthy (extractDueDate transcript) then add confidence (Num (1#5)) else confidence in
  let confidence :=
    if str_truthy (detectCategory match_ transcript) then add confidence (Num (1#10))
    else confidence in
  min (Num 1) confidence.

(** The reference for the position: the same score computed at a given
    index [pos] of the match, where the code recomputes the index with
    [transcript.indexOf(match)]. *)
Definition confidence_at (pos : Z) (match_ transcript : string) : number :=
  let matchLength := of_nat (String.length match_) in
  let transcriptLength := of_nat (String.length transcript) in
  let position := div (of_Z pos) transcriptLength in
  let confidence := min (Num 1) (mul (div matchLength (Num 20)) (sub (Num 1) position)) in
  let confidence :=
    if str_truthy (extractDueDate transcript) then add confidence (Num (1#5)) else confidence in
  let confidence :=
    if str_truthy (detectCategory match_ transcript) then add confidence (Num (1#10))
    else confidence in
  min (Num 1) confidence.

(** The bonuses a match earns: 0.2 for a due date, 0.1 for a category. *)
Definition bonus (match_ transcript : string) : Q :=
  (if str_truthy (extractDueDate transcript) then 1#5 else 0) +
  (if str_truthy (detectCategory match_ transcript) then 1#10 else 0).

(** ** Lemmas *)

(** The base score [min(1, len/20 * (1 - position))] is a number in
    [[0, 1]] when the transcript is not empty. *)
Lemma base_range (m t : string) :
  t <> "" ->
  in_unit (min (Num 1) (mul (div (of_nat (String.length m)) (Num 20))
     (sub (Num 1) (div (of_Z (indexOf t m)) (of_nat (String.length t)))))).
Proof.
  intros Ht.
  assert (Hlen : (0 < inject_Z (Z.of_nat (String.length t)))%Q).
  { destruct t; [done|]. unfold Qlt. simpl. lia. }
  assert (Hpos : (inject_Z (indexOf t m) / inject_Z (Z.of_nat (String.length t)) <= 1)%Q).
  { apply Qle_shift_div_r; [done|]. rewrite Qmult_1_l. unfold indexOf.
    destruct (index_of m t) as [k|] eqn:E.
    - apply index_of_fits in E. rewrite <- Zle_Qle. lia.
    - rewrite <- Zle_Qle. lia. }
  unfold of_nat, of_Z, div. simpl.
  destruct (Qeq_bool (inject_Z (Z.of_nat (String.length t))) 0) eqn:E0.
  { apply Qeq_bool_eq in E0. rewrite E0 in Hlen. discriminate. }
  simpl. apply min_one_range.
  apply Qmult_le_0_compat.
  - apply Qle_shift_div_l; [reflexivity|]. rewrite Qmult_0_l.
    change 0%Q with (inject_Z 0). rewrite <- Zle_Qle. lia.
  - lra.
Qed.

(** With an empty transcript and a non-empty match, [indexOf] is -1, the
    position is [-Infinity] and the base score is 1. *)
Lemma base_empty_transcript (m : string) :
  m <> "" ->
  min (Num 1) (mul (div (of_nat (String.length m)) (Num 20))
     (sub (Num 1) (div (of_Z (indexOf "" m)) (of_nat (String.length ""))))) = Num 1.
Proof.
  intros Hm. unfold indexOf. destruct m as [|a m]; [done|]. simpl.
  unfold scale_inf. simpl. reflexivity.
Qed.

(** A finite, non-negative number. *)
Definition nonneg (x : number) : Prop := exists q, x = Num q /\ (0 <= q)%Q.

Lemma in_unit_nonneg x : in_unit x -> nonneg x.
Proof. destruct x as [q| | |]; simpl; try tauto. intros [? _]. by exists q. Qed.

(** Adding a bonus keeps a score finite and non-negative. *)
Lemma nonneg_bonus (b : bool) x (d : Q) :
  (0 <= d)%Q -> nonneg x -> nonneg (if b then add x (Num d) else x).
Proof.
  intros Hd (q & -> & Hq). destruct b; [|by exists q]. exists (q + d)%Q. split; [done|lra].
Qed.

(** [Math.min(1, x)] of a finite non-negative number lies in [[0, 1]]. *)
Lemma nonneg_clamp x : nonneg x -> in_unit (min (Num 1) x).
Proof. intros (q & -> & Hq). by apply min_one_range. Qed.

(** The base score is finite and non-negative unless both strings are
    empty. *)
Lemma base_nonneg (m t : string) :
  m <> "" \/ t <> "" ->
  nonneg (min (Num 1) (mul (div (of_nat (String.length m)) (Num 20))
     (sub (Num 1) (div (of_Z (indexOf t m)) (of_nat (String.length t)))))).
Proof.
  intros Hne. apply in_unit_nonneg.
  destruct (decide (t = "")) as [->|Ht]; [|by apply base_range].
  destruct Hne as [Hm|]; [|done]. rewrite base_empty_transcript by done.
  simpl; split; lra.
Qed.

(** ** Theorems *)

(** The confidence of a match is a finite number in [[0, 1]] unless the
    match and the transcript are both empty. *)
Theorem calculateConfidence_range (m t : string) :
  m <> "" \/ t <> "" -> in_unit (calculateConfidence m t).
Proof.
  intros Hne. unfold calculateConfidence.
  apply nonneg_clamp, nonneg_bonus, nonneg_bonus; [lra|lra|].
  by apply base_nonneg.
Qed.

(** [0 / 0] is [NaN]. *)
Lemma calculateConfidence_empty : calculateConfidence "" "" = NaN.
Proof. reflexivity. Qed.

(** C27: The score leaves [[0, 1]] on exactly one input: it is [NaN]
    exactly when the match and the transcript are both empty ([0 / 0]),
    and a finite number in [[0, 1]] exactly otherwise. *)
Theorem calculateConfidence_domain (m t : string) :
  (calculateConfidence m t = NaN <-> m = "" /\ t = "") /\
  (in_unit (calculateConfidence m t) <-> m <> "" \/ t <> "").
Proof.
  destruct (decide (m = "" /\ t = "")) as [[-> ->]|Hne].
  - rewrite calculateConfidence_empty. simpl. split; [tauto|]. split; [done|]. intros [[]|[]]; done.
  - assert (Hor : m <> "" \/ t <> "") by (destruct m, t; (by left) || (by right) || tauto).
    pose proof (calculateConfidence_range m t Hor) as Hr. split; split; try tauto.
    intros E. rewrite E in Hr. done.
Qed.

(** C28: The score is at least the bonuses it earns: 0.2 when the
    transcript has a due date and 0.1 when the match has a category. The
    base score can only add to them, and the clamp at 1 never cuts below
    them. *)
Theorem calculateConfidence_bonus (m t : string) :
  m <> "" \/ t <> "" ->
  exists q, calculateConfidence m t = Num q /\ (bonus m t <= q)%Q.
Proof.
  intros Hne. destruct (base_nonneg m t Hne) as (b & Hb & Hb0).
  unfold calculateConfidence, bonus. cbv zeta. rewrite Hb.
  destruct (str_truthy (extractDueDate t)), (str_truthy (detectCategory m t));
    simpl; eexists; (split; [reflexivity|]); apply Q.min_glb; lra.
Qed.

Lemma calculateConfidence_bonus_witness :
  ("need to see the doctor" <> "" \/ "I need to see the doctor by tomorrow" <> "") /\
  exists q, calculateConfidence "need to see the doctor" "I need to see the doctor by tomorrow" = Num q /\
    (bonus "need to see the doctor" "I need to see the doctor by tomorrow" <= q)%Q.
Proof.
  assert (H : "need to see the doctor" <> "" \/ "I need to see the doctor by tomorrow" <> "")
    by (left; discriminate).
  split; [exact H|]. exact (calculateConfidence_bonus _ _ H).
Defined.

(** ** The score in IEEE doubles *)

(** The literals [0.2] and [0.1]: the doubles nearest to 1/5 and 1/10. *)
Definition lit_0_2 : spec_float := S754_finite false 7205759403792794 (-55).
Definition lit_0_1 : spec_float := S754_finite false 7205759403792794 (-56).

(** [calculateConfidence] with every operation rounded to binary64, as a
    JS engine computes it. *)
Definition calculateConfidence_f64 (match_ transcript : string) : spec_float :=
  let matchLength := d_of_nat (String.length match_) in
  let transcriptLength := d_of_nat (String.length transcript) in
  let position := d_div (d_of_Z (indexOf transcript match_)) transcriptLength in
  let confidence :=
    math_min d_one (d_mul (d_div matchLength (d_of_Z 20)) (d_sub d_one position)) in
  let confidence :=
    if str_truthy (extractDueDate transcript) then d_add confidence lit_0_2 else confidence in
  let confidence :=
    if str_truthy (detectCategory match_ transcript) then d_add confidence lit_0_1
    else confidence in
  math_min d_one confidence.

(** The powers of two the bounds mention, as numerals for [lia]. *)
Ltac pow2_consts :=
  change (2 ^ 53)%Z with 9007199254740992%Z in *; change (2 ^ 49)%Z with 562949953421312%Z in *;
  change (2 ^ 0)%Z with 1%Z in *.

(** The two literals are the correctly rounded quotients. *)
Lemma lit_nearest : lit_0_2 = d_div (d_of_Z 1) (d_of_Z 5) /\ lit_0_1 = d_div (d_of_Z 1) (d_of_Z 10).
Proof. split; vm_compute; reflexivity. Qed.

Lemma bonus_f64_nonneg (b : bool) x p e :
  d_nonneg x -> (Z.pos p < 2 ^ 53)%Z -> d_nonneg (if b then d_add x (S754_finite false p e) else x).
Proof. intros Hx Hp. destruct b; [by apply add_nonneg|done]. Qed.

(** A non-empty substring is found before the end of the string. *)
Lemma indexOf_infix m t :
  m <> "" -> (exists pre post, t = pre +:+ m +:+ post) ->
  (0 <= indexOf t m < Z.of_nat (String.length t))%Z /\ (String.length m <= String.length t)%nat.
Proof.
  intros Hm (pre & post & ->). unfold indexOf.
  destruct (index_of_complete m pre post) as (k & E & _). rewrite E.
  apply index_of_fits in E. destruct m as [|a m]; [done|]. simpl in E.
  rewrite !string_length_app in *. simpl in *. lia.
Qed.

(** C12: In IEEE doubles too, the score of a non-empty match found in a
    transcript of legal JS length (below 2^53) is a finite number in
    [[0, 1]]: the rounding of every division, subtraction,
    multiplication and addition never leaves that range. *)
Theorem calculateConfidence_f64_range (m t : string) :
  m <> "" -> (exists pre post, t = pre +:+ m +:+ post) ->
  (Z.of_nat (String.length t) < 2 ^ 53)%Z ->
  d_in_unit (calculateConfidence_f64 m t).
Proof.
  intros Hm Hin Hlen. destruct (indexOf_infix m t Hm Hin) as [Hi Hml].
  unfold calculateConfidence_f64, d_of_nat. cbv zeta.
  apply bounded_in_unit, min_one_bounded.
  apply bonus_f64_nonneg; [|reflexivity]. apply bonus_f64_nonneg; [|reflexivity].
  apply (d_bounded_nonneg 0), min_one_bounded, (mul_nonneg _ _ 49 1).
  - apply d_div_int_bounded; pow2_consts; lia.
  - apply sub_one_bounded, d_div_int_bounded; pow2_consts; lia.
Qed.

Lemma calculateConfidence_f64_range_witness :
  "run" <> "" /\ (exists pre post, "I want to run" = pre +:+ "run" +:+ post) /\
  (Z.of_nat (String.length "I want to run") < 2 ^ 53)%Z /\
  d_in_unit (calculateConfidence_f64 "run" "I want to run").
Proof.
  assert (Hm : "run" <> "") by discriminate.
  assert (Hin : exists pre post, "I want to run" = pre +:+ "run" +:+ post)
    by (exists "I want to ", ""; reflexivity).
  assert (Hlen : (Z.of_nat (String.length "I want to run") < 2 ^ 53)%Z) by reflexivity.
  split; [exact Hm|]. split; [exact Hin|]. split; [exact Hlen|].
  exact (calculateConfidence_f64_range _ _ Hm Hin Hlen).
Defined.

End Confidence.
