(* ===== verification/Detect.v ===== *)
(** * [detectGoals] (sampleService.ts, lines 9-50)

    Four global, case-insensitive regex literals are created afresh on
    each call. For each one, in order, the loop
    [while ((match = pattern.exec(transcript)) !== null)] visits the
    matches left to right. Each match gives a task text:
    [match[1]?.trim() || match[2]?.trim()]. The loop skips the match when
    that text is empty or undefined, or when its lower-cased form is
    already in [seenTasks]. Otherwise it records the key and pushes a
    pending goal whose due date, category and confidence come from the
    three helpers.

    The model keeps the JS state: the regex object with its [lastIndex]
    ([Regex.exec_loop]) and the pair [(goals, seenTasks)]. Its theorems:
    - each [exec] loop terminates with the fuel given;
    - [detectGoals] equals the reference [keep_first] applied to the
      candidate goals, in pattern order then match order;
    - the goals are pairwise distinct by lower-cased task text;
    - every goal satisfies the [GoalDetector] interface;
    - a transcript holding a word of a pattern's language gives that
      pattern's loop a match, and [detectGoals] is empty exactly when
      every match has an empty task text;
    - the confidence of every match is computed at the first occurrence
      of its text: at or before the match, and at the match exactly when
      the text does not occur earlier. An example shows the difference on
      a transcript with a repeated phrase. *)

From S2P Require Import Prelude JsString Regex RegexComplete JsNumber Types DueDate Category Confidence.

Module Detect.
Import JsString Regex RegexComplete JsNumber Types DueDate Category Confidence.

(** ** The patterns of lines 14-19 *)

(** [([^.,!?]+)] as capture group [n]. *)
Definition phrase (n : nat) : regex :=
  RGroup n (RRepeat (CharSet true ["."; ","; "!"; "?"]%char) 1 None).

(** [/(?:want|need|plan|going|intend|decided|aim|hope) to ([^.,!?]+)/gi] *)
Definition goal_pattern_1 : regex :=
  RSeq (words ["want"; "need"; "plan"; "going"; "intend"; "decided"; "aim"; "hope"])
    (RSeq (lit " to ") (phrase 1)).

(** [/(?:should|must|have to|got to) ([^.,!?]+)/gi] *)
Definition goal_pattern_2 : regex :=
  RSeq (words ["should"; "must"; "have to"; "got to"]) (RSeq (lit " ") (phrase 1)).

(** [/(?:tomorrow|next week|this weekend|today|tonight) (?:I'm|I am|I will|I'll) ([^.,!?]+)/gi] *)
Definition goal_pattern_3 : regex :=
  RSeq (words ["tomorrow"; "next week"; "this weekend"; "today"; "tonight"])
    (RSeq (lit " ")
       (RSeq (words ["I'm"; "I am"; "I will"; "I'll"]) (RSeq (lit " ") (phrase 1)))).

(** [/(?:by|before|until) ([^.,!?]+) (?:I will|I'll|I'm going to) ([^.,!?]+)/gi] *)
Definition goal_pattern_4 : regex :=
  RSeq (words ["by"; "before"; "until"])
    (RSeq (lit " ")
       (RSeq (phrase 1)
          (RSeq (lit " ")
             (RSeq (words ["I will"; "I'll"; "I'm going to"]) (RSeq (lit " ") (phrase 2)))))).

(** [const goalPatterns = [...]]: fresh [/.../gi] objects, [lastIndex] 0. *)
Definition goalPatterns : list RegExp :=
  map (fun r => regexp_literal r true true)
    [goal_pattern_1; goal_pattern_2; goal_pattern_3; goal_pattern_4].

(** ** The loop body, lines 25-46 *)

(** [match[1]?.trim() || match[2]?.trim()]: the first trimmed capture
    unless it is [""] or [undefined], else the second. *)
Definition or_trimmed (a b : option string) : option string :=
  match trim <$> a with
  | Some s => if String.eqb s "" then trim <$> b else Some s
  | None => trim <$> b
  end.

Definition task_text_of (m : match_result) : option string :=
  or_trimmed (group m 1) (group m 2).

(** The goal object of lines 38-45. *)
Definition make_goal (transcript entryId taskText : string) (m : match_result)
    : DetectedGoal :=
  {| task_text := taskText;
     due_date := extractDueDate transcript;
     status := pending;
     category := detectCategory taskText transcript;
     confidence := calculateConfidence (mr_text m) transcript;
     source_entry_id := entryId |}.

(** The state of the loop: [goals] and [seenTasks]. *)
Definition detect_state : Type := list DetectedGoal * gset string.

(** One iteration: [if (!taskText || seenTasks.has(taskText.toLowerCase()))
    continue; seenTasks.add(...); goals.push(...)]. *)
Definition detect_step (transcript entryId : string) (st : detect_state)
    (m : match_result) : detect_state :=
  match task_text_of m with
  | None => st
  | Some taskText =>
      if String.eqb taskText "" then st
      else if decide (toLowerCase taskText ∈ st.2) then st
      else (st.1 ++ [make_goal transcript entryId taskText m],
            {[toLowerCase taskText]} ∪ st.2)
  end.

(** The fuel of the [exec] loop: one more than the transcript's length.
    [detect_loops_terminate] shows it is enough. *)
Definition loop_fuel (transcript : string) : nat := S (String.length transcript).

(** The [while] loop of one pattern, fed to the loop body. *)
Definition run_pattern (transcript entryId : string) (st : detect_state) (R : RegExp)
    : detect_state :=
  match exec_loop (loop_fuel transcript) R transcript with
  | Some (ms, _) => fold_left (detect_step transcript entryId) ms st
  | None => st
  end.

Definition detectGoals (transcript entryId : string) : list DetectedGoal :=
  (fold_left (run_pattern transcript entryId) goalPatterns ([], ∅)).1.

(** ** The reference: candidates, then the first goal of each key *)

Definition goal_key (g : DetectedGoal) : string := toLowerCase (task_text g).

(** The goal a match would give if its key were new. *)
Definition candidate (transcript entryId : string) (m : match_result) : option DetectedGoal :=
  match task_text_of m with
  | Some taskText =>
      if String.eqb taskText "" then None
      else Some (make_goal transcript entryId taskText m)
  | None => None
  end.

(** All matches of one pattern, as the loop visits them. *)
Definition pattern_matches (transcript : string) (R : RegExp) : list match_result :=
  match exec_loop (loop_fuel transcript) R transcript with
  | Some (ms, _) => ms
  | None => []
  end.

Definition detect_reference (transcript entryId : string) : list DetectedGoal :=
  keep_first goal_key []
    (omap (candidate transcript entryId)
       (concat (map (pattern_matches transcript) goalPatterns))).

(** ** Lemmas *)

(** Every goal pattern needs at least one character. *)
Lemma goalPatterns_width R : R ∈ goalPatterns -> 1 <= min_width (source R).
Proof. intros HR. repeat (apply elem_of_cons in HR as [->|HR]; [simpl; lia|]). set_solver. Qed.

(** Every goal pattern is a fresh [/.../gi] object. *)
Lemma goalPatterns_flags R :
  R ∈ goalPatterns -> global R = true /\ ignoreCase R = true /\ lastIndex R = 0.
Proof. intros HR. repeat (apply elem_of_cons in HR as [->|HR]; [done|]). set_solver. Qed.

Lemma goalPatterns_shape R :
  R ∈ goalPatterns -> global R = true /\ ignoreCase R = true /\ lastIndex R = 0 /\
  1 <= min_width (source R).
Proof. intros HR. pose proof (goalPatterns_width R HR). by destruct (goalPatterns_flags R HR) as (-> & -> & ->). Qed.

(** The loop body is the dedup step applied to the candidate goal. *)
Lemma detect_step_dedup transcript entryId st m :
  detect_step transcript entryId st m =
  match candidate transcript entryId m with
  | Some g => dedup_step goal_key st g
  | None => st
  end.
Proof.
  unfold detect_step, candidate. destruct (task_text_of m) as [t|]; [|done].
  by destruct (String.eqb t "").
Qed.

Lemma fold_detect_step transcript entryId ms st :
  fold_left (detect_step transcript entryId) ms st =
  fold_left (dedup_step goal_key) (omap (candidate transcript entryId) ms) st.
Proof.
  revert st. induction ms as [|m ms IH]; intros st; [done|]. simpl.
  rewrite detect_step_dedup. destruct (candidate transcript entryId m); simpl; apply IH.
Qed.

Lemma run_pattern_fold transcript entryId st R :
  run_pattern transcript entryId st R =
  fold_left (detect_step transcript entryId) (pattern_matches transcript R) st.
Proof. unfold run_pattern, pattern_matches. by destruct (exec_loop _ _ _) as [[ms ?]|]. Qed.

Lemma fold_run_patterns transcript entryId pats st :
  fold_left (run_pattern transcript entryId) pats st =
  fold_left (dedup_step goal_key)
    (omap (candidate transcript entryId) (concat (map (pattern_matches transcript) pats))) st.
Proof.
  revert st. induction pats as [|R pats IH]; intros st; [done|]. simpl.
  rewrite IH, run_pattern_fold, fold_detect_step, omap_app, fold_left_app. done.
Qed.

(** A match of a goal pattern is never empty. *)
Lemma pattern_matches_nonempty transcript R m :
  R ∈ goalPatterns -> m ∈ pattern_matches transcript R -> mr_text m <> "".
Proof.
  intros HR Hm. pose proof (goalPatterns_width R HR) as Hw.
  unfold pattern_matches in Hm. destruct (exec_loop _ R transcript) as [[ms R']|] eqn:E;
    [|set_solver].
  pose proof (exec_loop_sound _ _ _ _ _ _ (groups_ok_True _ _) E) as Hall.
  rewrite Forall_forall in Hall.
  destruct (Hall m Hm) as (pre & post & _ & _ & _ & L & _).
  apply in_lang_min_width in L. intros Ht. rewrite Ht in L. simpl in L. lia.
Qed.

(** A match the loop visits sits at its index in the transcript. *)
Lemma pattern_matches_at transcript R m :
  m ∈ pattern_matches transcript R ->
  exists pre post, transcript = pre +:+ mr_text m +:+ post /\ String.length pre = mr_index m.
Proof.
  unfold pattern_matches. destruct (exec_loop _ R transcript) as [[ms R']|] eqn:E; [|set_solver].
  intros Hm. pose proof (exec_loop_sound _ _ _ _ _ _ (groups_ok_True _ _) E) as Hall.
  rewrite Forall_forall in Hall. destruct (Hall m Hm) as (pre & post & Ht & Hl & _). eauto.
Qed.

(** The loop only ever adds candidate goals, whatever its guard. *)
Lemma detect_step_incl transcript entryId st m g :
  g ∈ (detect_step transcript entryId st m).1 ->
  g ∈ st.1 \/ candidate transcript entryId m = Some g.
Proof.
  unfold detect_step, candidate. destruct (task_text_of m) as [t|]; [|auto].
  destruct (String.eqb t ""); [auto|]. case_decide; [auto|]. simpl.
  rewrite elem_of_app, list_elem_of_singleton. intros [Hg | ->]; auto.
Qed.

Lemma fold_detect_step_incl transcript entryId ms st g :
  g ∈ (fold_left (detect_step transcript entryId) ms st).1 ->
  g ∈ st.1 \/ exists m, m ∈ ms /\ candidate transcript entryId m = Some g.
Proof.
  revert st. induction ms as [|m ms IH]; intros st Hg; simpl in Hg; [auto|].
  apply IH in Hg as [Hg|(m' & Hm & Hc)]; [|right; exists m'; set_solver].
  apply detect_step_incl in Hg as [Hg|Hc]; [auto|right; exists m; set_solver].
Qed.

Lemma fold_run_patterns_incl transcript entryId pats st g :
  g ∈ (fold_left (run_pattern transcript entryId) pats st).1 ->
  g ∈ st.1 \/ exists R m, R ∈ pats /\ m ∈ pattern_matches transcript R /\
                         candidate transcript entryId m = Some g.
Proof.
  revert st. induction pats as [|R pats IH]; intros st Hg; simpl in Hg; [auto|].
  apply IH in Hg as [Hg|(R' & m & HR & Hm & Hc)]; [|right; exists R', m; set_solver].
  rewrite run_pattern_fold in Hg.
  apply fold_detect_step_incl in Hg as [Hg|(m & Hm & Hc)]; [auto|].
  right. exists R, m. set_solver.
Qed.

(** [match[1]?.trim() || match[2]?.trim()] is a trimmed string. *)
Lemma or_trimmed_trim a b t : or_trimmed a b = Some t -> trim t = t.
Proof.
  unfold or_trimmed. intros H.
  destruct a as [x|]; simpl in H; [destruct (String.eqb (trim x) "")|];
    try (destruct b as [y|]; simpl in H; [|done]); invc H; apply trim_idem.
Qed.

(** The task text is one of the two captures, trimmed. *)
Lemma or_trimmed_from a b t :
  or_trimmed a b = Some t -> exists w, (a = Some w \/ b = Some w) /\ t = trim w.
Proof.
  unfold or_trimmed. intros H.
  destruct a as [x|]; simpl in H; [destruct (String.eqb (trim x) "")|];
    try (destruct b as [y|]; simpl in H; [|done]); invc H; eauto.
Qed.

(** A candidate's task text is a trimmed substring of the transcript
    when the match's captures are. *)
Lemma candidate_in_transcript transcript entryId m g :
  caps_in transcript (mr_captures m) -> candidate transcript entryId m = Some g ->
  exists pre w post, transcript = pre +:+ w +:+ post /\ task_text g = trim w.
Proof.
  unfold candidate, task_text_of. intros Hc H.
  destruct (or_trimmed (group m 1) (group m 2)) as [t|] eqn:Et; [|done].
  destruct (String.eqb t ""); [done|]. invc H. simpl.
  destruct (or_trimmed_from _ _ _ Et) as (w & Hw & ->).
  assert (Hin : infix_of w transcript).
  { destruct Hw as [Hw|Hw]; unfold group in Hw; simpl in Hw;
      exact (caps_ok_lookup (fun _ w => infix_of w transcript) _ _ _ Hc Hw). }
  destruct Hin as (pre & post & ->). by exists pre, w, post.
Qed.

(** Every match the loop of a pattern visits has its captures in the
    transcript. *)
Lemma pattern_matches_caps_in transcript R m :
  m ∈ pattern_matches transcript R -> caps_in transcript (mr_captures m).
Proof.
  unfold pattern_matches. destruct (exec_loop _ R transcript) as [[ms R']|] eqn:E; [|set_solver].
  intros Hm. apply exec_loop_caps_in in E. rewrite Forall_forall in E. by apply E.
Qed.

(** What every candidate goal satisfies. *)
Lemma candidate_ok transcript entryId m g :
  mr_text m <> "" -> candidate transcript entryId m = Some g ->
  source_entry_id g = entryId /\ status g = pending /\ task_text g <> "" /\
  trim (task_text g) = task_text g /\
  due_date g = extractDueDate transcript /\ in_unit (confidence g).
Proof.
  unfold candidate. intros Hm H. destruct (task_text_of m) as [t|] eqn:Et; [|done].
  destruct (String.eqb_spec t ""); [done|]. invc H. simpl.
  repeat split; auto.
  - by apply (or_trimmed_trim (group m 1) (group m 2)).
  - apply calculateConfidence_range. by left.
Qed.

(** [detectGoals] as [keep_first] over the candidate goals. *)
Lemma detectGoals_keep_first transcript entryId :
  detectGoals transcript entryId =
  keep_first goal_key []
    (omap (candidate transcript entryId)
       (concat (map (pattern_matches transcript) goalPatterns))).
Proof.
  unfold detectGoals. rewrite fold_run_patterns.
  change (∅ : gset string) with (list_to_set (@nil string) : gset string).
  by rewrite dedup_fold_keep_first.
Qed.

(** ** Theorems *)

(** C5: Every [exec] loop of [detectGoals] ends within the fuel given: it
    reaches the [null] result, which resets [lastIndex] to 0. So the
    [None] branch of [run_pattern] is never taken. *)
Theorem detect_loops_terminate transcript R :
  R ∈ goalPatterns ->
  exists ms R', exec_loop (loop_fuel transcript) R transcript = Some (ms, R') /\
                lastIndex R' = 0.
Proof.
  intros HR. destruct (goalPatterns_shape R HR) as (Hg & _ & Hli & Hw).
  apply exec_loop_terminates; [done|lia|]. unfold loop_fuel. lia.
Qed.

Lemma detect_loops_terminate_witness :
  regexp_literal goal_pattern_1 true true ∈ goalPatterns /\
  exists ms R', exec_loop (loop_fuel "I want to run. I plan to swim")
                  (regexp_literal goal_pattern_1 true true) "I want to run. I plan to swim"
                = Some (ms, R') /\ lastIndex R' = 0.
Proof.
  assert (H : regexp_literal goal_pattern_1 true true ∈ goalPatterns)
    by (apply list_elem_of_In; simpl; left; reflexivity).
  split; [exact H|]. exact (detect_loops_terminate _ _ H).
Defined.


(** Every goal's task text is a trimmed piece of the transcript: the
    text of a capture group of some match, with white space removed at
    both ends. *)
Lemma detectGoals_task_infix transcript entryId g :
  g ∈ detectGoals transcript entryId ->
  exists pre w post, transcript = pre +:+ w +:+ post /\ task_text g = trim w.
Proof.
  unfold detectGoals. intros Hg.
  apply fold_run_patterns_incl in Hg as [Hg|(R & m & HR & Hm & Hc)]; [set_solver|].
  apply (candidate_in_transcript transcript entryId m); [|done].
  by apply (pattern_matches_caps_in transcript R).
Qed.

(** C4: The loop with [seenTasks] computes the reference. Take the candidate
    goals of every match, in pattern order then match order, and keep
    the first goal of each lower-cased task text. *)
Theorem detectGoals_reference transcript entryId :
  detectGoals transcript entryId = detect_reference transcript entryId.
Proof.
  unfold detectGoals, detect_reference. rewrite fold_run_patterns.
  change (∅ : gset string) with (list_to_set (@nil string) : gset string).
  by rewrite dedup_fold_keep_first.
Qed.

(** C6: Within one call no two goals have the same lower-cased task text. *)
Theorem detectGoals_nodup transcript entryId :
  NoDup (map goal_key (detectGoals transcript entryId)).
Proof. rewrite detectGoals_keep_first. apply keep_first_nodup. Qed.

(** Every goal of [detectGoals transcript entryId] belongs to [entryId],
    is pending, has a non-empty trimmed task text, carries the transcript's due
    date, and has a finite confidence in [[0, 1]]. *)
Theorem detectGoals_goal_ok transcript entryId g :
  g ∈ detectGoals transcript entryId ->
  source_entry_id g = entryId /\ status g = pending /\ task_text g <> "" /\
  trim (task_text g) = task_text g /\ due_date g = extractDueDate transcript /\ in_unit (confidence g).
Proof.
  unfold detectGoals. intros Hg.
  apply fold_run_patterns_incl in Hg as [Hg|(R & m & HR & Hm & Hc)]; [set_solver|].
  apply candidate_ok with (m := m); [|done].
  by apply (pattern_matches_nonempty transcript R).
Qed.

(** [detectGoals] implements the interface [processEntries] relies on. *)
#[export] Instance detectGoals_detector : GoalDetector detectGoals.
Proof.
  split; intros t i g Hg;
    first [apply (detectGoals_goal_ok t i g Hg) | apply (detectGoals_task_infix t i g Hg)].
Qed.

(** C29: The position the score uses (sampleService.ts, line 106) is
    the first occurrence of the matched text, found again with [indexOf]:
    at or before the match the loop visited, and equal to it exactly when
    the text does not occur earlier in the transcript. The score is the
    reference [confidence_at] taken at that first occurrence. *)
Theorem confidence_position_first t R m :
  m ∈ pattern_matches t R ->
  exists k, indexOf t (mr_text m) = Z.of_nat k /\
    calculateConfidence (mr_text m) t = confidence_at (Z.of_nat k) (mr_text m) t /\
    k <= mr_index m /\
    (k = mr_index m <->
     forall pre post, t = pre +:+ mr_text m +:+ post -> mr_index m <= String.length pre).
Proof.
  intros Hm. destruct (pattern_matches_at t R m Hm) as (pre0 & post0 & Ht & Hl).
  destruct (index_of_complete (mr_text m) pre0 post0) as (k & Ek & Hk). rewrite <- Ht in Ek.
  assert (Ei : indexOf t (mr_text m) = Z.of_nat k) by (unfold indexOf; by rewrite Ek).
  exists k. split; [done|]. split; [unfold calculateConfidence, confidence_at; by rewrite Ei|].
  split; [lia|]. split.
  - intros Heq pre post Hd. destruct (index_of_complete (mr_text m) pre post) as (k' & Ek' & Hk').
    rewrite <- Hd, Ek in Ek'. injection Ek' as <-. lia.
  - intros H. destruct (index_of_sound _ _ _ Ek) as (pre & post & Hd & Hpl).
    specialize (H pre post Hd). lia.
Qed.

Lemma confidence_position_first_witness :
  let t := "must should run. should run" in
  let R := regexp_literal goal_pattern_2 true true in
  let m := nth 1 (pattern_matches t R) (MatchResult 0 0 "" []) in
  m ∈ pattern_matches t R /\
  exists k, indexOf t (mr_text m) = Z.of_nat k /\
    calculateConfidence (mr_text m) t = confidence_at (Z.of_nat k) (mr_text m) t /\
    k <= mr_index m /\
    (k = mr_index m <->
     forall pre post, t = pre +:+ mr_text m +:+ post -> mr_index m <= String.length pre).
Proof.
  intros t R m.
  assert (Hm : m ∈ pattern_matches t R) by (vm_compute; right; left).
  split; [exact Hm|]. exact (confidence_position_first t R m Hm).
Defined.

(** The quirk on one transcript. In ["must should run. should run"] the
    [should] pattern matches at 0 and at 17. The goal [run] comes from the
    match at 17. Its score is computed at index 5, where ["should run"]
    first occurs inside the earlier match, and it is higher than the
    score at its own position. *)
Example confidence_position_quirk :
  let t := "must should run. should run" in
  map (fun m => (mr_index m, mr_text m))
      (pattern_matches t (regexp_literal goal_pattern_2 true true)) =
    [(0, "must should run"); (17, "should run")] /\
  map task_text (detectGoals t "e") = ["should run"; "run"] /\
  indexOf t "should run" = 5%Z /\
  map confidence (detectGoals t "e") =
    [confidence_at 0 "must should run" t; confidence_at 5 "should run" t] /\
  confidence_at 5 "should run" t = Num (QArith_base.Qmake 220 540) /\
  confidence_at 17 "should run" t = Num (QArith_base.Qmake 100 540).
Proof. repeat split; vm_compute; reflexivity. Qed.

(** C10: Completeness of the loops of [detectGoals]: the loop of a goal
    pattern visits at least one match as soon as the transcript holds a
    word of the pattern's language, wherever it sits. *)
Theorem pattern_matches_found pre w post R :
  R ∈ goalPatterns -> in_lang true (source R) w ->
  pattern_matches (pre +:+ w +:+ post) R <> [].
Proof.
  intros HR L. destruct (goalPatterns_shape R HR) as (Hg & Hic & Hli & Hw).
  rewrite <- Hic in L.
  destruct (exec_complete R pre w post L) as (m & R' & E & _); [rewrite Hg, Hli; lia|].
  destruct (exec_loop_terminates R (pre +:+ w +:+ post) (loop_fuel (pre +:+ w +:+ post)))
    as (ms & R2 & E2 & _); [done|lia|unfold loop_fuel; lia|].
  unfold pattern_matches. rewrite E2. unfold loop_fuel in E2. simpl in E2. rewrite E in E2.
  destruct (exec_loop _ R' _) as [[ms' ?]|]; [|done]. by injection E2 as <- _.
Qed.

Lemma pattern_matches_found_witness :
  regexp_literal goal_pattern_1 true true ∈ goalPatterns /\
  in_lang true (source (regexp_literal goal_pattern_1 true true)) "want to run" /\
  pattern_matches ("Today I " +:+ "want to run" +:+ ". Later")
    (regexp_literal goal_pattern_1 true true) <> [].
Proof.
  assert (HR : regexp_literal goal_pattern_1 true true ∈ goalPatterns)
    by (apply list_elem_of_In; simpl; left; reflexivity).
  assert (L : in_lang true (source (regexp_literal goal_pattern_1 true true)) "want to run")
    by (apply full_match_sound; vm_compute; reflexivity).
  split; [exact HR|]. split; [exact L|]. exact (pattern_matches_found _ _ _ _ HR L).
Defined.

(** C13: [detectGoals] returns no goal exactly when every match the four
    loops visit gives a falsy task text: [undefined] or [""] after
    [trim]. *)
Theorem detectGoals_nil_iff transcript entryId :
  detectGoals transcript entryId = [] <->
  forall R m, R ∈ goalPatterns -> m ∈ pattern_matches transcript R ->
    match task_text_of m with Some s => s = "" | None => True end.
Proof.
  rewrite detectGoals_keep_first, keep_first_nil, omap_nil. split.
  - intros H R m HR Hm.
    assert (Hin : m ∈ concat (map (pattern_matches transcript) goalPatterns)).
    { apply list_elem_of_In, in_concat. exists (pattern_matches transcript R).
      split; [apply in_map; by apply list_elem_of_In|by apply list_elem_of_In]. }
    specialize (H m Hin).
    unfold candidate in H. destruct (task_text_of m) as [s|]; [|done].
    by destruct (String.eqb_spec s "").
  - intros H m Hm. apply list_elem_of_In, in_concat in Hm as (ms & Hms & Hm).
    apply in_map_iff in Hms as (R & <- & HR).
    apply list_elem_of_In in HR, Hm. specialize (H R m HR Hm).
    unfold candidate. destruct (task_text_of m) as [s|]; [|done].
    subst. done.
Qed.

End Detect.
