(* ===== verification/Process.v ===== *)
(** * [processEntries] (sampleService.ts, lines 130-164)

    The function threads two accumulators through the entries: the
    object [tagFrequencies] and the array [detectedGoals]. For each entry
    it first counts its [tags_user]. It then runs the detector on
    [transcript_raw] and on [transcript_user] and appends the goals whose
    lower-cased task text is new to a [Set] created for that entry. The
    summary string reports both lengths.

    The model is generic in the detector: [process_entries_with detect],
    and [processEntries] is its instance at [Detect.detectGoals]. The
    theorems about goals use only the interface [Types.GoalDetector]. The
    abstract specification [process_reference] says the result is the
    per-entry [keep_first] of the detector's goals, concatenated in entry
    order. The tag counts are exact for every key that [Object.prototype]
    does not define, and lie between 1 and the number of tags. *)

From S2P Require Import Prelude JsString JsObject JsNumber Types Detect.
From Stdlib Require Import ZArith.

Module Process.
Import JsString JsObject JsNumber Types Detect.

(** [tagFrequencies[tag] = (tagFrequencies[tag] || 0) + 1] (line 138). *)
Definition count_tag (freq : gmap string js_value) (tag : string) : gmap string js_value :=
  set freq tag (add_one (js_or (get freq tag) (JSNumber 0))).

(** The two accumulators: [tagFrequencies] and [detectedGoals]. *)
Definition proc_state : Type := gmap string js_value * list DetectedGoal.

Section WithDetector.
Context (detect : string -> string -> list DetectedGoal).

(** The body of [for (const entry of entries)], lines 137-153: count
    the tags, then push the goals of both transcripts whose key is new
    to this entry's [seenTasks]. *)
Definition process_entry (st : proc_state) (entry : Entry.VoiceEntry) : proc_state :=
  let freq := fold_left count_tag (Entry.tags_user entry) st.1 in
  let goals := detect (Entry.transcript_raw entry) (Entry.id entry) ++
               detect (Entry.transcript_user entry) (Entry.id entry) in
  (freq, (fold_left (dedup_step goal_key) goals (st.2, ∅)).1).

Definition process_entries_with (entries : list Entry.VoiceEntry) : ProcessedResult :=
  let st := fold_left process_entry entries (∅, []) in
  {| summary := "Analyzed " +:+ number_to_string (length entries) +:+
                " entries and detected " +:+ number_to_string (length st.2) +:+ " goals";
     tagFrequencies := st.1;
     detectedGoals := st.2 |}.

(** The abstract specification of [detectedGoals]: each entry
    contributes the first goal of each key among its raw goals then its
    user goals. *)
Definition entry_goals (entry : Entry.VoiceEntry) : list DetectedGoal :=
  keep_first goal_key []
    (detect (Entry.transcript_raw entry) (Entry.id entry) ++
     detect (Entry.transcript_user entry) (Entry.id entry)).

Definition process_reference (entries : list Entry.VoiceEntry) : list DetectedGoal :=
  concat (map entry_goals entries).
End WithDetector.

(** [export function processEntries]. *)
Definition processEntries (entries : list Entry.VoiceEntry) : ProcessedResult :=
  process_entries_with detectGoals entries.

(** All tag occurrences of a batch, in the order they are counted. *)
Definition all_tags (entries : list Entry.VoiceEntry) : list string :=
  concat (map Entry.tags_user entries).

(** How many times [k] occurs in [tags]. *)
Definition occurrences (k : string) (tags : list string) : nat :=
  count_occ String.string_dec tags k.

(** The own property a count of [c] leaves: none for 0, else the number. *)
Definition count_property (c : nat) : option js_value :=
  if Nat.eqb c 0 then None else Some (JSNumber (Z.of_nat c)).

(** The sum of the numeric values of an object's own properties. *)
Definition number_total (m : gmap string js_value) : Z :=
  map_fold (fun _ v acc => match v with JSNumber n => (n + acc)%Z | _ => acc end) 0%Z m.

(** ** Lemmas: the two accumulators *)

Section Folds.
Context (detect : string -> string -> list DetectedGoal).

Lemma process_fold_goals entries freq acc :
  (fold_left (process_entry detect) entries (freq, acc)).2 =
  acc ++ process_reference detect entries.
Proof.
  revert freq acc. induction entries as [|e entries IH]; intros freq acc; simpl.
  - by rewrite app_nil_r.
  - destruct (process_entry detect (freq, acc) e) as [freq' acc'] eqn:E.
    rewrite IH. unfold process_entry in E. simpl in E. injection E as _ <-.
    rewrite (dedup_fold_keep_first goal_key _ _ []). by rewrite <- app_assoc.
Qed.

Lemma process_fold_tags entries freq acc :
  (fold_left (process_entry detect) entries (freq, acc)).1 =
  fold_left count_tag (all_tags entries) freq.
Proof.
  revert freq acc. induction entries as [|e entries IH]; intros freq acc; [done|].
  simpl. destruct (process_entry detect (freq, acc) e) as [freq' acc'] eqn:E.
  rewrite IH. unfold process_entry in E. simpl in E. injection E as <- _.
  unfold all_tags. simpl. by rewrite fold_left_app.
Qed.
End Folds.

(** [(x || 0) + 1] on a count and on [undefined]. *)
Lemma increment_number n : add_one (js_or (JSNumber n) (JSNumber 0)) = JSNumber (n + 1).
Proof. unfold js_or, truthy. by destruct (Z.eqb_spec n 0) as [->|]. Qed.

Lemma increment_undefined : add_one (js_or JSUndefined (JSNumber 0)) = JSNumber 1.
Proof. reflexivity. Qed.

(** One count on a plain key: the property goes from [c] to [c + 1] on
    that key and is unchanged on the others. *)
Lemma count_tag_property freq tag k c :
  plain_key k -> freq !! k = count_property c ->
  count_tag freq tag !! k = count_property (c + if String.eqb tag k then 1 else 0).
Proof.
  intros Hk Hc. destruct (String.eqb_spec tag k) as [<-|Hne].
  - unfold count_tag. rewrite lookup_set_plain by done.
    unfold count_property in *. destruct (Nat.eqb_spec c 0) as [Hc0|Hc0].
    + subst c. by rewrite get_absent.
    + rewrite (get_own _ _ _ Hc), increment_number.
      destruct (Nat.eqb_spec (c + 1) 0); [lia|]. do 2 f_equal. lia.
  - unfold count_tag. rewrite lookup_set_ne by done. by rewrite Nat.add_0_r.
Qed.

Lemma fold_count_tag_property tags freq k c :
  plain_key k -> freq !! k = count_property c ->
  fold_left count_tag tags freq !! k = count_property (c + occurrences k tags).
Proof.
  revert freq c. induction tags as [|t tags IH]; intros freq c Hk Hc; simpl.
  - by rewrite Nat.add_0_r.
  - rewrite (IH _ (c + if String.eqb t k then 1 else 0)); [|done|by apply count_tag_property].
    f_equal. unfold occurrences. simpl.
    destruct (String.eqb_spec t k), (String.string_dec t k); simpl; try congruence; lia.
Qed.

(** [number_total] on an insert, on a key that held a number or nothing. *)
Lemma number_total_insert m k n :
  number_total (<[k := JSNumber n]> m) = (n + number_total (delete k m))%Z.
Proof.
  unfold number_total. rewrite <- insert_delete_eq.
  rewrite map_fold_insert_L; [done| |by rewrite lookup_delete_eq].
  intros j1 j2 [] [] y; intros; lia.
Qed.

Lemma number_total_delete m k n :
  m !! k = Some (JSNumber n) -> number_total m = (n + number_total (delete k m))%Z.
Proof.
  intros H. unfold number_total. rewrite (map_fold_delete_L _ _ k (JSNumber n) m); [done| |done].
  intros j1 j2 [] [] y; intros; lia.
Qed.

(** Every own property at a plain key holds a number. *)
Definition numeric (m : gmap string js_value) : Prop :=
  map_Forall (fun _ v => exists n, v = JSNumber n) m.

Lemma count_tag_total freq tag :
  plain_key tag -> numeric freq ->
  numeric (count_tag freq tag) /\ number_total (count_tag freq tag) = (number_total freq + 1)%Z.
Proof.
  intros Hk Hnum. unfold count_tag.
  destruct (freq !! tag) as [v|] eqn:E.
  - destruct (Hnum tag v E) as [n ->]. rewrite (get_own _ _ _ E). unfold set. rewrite E.
    rewrite increment_number. split.
    + apply map_Forall_insert_2; eauto.
    + rewrite number_total_insert, (number_total_delete freq tag n E). lia.
  - rewrite get_absent, increment_undefined by done.
    unfold set. rewrite E, decide_False by (destruct Hk; done). split.
    + apply map_Forall_insert_2; eauto.
    + rewrite number_total_insert, delete_id by done. lia.
Qed.

Lemma fold_count_tag_total tags freq :
  Forall plain_key tags -> numeric freq ->
  number_total (fold_left count_tag tags freq) = (number_total freq + Z.of_nat (length tags))%Z.
Proof.
  revert freq. induction tags as [|t tags IH]; intros freq Hall Hnum; simpl; [lia|].
  invc Hall. destruct (count_tag_total freq t) as [Hn Ht]; [done|done|].
  rewrite IH, Ht by done. lia.
Qed.

(** ** The summary string *)

Fixpoint strip_prefix (p s : string) : option string :=
  match p, s with
  | EmptyString, _ => Some s
  | String a p', String b s' => if ascii_dec a b then strip_prefix p' s' else None
  | String _ _, EmptyString => None
  end.

(** The longest prefix of decimal digits, and the rest. *)
Fixpoint span_digits (s : string) : string * string :=
  match s with
  | String c s' =>
      if is_digit c then let '(d, r) := span_digits s' in (String c d, r) else ("", s)
  | EmptyString => ("", "")
  end.

(** Read the two counts back from ["Analyzed {n} entries and detected {m} goals"]. *)
Definition parse_summary (s : string) : option (nat * nat) :=
  s1 ← strip_prefix "Analyzed " s;
  let '(d1, r1) := span_digits s1 in
  s2 ← strip_prefix " entries and detected " r1;
  let '(d2, r2) := span_digits s2 in
  if String.eqb r2 " goals" then
    n1 ← string_to_number d1; n2 ← string_to_number d2; Some (n1, n2)
  else None.

Lemma strip_prefix_app p s : strip_prefix p (p +:+ s) = Some s.
Proof.
  induction p as [|a p IH]; [by destruct s|]. simpl. by destruct (ascii_dec a a).
Qed.

(** [r] does not start with a digit. *)
Definition digit_free_start (r : string) : bool :=
  match r with
  | String c _ => negb (is_digit c)
  | EmptyString => true
  end.

Lemma span_digits_app d r :
  chars_all is_digit d = true -> digit_free_start r = true ->
  span_digits (d +:+ r) = (d, r).
Proof.
  intros Hd Hr. induction d as [|a d IH]; simpl.
  - destruct r as [|c r]; [done|]. simpl in *. by destruct (is_digit c).
  - simpl in Hd. apply andb_true_iff in Hd as [Ha Hd]. rewrite Ha, IH by done. done.
Qed.

(** ** Theorems *)

Section Theorems.
Context (detect : string -> string -> list DetectedGoal).

(** The loop with a [Set] per entry computes the abstract
    specification, for any detector. *)
Lemma process_refines entries :
  detectedGoals (process_entries_with detect entries) = process_reference detect entries.
Proof. apply (process_fold_goals detect entries ∅ []). Qed.

(** Against the interface: every goal of the result comes from an
    input entry, is pending, has a non-empty trimmed task text, and has a
    confidence in [[0, 1]]. *)
Lemma process_goals_ok `{!GoalDetector detect} entries :
  Forall (fun g => (exists e, e ∈ entries /\ source_entry_id g = Entry.id e) /\
                   status g = pending /\ task_text g <> "" /\
                   trim (task_text g) = task_text g /\ in_unit (confidence g))
    (detectedGoals (process_entries_with detect entries)).
Proof.
  rewrite process_refines. unfold process_reference. apply Forall_forall.
  intros g Hg. apply list_elem_of_In, in_concat in Hg as (gs & Hgs & Hg).
  apply in_map_iff in Hgs as (e & <- & He). apply list_elem_of_In in Hg.
  apply (fun H => elem_of_sublist _ _ _ H (keep_first_sublist _ _ _)) in Hg.
  apply list_elem_of_In in He.
  apply elem_of_app in Hg as [Hg|Hg];
    (split; [exists e; split; [done|by eapply detect_source]|]);
    (split; [by eapply detect_pending|]);
    (split; [by eapply detect_task_nonempty|]);
    (split; [by eapply detect_task_trimmed|by eapply detect_confidence]).
Qed.

(** The summary reads back as the number of entries and of goals. *)
Lemma process_summary_roundtrip entries :
  parse_summary (summary (process_entries_with detect entries)) =
  Some (length entries, length (detectedGoals (process_entries_with detect entries))).
Proof.
  unfold process_entries_with. cbn [summary detectedGoals].
  generalize (length (fold_left (process_entry detect) entries (∅, [])).2) as m.
  intros m. unfold parse_summary. rewrite strip_prefix_app.
  cbn -[span_digits strip_prefix number_to_string string_to_number String.append].
  rewrite span_digits_app by (apply number_to_string_digits || reflexivity).
  rewrite strip_prefix_app.
  cbn -[span_digits strip_prefix number_to_string string_to_number String.append].
  rewrite span_digits_app by (apply number_to_string_digits || reflexivity).
  cbn -[number_to_string string_to_number].
  by rewrite !number_to_string_roundtrip.
Qed.
(** Against the interface: the task text of every goal is a trimmed
    piece of a transcript of the entry the goal names. *)
Lemma process_task_in_entry `{!GoalDetector detect} entries g :
  g ∈ detectedGoals (process_entries_with detect entries) ->
  exists e, e ∈ entries /\ source_entry_id g = Entry.id e /\
    exists pre w post,
      (Entry.transcript_raw e = pre +:+ w +:+ post \/
       Entry.transcript_user e = pre +:+ w +:+ post) /\ task_text g = trim w.
Proof.
  rewrite process_refines. unfold process_reference.
  intros Hg. apply list_elem_of_In, in_concat in Hg as (gs & Hgs & Hg).
  apply in_map_iff in Hgs as (e & <- & He). apply list_elem_of_In in Hg, He.
  apply (fun H => elem_of_sublist _ _ _ H (keep_first_sublist _ _ _)) in Hg.
  exists e. split; [done|].
  apply elem_of_app in Hg as [Hg|Hg]; (split; [by eapply detect_source|]);
    destruct (detect_task_infix _ _ _ Hg) as (pre & w & post & Ht & Hw);
    exists pre, w, post; auto.
Qed.
End Theorems.

(** A count on any tag leaves [__proto__] without an own property. *)
Lemma count_tag_proto freq tag :
  freq !! "__proto__" = None -> count_tag freq tag !! "__proto__" = None.
Proof.
  intros H. destruct (decide (tag = "__proto__")) as [->|Hne].
  - unfold count_tag. by rewrite set_proto.
  - unfold count_tag. by rewrite lookup_set_ne.
Qed.

(** The own property [toString] holds a non-empty string. *)
Definition toString_is_string (freq : gmap string js_value) : Prop :=
  exists s, freq !! "toString" = Some (JSString s) /\ s <> "".

(** The value a [toString] tag leaves: once the inherited method is read
    and [+ 1] concatenates, the property is a string and stays one. *)
Lemma count_tag_toString freq tag :
  freq !! "toString" = None \/ toString_is_string freq ->
  (count_tag freq tag !! "toString" = None /\ tag <> "toString") \/
  toString_is_string (count_tag freq tag).
Proof.
  intros Hf. unfold toString_is_string.
  destruct (decide (tag = "toString")) as [->|Hne].
  - right. unfold count_tag, set, get. destruct Hf as [->|(s & -> & Hs)].
    + rewrite decide_False by done. rewrite lookup_insert_eq. by eexists.
    + rewrite lookup_insert_eq. unfold js_or, truthy.
      destruct (String.eqb_spec s ""); [done|]. simpl. eexists. split; [done|].
      by destruct s.
  - unfold count_tag. rewrite lookup_set_ne by done.
    destruct Hf as [->|(s & -> & Hs)]; [left; done|right; eauto].
Qed.

(** ** Theorems on [processEntries] *)

(** C1: [detectedGoals] is the abstract specification: per entry, the first
    goal of each lower-cased task text among the raw then the user
    transcript's goals, concatenated in entry order. Repeats are removed
    within an entry, never across entries. *)
Theorem processEntries_refines entries :
  detectedGoals (processEntries entries) = concat (map (entry_goals detectGoals) entries).
Proof. apply (process_fold_goals detectGoals entries ∅ []). Qed.

(** C2: [tagFrequencies[k]] counts the occurrences of [k] among all tags,
    for every key [k] that [Object.prototype] does not define. *)
Theorem processEntries_tag_count entries k :
  plain_key k ->
  tagFrequencies (processEntries entries) !! k = count_property (occurrences k (all_tags entries)).
Proof.
  intros Hk. unfold processEntries, process_entries_with. cbn [tagFrequencies].
  rewrite process_fold_tags. apply (fold_count_tag_property _ _ _ 0); done.
Qed.

Lemma processEntries_tag_count_witness :
  plain_key "health" /\
  tagFrequencies (processEntries [(Entry.mkVoiceEntry "e1" "u1" None "" "" "en" "en" [] ["health"; "work"; "health"] None "" "" None None)]) !! "health" =
  count_property (occurrences "health" (all_tags [(Entry.mkVoiceEntry "e1" "u1" None "" "" "en" "en" [] ["health"; "work"; "health"] None "" "" None None)])).
Proof.
  assert (Hk : plain_key "health") by (apply (bool_decide_unpack _); vm_compute; reflexivity).
  split; [exact Hk|]. apply processEntries_tag_count, Hk.
Defined.


(** C3: Every detected goal comes from an input entry, is pending, has a
    non-empty trimmed task text and a finite confidence in [[0, 1]]. *)
Theorem processEntries_goals_ok entries :
  Forall (fun g => (exists e, e ∈ entries /\ source_entry_id g = Entry.id e) /\
                   status g = pending /\ task_text g <> "" /\
                   trim (task_text g) = task_text g /\ in_unit (confidence g))
    (detectedGoals (processEntries entries)).
Proof. apply process_goals_ok, _. Qed.

(** C18: Deduplication only removes goals: [detectedGoals] is no longer
    than all the goals [detectGoals] returns on both transcripts of every
    entry. *)
Theorem processEntries_goals_bounded entries :
  length (detectedGoals (processEntries entries)) <=
  sum_list_with (fun e => length (detectGoals (Entry.transcript_raw e) (Entry.id e) ++
                                  detectGoals (Entry.transcript_user e) (Entry.id e))) entries.
Proof.
  unfold processEntries, process_entries_with. cbn [detectedGoals].
  rewrite (process_fold_goals detectGoals entries ∅ []). unfold process_reference. simpl.
  induction entries as [|e es IH]; [done|]. simpl. rewrite length_app.
  assert (length (entry_goals detectGoals e) <=
          length (detectGoals (Entry.transcript_raw e) (Entry.id e) ++
                  detectGoals (Entry.transcript_user e) (Entry.id e)))
    by apply sublist_length, keep_first_sublist.
  lia.
Qed.

(** C16: When no tag is a key of [Object.prototype], the counts add up to the
    number of tag occurrences. *)
Theorem processEntries_tag_total entries :
  Forall plain_key (all_tags entries) ->
  number_total (tagFrequencies (processEntries entries)) = Z.of_nat (length (all_tags entries)).
Proof.
  intros Hall. unfold processEntries, process_entries_with. cbn [tagFrequencies].
  rewrite process_fold_tags, fold_count_tag_total; [done|done|apply map_Forall_empty].
Qed.

Lemma processEntries_tag_total_witness :
  Forall plain_key (all_tags [(Entry.mkVoiceEntry "e1" "u1" None "" "" "en" "en" [] ["health"; "work"; "health"] None "" "" None None)]) /\
  number_total (tagFrequencies (processEntries [(Entry.mkVoiceEntry "e1" "u1" None "" "" "en" "en" [] ["health"; "work"; "health"] None "" "" None None)])) =
  Z.of_nat (length (all_tags [(Entry.mkVoiceEntry "e1" "u1" None "" "" "en" "en" [] ["health"; "work"; "health"] None "" "" None None)])).
Proof.
  assert (Hk : Forall plain_key (all_tags [(Entry.mkVoiceEntry "e1" "u1" None "" "" "en" "en" [] ["health"; "work"; "health"] None "" "" None None)]))
    by (apply (bool_decide_unpack _); vm_compute; reflexivity).
  split; [exact Hk|]. apply processEntries_tag_total, Hk.
Defined.


(** C14: A tag ["__proto__"] is never counted: the assignment runs the
    inherited [__proto__] setter, which ignores the string it is given. *)
Theorem processEntries_proto_never_counted entries :
  tagFrequencies (processEntries entries) !! "__proto__" = None.
Proof.
  unfold processEntries, process_entries_with. cbn [tagFrequencies].
  rewrite process_fold_tags. generalize (all_tags entries) as tags.
  intros tags. assert (Hf : (∅ : gmap string js_value) !! "__proto__" = None) by done.
  revert Hf. generalize (∅ : gmap string js_value) as freq.
  induction tags as [|t tags IH]; intros freq Hf; [done|]. simpl.
  apply IH, count_tag_proto, Hf.
Qed.

(** C15: A tag ["toString"] gets a string, not a count: the first read finds
    the inherited method, and [+ 1] concatenates its source text. *)
Theorem processEntries_toString_tag entries :
  "toString" ∈ all_tags entries ->
  toString_is_string (tagFrequencies (processEntries entries)).
Proof.
  unfold processEntries, process_entries_with. cbn [tagFrequencies].
  rewrite process_fold_tags. generalize (all_tags entries) as tags. intros tags.
  enough (H : forall freq, freq !! "toString" = None \/ toString_is_string freq ->
    "toString" ∈ tags \/ toString_is_string freq ->
    toString_is_string (fold_left count_tag tags freq)).
  { intros Hin. apply H; [left; apply lookup_empty|by left]. }
  induction tags as [|t tags IH]; intros freq Hf Hin; simpl.
  - destruct Hin as [Hin|Hs]; [set_solver|done].
  - destruct (count_tag_toString freq t Hf) as [[Hn Hne]|Hs]; apply IH.
    + by left.
    + destruct Hin as [Hin|(s & Hs & _)]; [left; set_solver|].
      unfold count_tag in Hn. rewrite lookup_set_ne in Hn by done. congruence.
    + by right.
    + by right.
Qed.

Lemma processEntries_toString_tag_witness :
  "toString" ∈ all_tags [(Entry.mkVoiceEntry "e1" "u1" None "" "" "en" "en" [] ["toString"; "work"] None "" "" None None)] /\
  toString_is_string (tagFrequencies (processEntries [(Entry.mkVoiceEntry "e1" "u1" None "" "" "en" "en" [] ["toString"; "work"] None "" "" None None)])).
Proof.
  assert (Hk : "toString" ∈ all_tags [(Entry.mkVoiceEntry "e1" "u1" None "" "" "en" "en" [] ["toString"; "work"] None "" "" None None)])
    by (apply (bool_decide_unpack _); vm_compute; reflexivity).
  split; [exact Hk|]. apply processEntries_toString_tag, Hk.
Defined.


(** C25: The summary reads back as the number of entries and of goals. *)
Theorem processEntries_summary_roundtrip entries :
  parse_summary (summary (processEntries entries)) =
  Some (length entries, length (detectedGoals (processEntries entries))).
Proof. apply process_summary_roundtrip. Qed.

(** C9: Every detected goal's task text is a trimmed piece of the raw or
    the user transcript of the entry the goal names. *)
Theorem processEntries_task_in_entry entries g :
  g ∈ detectedGoals (processEntries entries) ->
  exists e, e ∈ entries /\ source_entry_id g = Entry.id e /\
    exists pre w post,
      (Entry.transcript_raw e = pre +:+ w +:+ post \/
       Entry.transcript_user e = pre +:+ w +:+ post) /\ task_text g = trim w.
Proof. apply process_task_in_entry, _. Qed.

Lemma processEntries_task_in_entry_witness :
  let es := [Entry.mkVoiceEntry "e1" "u1" None "I plan to  swim daily. Done" "" "en" "en"
               [] [] None "" "" None None] in
  exists g, g ∈ detectedGoals (processEntries es) /\
  exists e, e ∈ es /\ source_entry_id g = Entry.id e /\
    exists pre w post,
      (Entry.transcript_raw e = pre +:+ w +:+ post \/
       Entry.transcript_user e = pre +:+ w +:+ post) /\ task_text g = trim w.
Proof.
  intros es. destruct (detectedGoals (processEntries es)) as [|g gs] eqn:E;
    [vm_compute in E; discriminate|].
  assert (Hg : g ∈ detectedGoals (processEntries es)) by (rewrite E; apply list_elem_of_here).
  exists g. split; [apply list_elem_of_here|]. exact (processEntries_task_in_entry _ _ Hg).
Defined.

(** C11: Every count in [tagFrequencies] at a key that [Object.prototype]
    does not define lies between 1 and the number of tags of the batch.
    So counts stay below 2^53, and JS numbers hold them exactly, for any
    batch with fewer tags than that. *)
Theorem processEntries_count_bound entries k n :
  plain_key k -> tagFrequencies (processEntries entries) !! k = Some (JSNumber n) ->
  (1 <= n <= Z.of_nat (length (all_tags entries)))%Z.
Proof.
  intros Hk. unfold processEntries, process_entries_with. cbn [tagFrequencies].
  rewrite process_fold_tags, (fold_count_tag_property _ _ _ 0) by done.
  unfold count_property. destruct (Nat.eqb_spec (0 + occurrences k (all_tags entries)) 0);
    [done|]. intros [= <-].
  pose proof (count_occ_bound String.string_dec k (all_tags entries)). unfold occurrences in *. lia.
Qed.

Lemma processEntries_count_bound_witness :
  let es := [Entry.mkVoiceEntry "e1" "u1" None "" "" "en" "en" [] ["work"; "work"; "gym"]
               None "" "" None None] in
  plain_key "work" /\ tagFrequencies (processEntries es) !! "work" = Some (JSNumber 2) /\
  (1 <= 2 <= Z.of_nat (length (all_tags es)))%Z.
Proof.
  intros es.
  assert (Hk : plain_key "work") by (apply (bool_decide_unpack _); vm_compute; reflexivity).
  assert (H : tagFrequencies (processEntries es) !! "work" = Some (JSNumber 2))
    by (vm_compute; reflexivity).
  split; [exact Hk|]. split; [exact H|]. exact (processEntries_count_bound _ _ _ Hk H).
Defined.

End Process.
