(* ===== verification/Route.v ===== *)
(** * The API route [POST /api/sample] ([src/template/src/app/api/sample/route.ts])

    The handler parses the request body as JSON and reads [body.entries].
    It answers 400 when that is not an array. Otherwise it answers 200
    with [processEntries(entries)]. Any exception is logged with
    [console.error] and becomes a 500:
    - [request.json()] rejects on a body that is not JSON;
    - [body.entries] throws on a [null] body;
    - [processEntries] throws a [TypeError] at [entry.tags_user] (line
      137) on an element that is [null] or whose [tags_user] is not
      iterable: [1], ["x"], [[]], [{}], [{"tags_user": null}].

    The body is a JSON value ([json], as [JSON.parse] builds it), and a
    property read follows the prototypes: an array inherits
    [Array.prototype.entries], a string has no [entries]. An element of
    the [entries] array is an object with the fields of [VoiceEntry], or
    any JSON value whose [tags_user] is not iterable. Left out are
    elements whose [tags_user] is an array or a string but whose fields
    have other types: there JS converts them with [ToString] and
    [ToPropertyKey], which are not modelled. The exception is a value of
    the small monad [throws], and [processEntries] is re-run in it: the
    loop of [Process.process_entry], which throws at the first element
    that is not an entry. The theorems show the three outcomes: 400
    exactly when the body is non-null JSON whose [entries] is not an
    array (a bare array body included), 200 with [processEntries] when
    every element is an entry, and 500 otherwise. *)

From S2P Require Import Prelude JsString Types Detect Process.
From Stdlib Require QArith_base.

Module Route.
Import JsString Types Detect Process.

(** ** A monad for code that throws *)

(** The exceptions the handler can catch. *)
Inductive js_error := SyntaxError | TypeError.

Inductive throws (A : Type) :=
  | Return (a : A)
  | Throw (e : js_error).
Arguments Return {A} a.
Arguments Throw {A} e.

Definition throws_bind {A B} (m : throws A) (k : A -> throws B) : throws B :=
  match m with
  | Return a => k a
  | Throw e => Throw e
  end.

Notation "'let?' x := m 'in' k" := (throws_bind m (fun x => k))
  (at level 10, x ident, m at level 100, k at level 200) : js_scope.
Open Scope js_scope.

(** ** JSON values *)

(** What [JSON.parse] can return. *)
#[warnings="-register-all"]
Inductive json :=
  | JNull
  | JBool (b : bool)
  | JNumber (q : QArith_base.Q)
  | JString (s : string)
  | JArray (items : list json)
  | JObject (members : list (string * json)).

(** The member [k] of an object literal: [JSON.parse] keeps the last of
    duplicate keys. *)
Definition member (k : string) (kvs : list (string * json)) : option json :=
  fold_left (fun acc kv => if String.eqb kv.1 k then Some kv.2 else acc) kvs None.

(** The result of a property read: [undefined], a JSON value, or a
    method inherited from a prototype. *)
Inductive prop :=
  | PUndefined
  | PValue (j : json)
  | PMethod.

(** [v[k]] for the two keys the code reads, ["entries"] and
    ["tags_user"]. Reading from [null] throws. An object has its own
    members. An array inherits [Array.prototype.entries]. The prototypes
    of booleans, numbers and strings define neither key. *)
Definition get_prop (v : json) (k : string) : throws prop :=
  match v with
  | JNull => Throw TypeError
  | JObject kvs => Return (match member k kvs with Some j => PValue j | None => PUndefined end)
  | JArray _ => Return (if String.eqb k "entries" then PMethod else PUndefined)
  | _ => Return PUndefined
  end.

(** [for (const tag of entry.tags_user)] can start: [tags_user] is an
    array or a string. *)
Definition tags_iterable (v : json) : bool :=
  match get_prop v "tags_user" with
  | Return (PValue (JArray _)) | Return (PValue (JString _)) => true
  | _ => false
  end.

(** [body.entries] is an array. *)
Definition entries_array (v : json) : bool :=
  match get_prop v "entries" with
  | Return (PValue (JArray _)) => true
  | _ => false
  end.

(** ** Requests and responses *)

(** An element of the [entries] array: an object with the fields of
    [VoiceEntry], or any JSON value whose [tags_user] is not iterable. *)
Inductive element :=
  | ElemEntry (e : Entry.VoiceEntry)
  | ElemOther (v : json) (Hv : tags_iterable v = false).

(** What [await request.json()] gives. It rejects on a body that is not
    JSON. Otherwise the body is an object whose [entries] member is an
    array of elements, or any other JSON value. *)
Inductive body :=
  | BodyEntries (es : list element)
  | BodyOther (v : json) (Hv : entries_array v = false).

Inductive request :=
  | InvalidJson
  | Json (b : body).

(** The value of [body.entries]: an array, or another property value. *)
Inductive entries_value :=
  | EArray (es : list element)
  | ENotArray (p : prop).

(** [NextResponse.json(value, { status })]. *)
Inductive response :=
  | Json200 (result : ProcessedResult)
  | JsonError (status : nat) (error : string).

(** ** [processEntries] on any array *)

(** The entry an element holds, if it is one. *)
Definition element_entry (x : element) : option Entry.VoiceEntry :=
  match x with
  | ElemEntry e => Some e
  | ElemOther _ _ => None
  end.

(** One pass of [for (const entry of entries)]. On an element that is not
    an entry, [entry.tags_user] is read from [null] or is not iterable: a
    [TypeError] at line 137. *)
Definition process_entry_exn (st : proc_state) (x : element) : throws proc_state :=
  match x with
  | ElemEntry entry => Return (process_entry detectGoals st entry)
  | ElemOther _ _ => Throw TypeError
  end.

Fixpoint process_loop_exn (st : proc_state) (es : list element) : throws proc_state :=
  match es with
  | [] => Return st
  | x :: es' => let? st' := process_entry_exn st x in process_loop_exn st' es'
  end.

Definition processEntries_exn (es : list element) : throws ProcessedResult :=
  let? st := process_loop_exn (∅, []) es in
  Return {| summary := "Analyzed " +:+ number_to_string (length es) +:+
                       " entries and detected " +:+ number_to_string (length st.2) +:+ " goals";
            tagFrequencies := st.1;
            detectedGoals := st.2 |}.

(** ** The handler *)

Definition invalid_input : string := "Invalid input: entries must be an array".
Definition internal_error : string := "Internal server error".

(** [const entries = body.entries]. *)
Definition body_entries (b : body) : throws entries_value :=
  match b with
  | BodyEntries es => Return (EArray es)
  | BodyOther v _ => let? p := get_prop v "entries" in Return (ENotArray p)
  end.

(** The body of [try]: parse the body, read [body.entries], check
    [Array.isArray], run [processEntries]. *)
Definition handle (req : request) : throws response :=
  match req with
  | InvalidJson => Throw SyntaxError
  | Json b =>
      let? entries := body_entries b in
      match entries with
      | ENotArray _ => Return (JsonError 400 invalid_input)
      | EArray es => let? result := processEntries_exn es in Return (Json200 result)
      end
  end.

(** [console.error('Error processing entries:', error)]: the message and
    the exception. *)
Definition log_line : Type := string * js_error.

Definition error_message : string := "Error processing entries:".

(** [export async function POST]: the [catch] logs the exception and
    turns it into a 500. The run returns the response and what was
    logged. *)
Definition POST_run (req : request) : response * list log_line :=
  match handle req with
  | Return r => (r, [])
  | Throw e => (JsonError 500 internal_error, [(error_message, e)])
  end.

Definition POST (req : request) : response := (POST_run req).1.

(** The status code of a response. *)
Definition status_of (r : response) : nat :=
  match r with
  | Json200 _ => 200
  | JsonError s _ => s
  end.

(** ** Lemmas *)

Lemma process_loop_exn_all st es :
  process_loop_exn st (ElemEntry <$> es) = Return (fold_left (process_entry detectGoals) es st).
Proof. revert st. induction es as [|e es IH]; intros st; [done|]. apply IH. Qed.

Lemma process_loop_exn_other st es :
  (exists x, x ∈ es /\ element_entry x = None) -> process_loop_exn st es = Throw TypeError.
Proof.
  revert st. induction es as [|[e|v Hv] es IH]; intros st (x & Hx & Hn); [set_solver| |done].
  apply elem_of_cons in Hx as [->|Hx]; [done|]. apply IH. eauto.
Qed.

(** [mapM element_entry] reads an array as entries, or finds an element
    that is not one. *)
Lemma mapM_entry_Some es es' : mapM element_entry es = Some es' -> es = ElemEntry <$> es'.
Proof.
  revert es'. induction es as [|[e|v Hv] es IH]; intros es' H; cbn in H; [by injection H as <-| |done].
  destruct (mapM element_entry es) as [l|] eqn:E; cbn in H; [|done].
  injection H as <-. cbn. by rewrite (IH l).
Qed.

Lemma mapM_entry_None es :
  mapM element_entry es = None -> exists x, x ∈ es /\ element_entry x = None.
Proof.
  induction es as [|[e|v Hv] es IH]; intros H; cbn in H; [done| |by eexists; split; [left|]].
  destruct (mapM element_entry es) eqn:E; cbn in H; [done|].
  destruct (IH eq_refl) as (x & Hx & Hn). exists x. split; [by right|done].
Qed.

(** On an array of entries, the exception-aware run is [processEntries]. *)
Lemma processEntries_exn_entries es :
  processEntries_exn (ElemEntry <$> es) = Return (processEntries es).
Proof.
  unfold processEntries_exn. rewrite process_loop_exn_all. cbn.
  by rewrite length_fmap.
Qed.

(** The [try] block on a body with an [entries] array. *)
Lemma handle_entries es :
  handle (Json (BodyEntries es)) =
  match mapM element_entry es with
  | Some es' => Return (Json200 (processEntries es'))
  | None => Throw TypeError
  end.
Proof.
  cbn. destruct (mapM element_entry es) as [es'|] eqn:E.
  - by rewrite (mapM_entry_Some _ _ E), processEntries_exn_entries.
  - unfold processEntries_exn. by rewrite process_loop_exn_other by by apply mapM_entry_None.
Qed.

(** The [try] block on any other body. *)
Lemma handle_other v Hv :
  handle (Json (BodyOther v Hv)) =
  match v with JNull => Throw TypeError | _ => Return (JsonError 400 invalid_input) end.
Proof. by destruct v. Qed.

(** The responses the [try] block returns itself are 200 or 400. *)
Lemma handle_status req r : handle req = Return r -> status_of r <> 500.
Proof.
  destruct req as [|[es|v Hv]]; [done| |].
  - rewrite handle_entries. destruct (mapM element_entry es); [by intros [= <-]|done].
  - rewrite handle_other. destruct v; try done; by intros [= <-].
Qed.

(** ** Theorems *)

(** C19: On a body whose [entries] is an array, the handler answers 200
    with [processEntries(entries)] when every element is an entry, and
    500 when one is not. *)
Theorem POST_array es :
  POST (Json (BodyEntries es)) =
  match mapM element_entry es with
  | Some es' => Json200 (processEntries es')
  | None => JsonError 500 internal_error
  end.
Proof.
  unfold POST, POST_run. rewrite handle_entries.
  by destruct (mapM element_entry es).
Qed.

(** C20: The handler answers 400 exactly when the body is JSON other than
    [null] whose [entries] is not an array: a boolean, a number, a
    string, an array (whose [entries] is [Array.prototype.entries]), or
    an object whose [entries] member is missing or not an array. *)
Theorem POST_400 req :
  status_of (POST req) = 400 <-> exists v Hv, req = Json (BodyOther v Hv) /\ v <> JNull.
Proof.
  unfold POST, POST_run. split.
  - destruct req as [|[es|v Hv]]; [done| |].
    + rewrite handle_entries. by destruct (mapM element_entry es).
    + rewrite handle_other. intros H. exists v, Hv. split; [done|]. by intros ->.
  - intros (v & Hv & -> & Hn). rewrite handle_other. by destruct v.
Qed.

(** C21: The handler answers 500 exactly when the code throws: on a body
    that is not JSON, on a [null] body, and on an [entries] array with an
    element that is not an entry ([null], [1], [{}], ...). *)
Theorem POST_500 req :
  status_of (POST req) = 500 <->
  req = InvalidJson \/ (exists Hv, req = Json (BodyOther JNull Hv)) \/
  exists es, req = Json (BodyEntries es) /\ exists x, x ∈ es /\ element_entry x = None.
Proof.
  unfold POST, POST_run. split.
  - destruct req as [|[es|v Hv]]; [by left| |].
    + rewrite handle_entries. destruct (mapM element_entry es) eqn:E; [done|].
      intros _. right; right. exists es. split; [done|]. by apply mapM_entry_None.
    + rewrite handle_other. destruct v; try done. intros _. right; left. by exists Hv.
  - intros [-> | [(Hv & ->) | (es & -> & Hx)]]; [done|done|].
    rewrite handle_entries. destruct (mapM element_entry es) eqn:E; [|done].
    destruct Hx as (x & Hx & Hn). apply mapM_entry_Some in E as ->.
    apply list_elem_of_fmap in Hx as (e & -> & _). done.
Qed.

(** C22: The handler writes to the error log exactly when it answers 500,
    and then it logs one line: the message and the exception caught. *)
Theorem POST_logs req :
  ((POST_run req).2 <> [] <-> status_of (POST req) = 500) /\
  length (POST_run req).2 <= 1.
Proof.
  unfold POST, POST_run. destruct (handle req) as [r|e] eqn:E; simpl.
  - split; [|lia]. split; [done|]. by apply handle_status in E.
  - split; [done|lia].
Qed.

Close Scope js_scope.
End Route.
