(* ===== verification/Layout.v ===== *)
(** * The root layout ([src/template/src/app/layout.tsx])

    The file exports the page metadata and [RootLayout], which wraps the
    page's children in [<html lang="en"><body>...</body></html>]. The
    model is the metadata record and the element tree the component
    returns. The stylesheet import [./globals.css] has no behaviour to
    model. No theorem is stated here: the component has no logic beyond
    the tree it returns. *)

From S2P Require Import Prelude.

Module Layout.

(** [Metadata] as far as the file sets it. *)
Record Metadata := MkMetadata { title : string; description : string }.

(** [export const metadata: Metadata = {...}]. *)
Definition metadata : Metadata :=
  {| title := "Sentari Interview Template";
     description := "A template for the Sentari interview task" |}.

(** A React node: an element with its attributes and children, or one
    of the nodes passed in as [children], by position. *)
#[warnings="-register-all"]
Inductive node :=
  | Element (tag : string) (attrs : list (string * string)) (children : list node)
  | ChildNode (n : nat).

(** [export default function RootLayout({ children })]. *)
Definition RootLayout (children : list node) : node :=
  Element "html" [("lang", "en")] [Element "body" [] children].

End Layout.
