(* ===== verification/Vitest.v ===== *)
(** * The [expect] matchers of the test suite (vitest)

    [src/template/tests/sample.test.ts] checks the result of
    [processEntries] with five kinds of [expect]:
    - [expect(result.summary).toBe(s)];
    - [expect(result.tagFrequencies).toEqual({...})];
    - [expect(result.detectedGoals).toHaveLength(n)];
    - [expect(result.detectedGoals[i]).toMatchObject({...})], which
      compares only the keys listed, and where [confidence:
      expect.any(Number)] accepts every number, [NaN] included;
    - [result.detectedGoals.forEach(goal => { expect(goal.confidence)
      .toBeGreaterThanOrEqual(0); expect(goal.confidence)
      .toBeLessThanOrEqual(1) })].

    A failing [expect] throws, so an [it] block stops at its first failing
    expectation. [run_test] returns the position of that expectation, or
    [None] when the test passes. *)

From S2P Require Import Prelude JsObject JsNumber Types.
From Stdlib Require Import ZArith QArith.

Module Vitest.
Import JsObject JsNumber Types.

(** One key of a [toMatchObject] argument. *)
Inductive goal_field :=
  | FTask (s : string)
  | FDue (s : string)
  | FStatus (st : GoalStatus)
  | FCategory (s : string)
  | FSource (s : string)
  | FConfidenceNumber.

Inductive expectation :=
  | SummaryToBe (s : string)
  | TagsToEqual (kvs : list (string * Z))
  | GoalsToHaveLength (n : nat)
  | GoalToMatch (i : nat) (fields : list goal_field)
  | ConfidencesInRange.

(** The object literal [{ k1: n1, ... }] of a [toEqual]. *)
Definition tags_object (kvs : list (string * Z)) : gmap string js_value :=
  list_to_map ((fun kv => (kv.1, JSNumber kv.2)) <$> kvs).

(** [toMatchObject] on one key: equal strings, equal [status]. The
    asymmetric matcher [expect.any(Number)] accepts any JS number. *)
Definition field_ok (g : DetectedGoal) (f : goal_field) : bool :=
  match f with
  | FTask s => String.eqb (task_text g) s
  | FDue s => bool_decide (due_date g = Some s)
  | FStatus st => bool_decide (status g = st)
  | FCategory s => bool_decide (category g = Some s)
  | FSource s => String.eqb (source_entry_id g) s
  | FConfidenceNumber => true
  end.

(** [toBeGreaterThanOrEqual(0)] and [toBeLessThanOrEqual(1)]: comparisons
    with [NaN] are false. *)
Definition ge_zero (x : number) : bool :=
  match x with Num q => Qle_bool 0 q | PosInf => true | _ => false end.

Definition le_one (x : number) : bool :=
  match x with Num q => Qle_bool q 1 | NegInf => true | _ => false end.

Definition check (r : ProcessedResult) (e : expectation) : bool :=
  match e with
  | SummaryToBe s => String.eqb (summary r) s
  | TagsToEqual kvs => bool_decide (tagFrequencies r = tags_object kvs)
  | GoalsToHaveLength n => Nat.eqb (length (detectedGoals r)) n
  | GoalToMatch i fs =>
      match detectedGoals r !! i with
      | Some g => forallb (field_ok g) fs
      | None => false
      end
  | ConfidencesInRange =>
      forallb (fun g => ge_zero (confidence g) && le_one (confidence g)) (detectedGoals r)
  end.

(** An [it] block: the position of the first failing [expect], or [None]
    when every expectation holds. *)
Fixpoint run_from (i : nat) (r : ProcessedResult) (es : list expectation) : option nat :=
  match es with
  | [] => None
  | e :: es' => if check r e then run_from (S i) r es' else Some i
  end.

Definition run_test (r : ProcessedResult) (es : list expectation) : option nat :=
  run_from 0 r es.

End Vitest.
