(* ===== verification/Tests.v ===== *)
(** * The fixtures of [src/template/tests/sample.test.ts], evaluated

    The test file has four [it] blocks: three batches of entries and the
    empty batch, each with the [expect] calls on the result of
    [processEntries]. This file holds the batches and the expectations as
    data ([Vitest.expectation]) and records, as [Example]s checked by
    evaluation, what the model of the code returns on them and which
    [expect] fails. Tests 2 and 3 pass. Tests 1 and 4 fail at their first
    [expect]. Each [[^.,!?]+] capture runs to the end of the clause. A transcript can match two patterns. Repeats
    are removed only within an entry. No due date of these transcripts
    has the form [extractDueDate] accepts. *)

From S2P Require Import Prelude JsObject JsNumber Types Detect Process Vitest.
From Stdlib Require Import ZArith QArith.

Module Tests.
Import JsObject JsNumber Types Detect Process Vitest.

(** ** Fixtures *)

(** Test 1, "detects goals from voice entries": ten entries. *)
Definition test1_entries : list Entry.VoiceEntry := [
  Entry.mkVoiceEntry "1" "user1" None
    "I want to learn Spanish before our trip to Madrid"
    "I want to learn Spanish before our trip to Madrid"
    "en" "en" [] ["language"; "travel"] None "2024-03-20T10:00:00Z" "2024-03-20T10:00:00Z" (Some (Num (Qmake 5 10))) None;
  Entry.mkVoiceEntry "2" "user1" None
    "Tomorrow I'm going to the dentist in the morning"
    "Tomorrow I'm going to the dentist in the morning"
    "en" "en" [] ["health"] None "2024-03-20T11:00:00Z" "2024-03-20T11:00:00Z" (Some (Num (Qmake 3 10))) None;
  Entry.mkVoiceEntry "3" "user1" None
    "I need to finish this certification course by July"
    "I need to finish this certification course by July"
    "en" "en" [] ["career"; "education"] None "2024-03-20T12:00:00Z" "2024-03-20T12:00:00Z" (Some (Num (Qmake 7 10))) None;
  Entry.mkVoiceEntry "4" "user1" None
    "I plan to start my own business by next summer"
    "I plan to start my own business by next summer"
    "en" "en" [] ["career"; "business"] None "2024-03-20T13:00:00Z" "2024-03-20T13:00:00Z" (Some (Num (Qmake 8 10))) None;
  Entry.mkVoiceEntry "5" "user1" None
    "I should sleep earlier, but I always end up scrolling late into the night"
    "I should sleep earlier, but I always end up scrolling late into the night"
    "en" "en" [] ["health"; "habits"] None "2024-03-20T14:00:00Z" "2024-03-20T14:00:00Z" (Some (Num (Qmake 2 10))) None;
  Entry.mkVoiceEntry "6" "user1" None
    "I'm going to ask her out next weekend"
    "I'm going to ask her out next weekend"
    "en" "en" [] ["personal"; "social"] None "2024-03-20T15:00:00Z" "2024-03-20T15:00:00Z" (Some (Num (Qmake 6 10))) None;
  Entry.mkVoiceEntry "7" "user1" None
    "I've decided to finally quit smoking"
    "I've decided to finally quit smoking"
    "en" "en" [] ["health"; "habits"] None "2024-03-20T16:00:00Z" "2024-03-20T16:00:00Z" (Some (Num (Qmake 9 10))) None;
  Entry.mkVoiceEntry "8" "user1" None
    "I have to finish my presentation slides by Friday"
    "I have to finish my presentation slides by Friday"
    "en" "en" [] ["work"; "deadline"] None "2024-03-20T17:00:00Z" "2024-03-20T17:00:00Z" (Some (Num (Qmake 4 10))) None;
  Entry.mkVoiceEntry "9" "user1" None
    "I intend to learn Spanish before our trip to Madrid"
    "I intend to learn Spanish before our trip to Madrid"
    "en" "en" [] ["language"; "travel"] None "2024-03-20T18:00:00Z" "2024-03-20T18:00:00Z" (Some (Num (Qmake 7 10))) None;
  Entry.mkVoiceEntry "10" "user1" None
    "I aim to run a marathon in under four hours"
    "I aim to run a marathon in under four hours"
    "en" "en" [] ["fitness"; "goal"] None "2024-03-20T19:00:00Z" "2024-03-20T19:00:00Z" (Some (Num (Qmake 8 10))) None].

(** Test 2, "handles entries with no goals". *)
Definition test2_entries : list Entry.VoiceEntry := [
  Entry.mkVoiceEntry "1" "user1" None
    "Just had a great day at the beach"
    "Just had a great day at the beach"
    "en" "en" [] ["leisure"] None "2024-03-20T10:00:00Z" "2024-03-20T10:00:00Z" (Some (Num (Qmake 8 10))) None].

(** Test 4, "detects goals from mock data entries": the raw transcript differs from the user one. *)
Definition test4_entries : list Entry.VoiceEntry := [
  Entry.mkVoiceEntry "1" "user1" None
    "I want to get a promotion this year."
    "I've been thinking I want to get a promotion this year."
    "en" "en" [] ["career"] None "2025-06-01T09:00:00Z" "2025-06-01T09:05:00Z" (Some (Num (Qmake 5 100))) None;
  Entry.mkVoiceEntry "2" "user1" None
    "My goal is to run a marathon in under four hours."
    "My goal is to run a marathon in under four hours."
    "en" "en" [] ["fitness"] None "2025-06-02T09:00:00Z" "2025-06-02T09:05:00Z" (Some (Num (Qmake 7 100))) None;
  Entry.mkVoiceEntry "3" "user1" None
    "I'm planning to start my own business by next summer."
    "I've been thinking I'm planning to start my own business by next summer."
    "en" "en" [] ["career"; "business"] None "2025-06-03T09:00:00Z" "2025-06-03T09:05:00Z" (Some (Num (Qmake 9 100))) None;
  Entry.mkVoiceEntry "4" "user1" None
    "I intend to learn Spanish before our trip to Madrid."
    "I've been thinking I intend to learn Spanish before our trip to Madrid."
    "en" "en" [] ["language"; "travel"] None "2025-06-04T09:00:00Z" "2025-06-04T09:05:00Z" (Some (Num (Qmake 11 100))) None;
  Entry.mkVoiceEntry "5" "user1" None
    "I really want to lose ten pounds before my birthday."
    "I've been thinking I really want to lose ten pounds before my birthday."
    "en" "en" [] ["health"; "fitness"] None "2025-06-05T09:00:00Z" "2025-06-05T09:05:00Z" (Some (Num (Qmake 13 100))) None;
  Entry.mkVoiceEntry "6" "user1" None
    "I need to finish this certification course by July."
    "I've been thinking I need to finish this certification course by July."
    "en" "en" [] ["education"; "career"] None "2025-06-06T09:00:00Z" "2025-06-06T09:05:00Z" (Some (Num (Qmake 15 100))) None;
  Entry.mkVoiceEntry "7" "user1" None
    "I'm going to ask her out next weekend."
    "I've been thinking I'm going to ask her out next weekend."
    "en" "en" [] ["personal"; "social"] None "2025-06-07T09:00:00Z" "2025-06-07T09:05:00Z" (Some (Num (Qmake 17 100))) None;
  Entry.mkVoiceEntry "8" "user1" None
    "I've decided to finally quit smoking."
    "I've been thinking I've decided to finally quit smoking."
    "en" "en" [] ["health"] None "2025-06-08T09:00:00Z" "2025-06-08T09:05:00Z" (Some (Num (Qmake 19 100))) None;
  Entry.mkVoiceEntry "9" "user1" None
    "I'm saving up to buy a new car."
    "I've been thinking I'm saving up to buy a new car."
    "en" "en" [] ["finance"] None "2025-06-09T09:00:00Z" "2025-06-09T09:05:00Z" (Some (Num (Qmake 21 100))) None;
  Entry.mkVoiceEntry "10" "user1" None
    "I've been meaning to read at least one book a month."
    "I've been thinking I've been meaning to read at least one book a month."
    "en" "en" [] ["education"; "habits"] None "2025-06-10T09:00:00Z" "2025-06-10T09:05:00Z" (Some (Num (Qmake 23 100))) None].

(** The task texts of a result, in order. *)
Definition task_texts (r : ProcessedResult) : list string := map task_text (detectedGoals r).

(** ** The expectations of each test *)

(** Test 1, lines 185-297. *)
Definition test1_expectations : list expectation :=
  [SummaryToBe "Analyzed 10 entries and detected 9 goals";
   TagsToEqual [("language", 2%Z); ("travel", 2%Z); ("health", 2%Z); ("career", 2%Z); ("education", 1%Z); ("business", 1%Z); ("habits", 2%Z); ("personal", 1%Z); ("social", 1%Z); ("work", 1%Z); ("deadline", 1%Z); ("fitness", 1%Z); ("goal", 1%Z)];
   GoalsToHaveLength 9;
   GoalToMatch 0 [FTask "learn Spanish"; FDue "our trip to Madrid"; FStatus pending; FCategory "education"; FSource "1"; FConfidenceNumber];
   GoalToMatch 1 [FTask "the dentist in the morning"; FDue "tomorrow"; FStatus pending; FCategory "health"; FSource "2"; FConfidenceNumber];
   GoalToMatch 2 [FTask "finish this certification course"; FDue "July"; FStatus pending; FCategory "education"; FSource "3"; FConfidenceNumber];
   GoalToMatch 3 [FTask "start my own business"; FDue "next summer"; FStatus pending; FCategory "career"; FSource "4"; FConfidenceNumber];
   GoalToMatch 4 [FTask "sleep earlier"; FStatus pending; FCategory "health"; FSource "5"; FConfidenceNumber];
   GoalToMatch 5 [FTask "ask her out"; FDue "next weekend"; FStatus pending; FCategory "personal"; FSource "6"; FConfidenceNumber];
   GoalToMatch 6 [FTask "finally quit smoking"; FStatus pending; FCategory "health"; FSource "7"; FConfidenceNumber];
   GoalToMatch 7 [FTask "finish my presentation slides"; FDue "Friday"; FStatus pending; FCategory "career"; FSource "8"; FConfidenceNumber];
   GoalToMatch 8 [FTask "run a marathon in under four hours"; FStatus pending; FCategory "health"; FSource "10"; FConfidenceNumber];
   ConfidencesInRange].

(** Test 2, lines 324-326. *)
Definition test2_expectations : list expectation :=
  [SummaryToBe "Analyzed 1 entries and detected 0 goals";
   GoalsToHaveLength 0;
   TagsToEqual [("leisure", 1%Z)]].

(** Test 3, lines 331-335: the empty batch. *)
Definition test3_expectations : list expectation :=
  [SummaryToBe "Analyzed 0 entries and detected 0 goals";
   GoalsToHaveLength 0;
   TagsToEqual []].

(** Test 4, lines 506-626. *)
Definition test4_expectations : list expectation :=
  [SummaryToBe "Analyzed 10 entries and detected 10 goals";
   TagsToEqual [("career", 3%Z); ("fitness", 2%Z); ("business", 1%Z); ("language", 1%Z); ("travel", 1%Z); ("health", 2%Z); ("education", 2%Z); ("personal", 1%Z); ("social", 1%Z); ("finance", 1%Z); ("habits", 1%Z)];
   GoalsToHaveLength 10;
   GoalToMatch 0 [FTask "get a promotion"; FDue "this year"; FStatus pending; FCategory "career"; FSource "1"; FConfidenceNumber];
   GoalToMatch 1 [FTask "run a marathon in under four hours"; FStatus pending; FCategory "health"; FSource "2"; FConfidenceNumber];
   GoalToMatch 2 [FTask "start my own business"; FDue "next summer"; FStatus pending; FCategory "career"; FSource "3"; FConfidenceNumber];
   GoalToMatch 3 [FTask "learn Spanish"; FDue "our trip to Madrid"; FStatus pending; FCategory "education"; FSource "4"; FConfidenceNumber];
   GoalToMatch 4 [FTask "lose ten pounds"; FDue "my birthday"; FStatus pending; FCategory "health"; FSource "5"; FConfidenceNumber];
   GoalToMatch 5 [FTask "finish this certification course"; FDue "July"; FStatus pending; FCategory "education"; FSource "6"; FConfidenceNumber];
   GoalToMatch 6 [FTask "ask her out"; FDue "next weekend"; FStatus pending; FCategory "personal"; FSource "7"; FConfidenceNumber];
   GoalToMatch 7 [FTask "finally quit smoking"; FStatus pending; FCategory "health"; FSource "8"; FConfidenceNumber];
   GoalToMatch 8 [FTask "saving up to buy a new car"; FStatus pending; FCategory "finance"; FSource "9"; FConfidenceNumber];
   GoalToMatch 9 [FTask "read at least one book a month"; FStatus pending; FCategory "education"; FSource "10"; FConfidenceNumber];
   ConfidencesInRange].

(** The four [it] blocks: their input and their expectations. *)
Definition suite : list (list Entry.VoiceEntry * list expectation) :=
  [(test1_entries, test1_expectations); (test2_entries, test2_expectations);
   ([], test3_expectations); (test4_entries, test4_expectations)].

(** ** What the code returns on the fixtures *)

(** Test 1: eleven goals, not the nine the test expects. The phrase runs
    to the end of the clause ("learn Spanish before our trip to Madrid").
    The transcript of entry 2 matches two patterns. Entries 1 and 9 keep
    the same task text, since repeats are removed only within an entry. *)
Example test1_goals :
  summary (processEntries test1_entries) = "Analyzed 10 entries and detected 11 goals" /\
  task_texts (processEntries test1_entries) =
    ["learn Spanish before our trip to Madrid"; "the dentist in the morning";
     "going to the dentist in the morning"; "finish this certification course by July";
     "start my own business by next summer"; "sleep earlier"; "ask her out next weekend";
     "finally quit smoking"; "finish my presentation slides by Friday";
     "learn Spanish before our trip to Madrid"; "run a marathon in under four hours"].
Proof. split; vm_compute; reflexivity. Qed.

(** Test 1: no goal has a due date. The expected ["our trip to Madrid"],
    ["tomorrow"], ["July"], ["next summer"], ["next weekend"] and
    ["Friday"] are never returned. The "certification" goal is in
    [career], not [education]. *)
Example test1_due_dates_and_categories :
  map due_date (detectedGoals (processEntries test1_entries)) = replicate 11 None /\
  map category (detectedGoals (processEntries test1_entries)) =
    [Some "education"; Some "health"; Some "health"; Some "career"; Some "career";
     Some "health"; None; None; None; Some "education"; None].
Proof. split; vm_compute; reflexivity. Qed.

(** Test 1: the tag [health] occurs three times in the fixture, and the
    code counts 3; the test expects 2. *)
Example test1_health_count :
  tagFrequencies (processEntries test1_entries) !! "health" = Some (JSNumber 3).
Proof. vm_compute. reflexivity. Qed.

(** Test 4: six goals, not ten. "My goal is to", "I'm planning to",
    "I'm saving up to" and "I've been meaning to" match no pattern. *)
Example test4_goals :
  summary (processEntries test4_entries) = "Analyzed 10 entries and detected 6 goals" /\
  task_texts (processEntries test4_entries) =
    ["get a promotion this year"; "learn Spanish before our trip to Madrid";
     "lose ten pounds before my birthday"; "finish this certification course by July";
     "ask her out next weekend"; "finally quit smoking"].
Proof. split; vm_compute; reflexivity. Qed.

(** ** The test run *)

(** Running the suite: tests 1 and 4 fail at their first [expect], the
    summary line; tests 2 and 3 pass. *)
Example suite_outcome :
  map (fun t => run_test (processEntries t.1) t.2) suite = [Some 0%nat; None; None; Some 0%nat].
Proof. vm_compute. reflexivity. Qed.

End Tests.
